(** * cloudflare-mcp: the truncator, the code-execution gateway, the account
      resolver and the reference resolver, embedded and verified.

    The development follows the TypeScript sources:
    - [src/truncate.ts]           -> module [Truncate]
    - [src/executor.ts]           -> module [Executor]
    - the server ([resolveAccountId], [formatError], the [execute] tool)
                                  -> module [Server]
    - [scripts/build-spec.ts] ([resolveRefs]) -> module [BuildSpec]

    Module [Js] holds the fragment of the JavaScript runtime those sources
    rely on: values, exceptions, string operations and [JSON.stringify]. *)

From Stdlib Require Import ZArith Lia Bool Ascii DecimalString.
From stdpp Require Import base option list strings gmap.

Local Open Scope Z_scope.
#[local] Set Warnings "-clear-no-such-hyp".

(** ** The JavaScript fragment *)

Module Js.

(** JavaScript values that can cross the boundaries this code is about:
    decoded JSON documents, plus [undefined] and BigInt.  A string is a
    sequence of code units; the model keeps the code units 0..255.  A number
    is an integer that a double holds (the sources only count and print
    integers; fractions and NaN are outside the model).  An object is the
    list of its own enumerable properties in the order [Object.entries]
    reports them; its keys are pairwise distinct.  A decoded JSON document
    can have an own property named ["__proto__"]. *)
#[warnings="-register-all"]
Inductive value : Type :=
| VUndefined
| VNull
| VBool (b : bool)
| VNum (n : Z)
| VBigInt (n : Z)
| VString (s : string)
| VArray (items : list value)
| VObject (props : list (string * value)).

(** What a [throw] carries: an [Error] instance (its [name] and [message]),
    or any other value. *)
Inductive thrown : Type :=
| ErrorObj (name : string) (message : string)
| NonError (v : value).

Definition new_Error (message : string) : thrown := ErrorObj "Error" message.
Definition new_TypeError (message : string) : thrown := ErrorObj "TypeError" message.

(** A computation either returns or throws. *)
Inductive outcome (A : Type) : Type :=
| Return (a : A)
| Throw (e : thrown).
Arguments Return {A} a.
Arguments Throw {A} e.

#[global] Instance outcome_ret : MRet outcome := fun A a => Return a.
#[global] Instance outcome_bind : MBind outcome := fun A B k m =>
  match m with
  | Return a => k a
  | Throw e => Throw e
  end.

(** [try { body } catch (err) { handler }] *)
Definition try_catch {A} (body : outcome A) (handler : thrown -> outcome A) : outcome A :=
  match body with
  | Return a => Return a
  | Throw e => handler e
  end.

(** *** Strings *)

Definition dq : string := String "034" EmptyString.
Definition nl : string := String "010" EmptyString.

Fixpoint join (sep : string) (parts : list string) : string :=
  match parts with
  | [] => EmptyString
  | [p] => p
  | p :: rest => p +:+ sep +:+ join sep rest
  end.

(** The template literals of the sources, line by line. *)
Definition lines (ls : list string) : string := join nl ls.

Fixpoint starts_with (prefix s : string) : bool :=
  match prefix, s with
  | EmptyString, _ => true
  | String a p, String b r => if Ascii.eqb a b then starts_with p r else false
  | String _ _, EmptyString => false
  end.

(** [haystack.includes(needle)] *)
Fixpoint includes (haystack needle : string) : bool :=
  starts_with needle haystack ||
  match haystack with
  | EmptyString => false
  | String _ rest => includes rest needle
  end.

(** [s.slice(0, n)] for [0 <= n] *)
Fixpoint slice0 (n : nat) (s : string) : string :=
  match n, s with
  | S m, String c r => String c (slice0 m r)
  | _, _ => EmptyString
  end.

Fixpoint drop_chars (n : nat) (s : string) : string :=
  match n, s with
  | S m, String _ r => drop_chars m r
  | _, _ => s
  end.

(** [s.replace(pat, rep)] with a string pattern: the first occurrence only. *)
Fixpoint replace_first (pat rep s : string) : string :=
  if starts_with pat s then rep +:+ drop_chars (String.length pat) s
  else match s with
       | EmptyString => EmptyString
       | String c r => String c (replace_first pat rep r)
       end.

(** [s.split(sep)] for a one-character separator. *)
Fixpoint split_on (sep : ascii) (s : string) : list string :=
  match s with
  | EmptyString => [EmptyString]
  | String c r =>
      if Ascii.eqb c sep then EmptyString :: split_on sep r
      else match split_on sep r with
           | [] => [String c EmptyString]
           | p :: ps => String c p :: ps
           end
  end.

Definition is_empty (s : string) : bool :=
  match s with EmptyString => true | String _ _ => false end.

(** *** Printing numbers

    A number of the sources is an integer held by a double.  Every integer up
    to [2^53] in magnitude is one, and is printed digit for digit.  A larger
    double is [m * 2^e] with [2^52 <= m < 2^53]; it is printed with the
    fewest digits that still read back as the same double, and in exponent
    notation from 22 digits on. *)

(** The decimal numeral of an integer, with its sign. *)
Definition decimal (n : Z) : string := NilZero.string_of_int (Z.to_int n).

Definition zeros (p : nat) : string := String.string_of_list_ascii (repeat "0"%char p).

(** Whether the integer [v] reads back as the double [x], for [2^53 < x]:
    the doubles next to [x] are [2^e] away ([2^(e-1)] below when [x] is a
    power of two), a real halfway between two doubles goes to the one with
    the even [m]. *)
Definition rounds_to (x v : Z) : bool :=
  let e := Z.log2 x - 52 in
  let m := x / 2 ^ e in
  let below := if m =? 2 ^ 52 then 2 ^ (e - 2) else 2 ^ (e - 1) in
  let above := 2 ^ (e - 1) in
  if Z.even m then (x - below <=? v) && (v <=? x + above)
  else (x - below <? v) && (v <? x + above).

(** The shortest numeral of the double [x]: the largest power of ten, from
    [10^p] down, that has a multiple [s * 10^p] reading back as [x]; of two
    such multiples the nearer to [x], and on a tie the one with [s] even
    (Number::toString, step 5). *)
Fixpoint shortest (x : Z) (p : nat) : Z * nat :=
  let unit := 10 ^ Z.of_nat p in
  let down := x / unit * unit in
  let up := down + unit in
  let take_down := (0 <? down) && rounds_to x down in
  let take_up := rounds_to x up in
  let nearer_down := (x - down <? up - x) || ((x - down =? up - x) && Z.even (down / unit)) in
  if take_down && (negb take_up || nearer_down) then (down / unit, p)
  else if take_up then (up / unit, p)
  else match p with
       | O => (x, O)
       | S p' => shortest x p'
       end.

(** All the digits of a non-negative number: its numeral up to [2^53], the
    shortest numeral [s] and the zeros after it beyond. *)
Definition integer_digits (x : Z) : string :=
  if x <=? 2 ^ 53 then decimal x
  else let '(s, p) := shortest x (String.length (decimal x)) in decimal s +:+ zeros p.

(** [d.ddde+n] *)
Definition exponent_form (s : Z) (p : nat) : string :=
  match decimal s with
  | String d rest =>
      String d (if is_empty rest then EmptyString else "." +:+ rest) +:+ "e+" +:+
      decimal (Z.of_nat (String.length rest + p))
  | EmptyString => EmptyString
  end.

(** A number of at most 21 digits is printed with all of them, a longer
    one in exponent notation. *)
Definition unsigned_to_string (x : Z) : string :=
  if x <=? 2 ^ 53 then decimal x
  else let '(s, p) := shortest x (String.length (decimal x)) in
       if (String.length (decimal s) + p <=? 21)%nat then decimal s +:+ zeros p
       else exponent_form s p.

(** Number::toString for integers. *)
Definition number_to_string (n : Z) : string :=
  if n <? 0 then "-" +:+ unsigned_to_string (- n) else unsigned_to_string n.

Fixpoint group3_rev (digits_rev : list ascii) : list ascii :=
  match digits_rev with
  | a :: b :: c :: ((_ :: _) as rest) => a :: b :: c :: ","%char :: group3_rev rest
  | _ => digits_rev
  end.

(** The digits grouped in threes by commas. *)
Definition grouped (digits : string) : string :=
  String.string_of_list_ascii
    (rev (group3_rev (rev (String.list_ascii_of_string digits)))).

(** [n.toLocaleString()] for an integer in the runtime's default locale,
    en-US: all its digits, grouped, never an exponent. *)
Definition toLocaleString (n : Z) : string :=
  if n <? 0 then "-" +:+ grouped (integer_digits (- n)) else grouped (integer_digits n).

Definition not_comma (c : ascii) : bool := negb (Ascii.eqb c ","%char).

(** Reads a grouped numeral back: the digits, commas skipped. *)
Definition ungroup (s : string) : string :=
  String.string_of_list_ascii (List.filter not_comma (String.list_ascii_of_string s)).

(** A canonical array index: decimal digits without a leading zero. *)
Definition parse_index (key : string) : option nat :=
  match NilZero.uint_of_string key with
  | Some d =>
      let n := Nat.of_uint d in
      if String.eqb (NilZero.string_of_uint (Nat.to_uint n)) key then Some n else None
  | None => None
  end.

(** *** Values *)

(** ToBoolean *)
Definition truthy (v : value) : bool :=
  match v with
  | VUndefined | VNull => false
  | VBool b => b
  | VNum n | VBigInt n => negb (n =? 0)
  | VString EmptyString => false
  | VString (String _ _) => true
  | VArray _ | VObject _ => true
  end.

(** [v ?? d] *)
Definition nullish_or (v d : value) : value :=
  match v with
  | VUndefined | VNull => d
  | _ => v
  end.

(** ToString: what [String(v)], a template literal and [+] with a string
    operand apply to [v]. *)
Fixpoint to_string (v : value) : string :=
  match v with
  | VUndefined => "undefined"
  | VNull => "null"
  | VBool true => "true"
  | VBool false => "false"
  | VNum n => number_to_string n
  | VBigInt n => decimal n
  | VString s => s
  | VArray items =>
      join "," (map (fun x => match x with
                              | VUndefined | VNull => EmptyString
                              | _ => to_string x
                              end) items)
  | VObject _ => "[object Object]"
  end.

Fixpoint own_prop (props : list (string * value)) (key : string) : option value :=
  match props with
  | [] => None
  | (k, v) :: rest => if String.eqb k key then Some v else own_prop rest key
  end.

Definition char_at (s : string) (i : nat) : value :=
  match String.get i s with
  | Some c => VString (String c EmptyString)
  | None => VUndefined
  end.

(** [v?.[key]] for a key that is read off the value itself: the own
    property, [undefined] when [v] is [null] or [undefined].  For a key that
    is no own property JavaScript goes on to the built-in prototypes; they
    hold functions and accessors under names such as ["constructor"],
    ["toString"] or ["__proto__"], which are no values of this model.  The
    sources read fixed keys that no prototype has ([success], [result],
    [$ref], ...), for which the answer is [undefined], as here; where a key
    comes from the data, [reads_own] below says when the read is settled by
    the value. *)
Definition get_prop (v : value) (key : string) : value :=
  match v with
  | VObject props => default VUndefined (own_prop props key)
  | VArray items =>
      match parse_index key with
      | Some i => default VUndefined (items !! i)
      | None => if String.eqb key "length" then VNum (Z.of_nat (length items)) else VUndefined
      end
  | VString s =>
      match parse_index key with
      | Some i => char_at s i
      | None => if String.eqb key "length" then VNum (Z.of_nat (String.length s)) else VUndefined
      end
  | _ => VUndefined
  end.

(** Whether [v?.[key]] is settled by [v] itself: [v] is [null] or
    [undefined], or [key] names an own property of [v].  [get_prop] is the
    answer then, whatever the key. *)
Definition reads_own (v : value) (key : string) : bool :=
  match v with
  | VUndefined | VNull => true
  | VObject props => bool_decide (is_Some (own_prop props key))
  | VArray items =>
      match parse_index key with
      | Some i => bool_decide (i < length items)%nat
      | None => String.eqb key "length"
      end
  | VString s =>
      match parse_index key with
      | Some i => bool_decide (i < String.length s)%nat
      | None => String.eqb key "length"
      end
  | _ => false
  end.

(** [v.key] and [v[key]]: a TypeError on [null] and [undefined]. *)
Definition member (v : value) (key : string) : outcome value :=
  match v with
  | VUndefined | VNull =>
      Throw (new_TypeError ("Cannot read properties of " +:+ to_string v +:+
                            " (reading '" +:+ key +:+ "')"))
  | _ => Return (get_prop v key)
  end.

Fixpoint indexed {A} (i : nat) (l : list A) : list (string * A) :=
  match l with
  | [] => []
  | x :: r => (NilZero.string_of_uint (Nat.to_uint i), x) :: indexed (S i) r
  end.

(** [Object.entries(v)] for a value that is neither [null] nor [undefined]. *)
Definition entries (v : value) : list (string * value) :=
  match v with
  | VObject props => props
  | VArray items => indexed 0 items
  | VString s =>
      indexed 0 (map (fun c => VString (String c EmptyString)) (String.list_ascii_of_string s))
  | _ => []
  end.

(** *** JSON.stringify *)

Definition bs : string := String "092" EmptyString.

Definition hex_digit (n : N) : ascii :=
  match n with
  | 10%N => "a" | 11%N => "b" | 12%N => "c" | 13%N => "d" | 14%N => "e" | 15%N => "f"
  | _ => ascii_of_N (48 + n)
  end%char.

(** One code unit inside a JSON string literal (QuoteJSONString). *)
Definition quote_char (c : ascii) : string :=
  let n := N_of_ascii c in
  if (n =? 8)%N then bs +:+ "b"
  else if (n =? 9)%N then bs +:+ "t"
  else if (n =? 10)%N then bs +:+ "n"
  else if (n =? 12)%N then bs +:+ "f"
  else if (n =? 13)%N then bs +:+ "r"
  else if (n =? 34)%N then bs +:+ dq
  else if (n =? 92)%N then bs +:+ bs
  else if (n <? 32)%N then
    bs +:+ "u00" +:+ String (hex_digit (n / 16)) (String (hex_digit (n mod 16)) EmptyString)
  else String c EmptyString.

Fixpoint quote_body (s : string) : string :=
  match s with
  | EmptyString => EmptyString
  | String c r => quote_char c +:+ quote_body r
  end.

Definition quote (s : string) : string := dq +:+ quote_body s +:+ dq.

(** The closing steps of SerializeJSONObject and SerializeJSONArray. *)
Definition wrap_members (opening closing gap indent stepback : string)
    (partial : list string) : string :=
  match partial with
  | [] => opening +:+ closing
  | _ :: _ =>
      if is_empty gap then opening +:+ join "," partial +:+ closing
      else opening +:+ nl +:+ indent +:+ join ("," +:+ nl +:+ indent) partial +:+
           nl +:+ stepback +:+ closing
  end.

(** SerializeJSONProperty: [None] is JavaScript's [undefined] (nothing to
    print); a BigInt raises a TypeError. *)
Fixpoint serialize_property (gap indent : string) (v : value) : outcome (option string) :=
  match v with
  | VUndefined => Return None
  | VNull => Return (Some "null")
  | VBool true => Return (Some "true")
  | VBool false => Return (Some "false")
  | VNum n => Return (Some (number_to_string n))
  | VBigInt _ => Throw (new_TypeError "Do not know how to serialize a BigInt")
  | VString s => Return (Some (quote s))
  | VArray items =>
      let inner := indent +:+ gap in
      partial ← (fix elements (l : list value) : outcome (list string) :=
                   match l with
                   | [] => Return []
                   | x :: r =>
                       str ← serialize_property gap inner x;
                       rest ← elements r;
                       Return (default "null" str :: rest)
                   end) items;
      Return (Some (wrap_members "[" "]" gap inner indent partial))
  | VObject props =>
      let inner := indent +:+ gap in
      partial ← (fix members (l : list (string * value)) : outcome (list string) :=
                   match l with
                   | [] => Return []
                   | (k, x) :: r =>
                       str ← serialize_property gap inner x;
                       rest ← members r;
                       Return (match str with
                               | Some t =>
                                   (quote k +:+ ":" +:+
                                    (if is_empty gap then EmptyString else " ") +:+ t) :: rest
                               | None => rest
                               end)
                   end) props;
      Return (Some (wrap_members "{" "}" gap inner indent partial))
  end.

(** The members of an object that have a text, each written [key: text]:
    a member whose value has none ([undefined]) is left out. *)
Definition member_texts (colon : string) (props : list (string * value))
    (parts : list (option string)) : list string :=
  omap (fun m => (fun t => quote (fst (fst m)) +:+ colon +:+ t) <$> snd m) (zip props parts).

(** [JSON.stringify(v)] *)
Definition JSON_stringify (v : value) : outcome (option string) :=
  serialize_property EmptyString EmptyString v.

(** [JSON.stringify(v, null, 2)] *)
Definition JSON_stringify_2 (v : value) : outcome (option string) :=
  serialize_property "  " EmptyString v.

(** Whether a BigInt sits anywhere inside a value. *)
Fixpoint holds_bigint (v : value) : bool :=
  match v with
  | VBigInt _ => true
  | VArray items => existsb holds_bigint items
  | VObject props => existsb (fun kv => holds_bigint (snd kv)) props
  | _ => false
  end.

(** [s.repeat(n)] for a one-character string. *)
Definition repeat_char (c : ascii) (n : nat) : string :=
  String.string_of_list_ascii (repeat c n).

(** A possibly [undefined] string inside a template literal. *)
Definition interpolate (s : option string) : string := default "undefined" s.

(** *** Reading a string literal back *)

Definition hex_value (c : ascii) : option N :=
  let n := N_of_ascii c in
  if ((48 <=? n) && (n <=? 57))%N then Some (n - 48)%N
  else if ((97 <=? n) && (n <=? 102))%N then Some (n - 87)%N
  else None.

(** The code unit an escape letter stands for, among the escapes
    [JSON.stringify] writes. *)
Definition escaped (e : ascii) : option ascii :=
  let n := N_of_ascii e in
  if (n =? 98)%N then Some (ascii_of_N 8)
  else if (n =? 116)%N then Some (ascii_of_N 9)
  else if (n =? 110)%N then Some (ascii_of_N 10)
  else if (n =? 102)%N then Some (ascii_of_N 12)
  else if (n =? 114)%N then Some (ascii_of_N 13)
  else if (n =? 34)%N then Some (ascii_of_N 34)
  else if (n =? 92)%N then Some (ascii_of_N 92)
  else None.

(** What JavaScript reads between the quotes of a double-quoted literal:
    a backslash starts an escape; a bare double quote would end the literal
    and a raw line break is not allowed in one, so both are refused, as is
    every other raw control character and every escape [JSON.stringify] does
    not write. *)
Fixpoint unquote_body (s : string) : option string :=
  match s with
  | EmptyString => Some EmptyString
  | String c r =>
      if (N_of_ascii c =? 92)%N then
        match r with
        | String e r' =>
            if (N_of_ascii e =? 117)%N then
              match r' with
              | String z1 (String z2 (String h1 (String h2 r''))) =>
                  match hex_value h1, hex_value h2 with
                  | Some a, Some b =>
                      if (N_of_ascii z1 =? 48)%N && (N_of_ascii z2 =? 48)%N
                      then option_map (String (ascii_of_N (16 * a + b))) (unquote_body r'')
                      else None
                  | _, _ => None
                  end
              | _ => None
              end
            else
              match escaped e with
              | Some x => option_map (String x) (unquote_body r')
              | None => None
              end
        | EmptyString => None
        end
      else if (N_of_ascii c =? 34)%N || (N_of_ascii c <? 32)%N then None
      else option_map (String c) (unquote_body r)
  end.

(** *** Case and scanning *)

(** [toLowerCase] on one code unit below 256: the letters A to Z and the
    accented capitals of Latin-1. *)
Definition lower_char (c : ascii) : ascii :=
  let n := N_of_ascii c in
  if ((65 <=? n) && (n <=? 90) || (192 <=? n) && (n <=? 222) && negb (n =? 215))%N
  then ascii_of_N (n + 32)
  else c.

(** [s.toLowerCase()] *)
Fixpoint toLowerCase (s : string) : string :=
  match s with
  | EmptyString => EmptyString
  | String c r => String (lower_char c) (toLowerCase r)
  end.

(** The longest prefix of [s] whose code units satisfy [p], and what follows:
    a greedy character class. *)
Fixpoint span (p : ascii -> bool) (s : string) : string * string :=
  match s with
  | EmptyString => (EmptyString, EmptyString)
  | String c r =>
      if p c then (String c (fst (span p r)), snd (span p r))
      else (EmptyString, s)
  end.

(** The one-character strings of [s]: what iterating a string yields. *)
Definition chars (s : string) : list value :=
  map (fun c => VString (String c EmptyString)) (String.list_ascii_of_string s).

End Js.

Import Js.

(** ** src/truncate.ts *)

Module Truncate.

Definition CHARS_PER_TOKEN : Z := 4.
Definition MAX_TOKENS : Z := 6000.
Definition MAX_CHARS : Z := MAX_TOKENS * CHARS_PER_TOKEN.

(** [text.length] *)
Definition str_length (s : string) : Z := Z.of_nat (String.length s).

(** [Math.ceil(a / b)] for [0 <= a] and [0 < b]. *)
Definition ceil_div (a b : Z) : Z := (a + (b - 1)) / b.

(** The lines appended to a truncated response. *)
Definition marker (estimatedTokens : Z) : string :=
  nl +:+ nl +:+ "--- TRUNCATED ---" +:+ nl +:+
  "Response was ~" +:+ toLocaleString estimatedTokens +:+
  " tokens (limit: " +:+ toLocaleString MAX_TOKENS +:+
  "). Use more specific queries to reduce response size.".

(** [typeof content === "string" ? content : JSON.stringify(content, null, 2)];
    [None] when [JSON.stringify] answers [undefined]. *)
Definition serialized (content : value) : outcome (option string) :=
  match content with
  | VString s => Return (Some s)
  | _ => JSON_stringify_2 content
  end.

Definition truncateResponse (content : value) : outcome string :=
  text ← serialized content;
  match text with
  | None =>
      (* [text.length] on [undefined] *)
      Throw (new_TypeError "Cannot read properties of undefined (reading 'length')")
  | Some text =>
      if str_length text <=? MAX_CHARS then Return text
      else
        let truncated := slice0 (Z.to_nat MAX_CHARS) text in
        let estimatedTokens := ceil_div (str_length text) CHARS_PER_TOKEN in
        Return (truncated +:+ marker estimatedTokens)
  end.

End Truncate.

(** ** src/executor.ts *)

Module Executor.

(** *** The HTTP boundary *)

(** What [fetch] is called with.  The WHATWG URL parser and serializer are not
    modelled: the target is kept as the text handed to [new URL] together with
    the search parameters set afterwards. *)
Record FetchCall : Type := {
  target : string;
  searchParams : list (string * string);
  method : value;
  headers : list (string * value);
  body : value;
}.

(** What [fetch] answers.  [json] is what [response.json()] yields for
    [text]; JSON parsing itself is not modelled. *)
Record Response : Type := {
  status : Z;
  content_type : option string;
  text : string;
  json : outcome value;
}.

(** [response.ok] *)
Definition ok (r : Response) : bool := (200 <=? status r) && (status r <=? 299).

(** The network: [fetch] resolves with a response or rejects. *)
Definition Fetch : Type := FetchCall -> outcome Response.

(** [response.headers.get("content-type")], or the empty string when the
    header is absent. *)
Definition header_or_empty (h : option string) : string := default EmptyString h.

(** [url.searchParams.set(key, value)] *)
Fixpoint params_set (params : list (string * string)) (key val : string) :
    list (string * string) :=
  match params with
  | [] => [(key, val)]
  | (k, v) :: rest =>
      if String.eqb k key
      then (key, val) :: List.filter (fun kv => negb (String.eqb (fst kv) key)) rest
      else (k, v) :: params_set rest key val
  end.

(** [xs.map(f)] for a callback that builds strings. *)
Definition array_map (what : string) (xs : value) (f : value -> outcome string) :
    outcome (list string) :=
  match xs with
  | VArray items => mapM f items
  | VUndefined | VNull =>
      Throw (new_TypeError ("Cannot read properties of " +:+ to_string xs +:+
                            " (reading 'map')"))
  | _ => Throw (new_TypeError (what +:+ ".map is not a function"))
  end.

(** [e => e.code + ": " + e.message] *)
Definition error_line (e : value) : outcome string :=
  code ← member e "code";
  message ← member e "message";
  Return (to_string code +:+ ": " +:+ to_string message).

(** [data.errors.map(e => e.code + ": " + e.message).join(", ")] *)
Definition error_summary (data : value) : outcome string :=
  errors ← member data "errors";
  ls ← array_map "data.errors" errors error_line;
  Return (join ", " ls).

(** *** The injected module, as text *)

(** A string literal inside the module's source. *)
Definition lit (s : string) : string := dq +:+ s +:+ dq.

(** The template of ["worker.js"] up to the first interpolation. *)
Definition worker_js_head : string := lines [
  EmptyString;
  "import { WorkerEntrypoint } from " +:+ lit "cloudflare:workers" +:+ ";";
  EmptyString;
  "const apiBase = " ].

(** From the second interpolation to the caller's code. *)
Definition worker_js_class : string := lines [
  ";";
  EmptyString;
  "export default class CodeExecutor extends WorkerEntrypoint {";
  "  async evaluate(apiToken) {";
  "    const cloudflare = {";
  "      async request(options) {";
  "        const { method, path, query, body, contentType, rawBody } = options;";
  EmptyString;
  "        const url = new URL(apiBase + path);";
  "        if (query) {";
  "          for (const [key, value] of Object.entries(query)) {";
  "            if (value !== undefined) {";
  "              url.searchParams.set(key, String(value));";
  "            }";
  "          }";
  "        }";
  EmptyString;
  "        const headers = {";
  "          " +:+ lit "Authorization" +:+ ": " +:+ lit "Bearer " +:+ " + apiToken,";
  "        };";
  EmptyString;
  "        if (contentType) {";
  "          headers[" +:+ lit "Content-Type" +:+ "] = contentType;";
  "        } else if (body && !rawBody) {";
  "          headers[" +:+ lit "Content-Type" +:+ "] = " +:+ lit "application/json" +:+ ";";
  "        }";
  EmptyString;
  "        let requestBody;";
  "        if (rawBody) {";
  "          requestBody = body;";
  "        } else if (body) {";
  "          requestBody = JSON.stringify(body);";
  "        }";
  EmptyString;
  "        const response = await fetch(url.toString(), {";
  "          method,";
  "          headers,";
  "          body: requestBody,";
  "        });";
  EmptyString;
  "        const responseContentType = response.headers.get(" +:+ lit "content-type" +:+
    ") || " +:+ lit EmptyString +:+ ";";
  EmptyString;
  "        // Handle non-JSON responses (e.g., KV values)";
  "        if (!responseContentType.includes(" +:+ lit "application/json" +:+ ")) {";
  "          const text = await response.text();";
  "          if (!response.ok) {";
  "            throw new Error(" +:+ lit "Cloudflare API error: " +:+ " + response.status + " +:+
    lit " " +:+ " + text);";
  "          }";
  "          return { success: true, result: text };";
  "        }";
  EmptyString;
  "        const data = await response.json();";
  EmptyString;
  "        if (!data.success) {";
  "          const errors = data.errors.map(e => e.code + " +:+ lit ": " +:+
    " + e.message).join(" +:+ lit ", " +:+ ");";
  "          throw new Error(" +:+ lit "Cloudflare API error: " +:+ " + errors);";
  "        }";
  EmptyString;
  "        return data;";
  "      }";
  "    };";
  EmptyString;
  "    try {";
  "      const result = await (" ].

(** After the caller's code. *)
Definition worker_js_tail : string := lines [
  ")();";
  "      return { result, err: undefined };";
  "    } catch (err) {";
  "      return { result: undefined, err: err.message, stack: err.stack };";
  "    }";
  "  }";
  "}";
  "        " ].

(** The template literal with its three interpolations:
    [JSON.stringify(apiBase)], [JSON.stringify(accountId)] and [code]. *)
Definition worker_js (apiBase : string) (accountId : value) (code : string) :
    outcome string :=
  base ← JSON_stringify (VString apiBase);
  account ← JSON_stringify accountId;
  Return (worker_js_head +:+ interpolate base +:+ ";" +:+ nl +:+
          "const accountId = " +:+ interpolate account +:+
          worker_js_class +:+ code +:+ worker_js_tail).

(** The build recipe handed to the loader. *)
Record WorkerCode : Type := {
  compatibilityDate : string;
  compatibilityFlags : list string;
  mainModule : string;
  modules : list (string * string);
}.

(** The callback given to [env.LOADER.get]. *)
Definition workerCode (apiBase : string) (accountId : value) (code : string) :
    outcome WorkerCode :=
  source ← worker_js apiBase accountId code;
  Return {| compatibilityDate := "2026-01-12";
            compatibilityFlags := ["nodejs_compat"];
            mainModule := "worker.js";
            modules := [("worker.js", source)] |}.

(** *** The injected module, as behaviour

    The same lines of the template, read as the program the execution unit
    runs. *)

(** [const { method, path, ... } = options] *)
Definition destructure (options : value) : outcome value :=
  match options with
  | VUndefined | VNull =>
      Throw (new_TypeError ("Cannot destructure property 'method' of 'options' as it is " +:+
                            to_string options +:+ "."))
  | _ => Return options
  end.

(** The loop over [Object.entries(query)]. *)
Definition query_params (query : value) : list (string * string) :=
  if truthy query then
    foldl (fun params kv =>
             match snd kv with
             | VUndefined => params
             | v => params_set params (fst kv) (to_string v)
             end) [] (entries query)
  else [].

Definition request_headers (apiToken : string) (body contentType rawBody : value) :
    list (string * value) :=
  let headers := [("Authorization", VString ("Bearer " +:+ apiToken))] in
  if truthy contentType then headers ++ [("Content-Type", contentType)]
  else if truthy body && negb (truthy rawBody)
       then headers ++ [("Content-Type", VString "application/json")]
       else headers.

Definition request_body (body rawBody : value) : outcome value :=
  if truthy rawBody then Return body
  else if truthy body then
    str ← JSON_stringify body;
    Return (match str with Some t => VString t | None => VUndefined end)
  else Return VUndefined.

(** The part of [request] that runs once [fetch] has answered. *)
Definition handle_response (response : Response) : outcome value :=
  let responseContentType := header_or_empty (content_type response) in
  if negb (includes responseContentType "application/json") then
    let text := text response in
    if negb (ok response) then
      Throw (new_Error ("Cloudflare API error: " +:+ number_to_string (status response) +:+
                        " " +:+ text))
    else Return (VObject [("success", VBool true); ("result", VString text)])
  else
    data ← json response;
    success ← member data "success";
    if negb (truthy success) then
      errors ← error_summary data;
      Throw (new_Error ("Cloudflare API error: " +:+ errors))
    else Return data.

(** The call [request] makes: [fetch(url.toString(), { method, headers, body })]. *)
Definition fetch_call (apiBase apiToken : string) (opts requestBody : value) : FetchCall :=
  let method := get_prop opts "method" in
  let path := get_prop opts "path" in
  let query := get_prop opts "query" in
  let body := get_prop opts "body" in
  let contentType := get_prop opts "contentType" in
  let rawBody := get_prop opts "rawBody" in
  {| target := apiBase +:+ to_string path;
     searchParams := query_params query;
     method := method;
     headers := request_headers apiToken body contentType rawBody;
     body := requestBody |}.

(** [new URL(text)].  The parser of the URL standard is outside the model:
    the constructor is given by whether it accepts a text or throws. *)
Definition URL_constructor : Type := string -> outcome unit.

(** [cloudflare.request(options)], line by line, over the URL constructor and
    the [fetch] it calls. *)
Definition request_with (new_URL : URL_constructor) (fetch : Fetch)
    (apiBase apiToken : string) (options : value) : outcome value :=
  opts ← destructure options;
  _ ← new_URL (apiBase +:+ to_string (get_prop opts "path"));
  requestBody ← request_body (get_prop opts "body") (get_prop opts "rawBody");
  response ← fetch (fetch_call apiBase apiToken opts requestBody);
  handle_response response.

(** [cloudflare.request(options)] where [apiBase + path] is a URL: the
    constructor accepts it. *)
Definition request (fetch : Fetch) (apiBase apiToken : string) (options : value) :
    outcome value :=
  request_with (fun _ => Return ()) fetch apiBase apiToken options.

(** What the caller's code can reach from inside [evaluate]. *)
Record Scope : Type := {
  cloudflare_request : value -> outcome value;
  scope_apiBase : string;
  scope_accountId : value;
  scope_apiToken : string;
}.

(** The caller's code, [(${code})()], as the computation it denotes in that
    scope.  Evaluating JavaScript source text is outside the embedding. *)
Definition Script : Type := Scope -> outcome value.

(** What [evaluate] hands back across the isolation boundary.  The third
    field of the source, [stack], is the engine's trace text; the gateway
    never reads it and it is left out. *)
Record Collected : Type := {
  result : value;
  err : value;
}.

(** [err.message] in the [catch] clause. *)
Definition thrown_message (e : thrown) : outcome value :=
  match e with
  | ErrorObj _ m => Return (VString m)
  | NonError v => member v "message"
  end.

(** The bindings in force where the caller's code runs: the [cloudflare]
    object, the two module constants and the parameter of [evaluate]. *)
Definition unit_scope (fetch : Fetch) (apiBase : string) (accountId : value)
    (apiToken : string) : Scope :=
  {| cloudflare_request := request fetch apiBase apiToken;
     scope_apiBase := apiBase;
     scope_accountId := accountId;
     scope_apiToken := apiToken |}.

(** [CodeExecutor.evaluate(apiToken)] *)
Definition evaluate (script : Script) (fetch : Fetch) (apiBase : string)
    (accountId : value) (apiToken : string) : outcome Collected :=
  try_catch
    (result ← script (unit_scope fetch apiBase accountId apiToken);
     Return {| result := result; err := VUndefined |})
    (fun e =>
       message ← thrown_message e;
       Return {| result := VUndefined; err := message |}).

(** *** The gateway *)

(** The entry operation of a provisioned unit. *)
Definition Entrypoint : Type := string -> outcome Collected.

(** [env.LOADER.get(workerId, callback)] followed by [getEntrypoint()]. *)
Definition Loader : Type := string -> outcome WorkerCode -> Entrypoint.

(** Everything one call of the gateway hands to the provisioning capability:
    the identity and recipe given to [LOADER.get], and the argument of
    [evaluate]. *)
Record Provisioning : Type := {
  workerId : string;
  recipe : outcome WorkerCode;
  evaluate_arg : string;
}.

(** [uuid] is [crypto.randomUUID()]. *)
Definition provisioning (apiBase uuid code : string) (accountId : value)
    (apiToken : string) : Provisioning :=
  {| workerId := "cloudflare-api-" +:+ uuid;
     recipe := workerCode apiBase accountId code;
     evaluate_arg := apiToken |}.

(** [if (response.err) throw new Error(response.err); return response.result] *)
Definition collect (response : Collected) : outcome value :=
  if truthy (err response) then Throw (new_Error (to_string (err response)))
  else Return (result response).

(** The function [createCodeExecutor(env)] returns; [apiBase] is
    [env.CLOUDFLARE_API_BASE] and [LOADER] is [env.LOADER]. *)
Definition executeCode (LOADER : Loader) (apiBase uuid : string)
    (code : string) (accountId : value) (apiToken : string) : outcome value :=
  let p := provisioning apiBase uuid code accountId apiToken in
  response ← LOADER (workerId p) (recipe p) (evaluate_arg p);
  collect response.

(** A loader that runs the module it is given: the unit built from the recipe
    of [code] behaves as [evaluate] on what [code] denotes. *)
Definition runs (LOADER : Loader) (fetch : Fetch) (apiBase uuid code : string)
    (accountId : value) (script : Script) : Prop :=
  LOADER ("cloudflare-api-" +:+ uuid) (workerCode apiBase accountId code)
    = evaluate script fetch apiBase accountId.

(** *** The search variant: [createSearchExecutor] *)

(** The template of the search unit up to [${specJson}]. *)
Definition search_js_head : string := lines [
  EmptyString;
  "import { WorkerEntrypoint } from " +:+ lit "cloudflare:workers" +:+ ";";
  EmptyString;
  "const spec = " ].

(** From there to the caller's code; what follows the code is the same text
    as in the API unit, [worker_js_tail]. *)
Definition search_js_class : string := lines [
  ";";
  EmptyString;
  "export default class SearchExecutor extends WorkerEntrypoint {";
  "  async evaluate() {";
  "    try {";
  "      const result = await (" ].

(** [specJson] is [JSON.stringify(spec)], computed once when the executor is
    created. *)
Definition search_worker_js (specJson code : string) : string :=
  search_js_head +:+ specJson +:+ search_js_class +:+ code +:+ worker_js_tail.

Definition searchWorkerCode (specJson code : string) : WorkerCode :=
  {| compatibilityDate := "2026-01-12";
     compatibilityFlags := ["nodejs_compat"];
     mainModule := "worker.js";
     modules := [("worker.js", search_worker_js specJson code)] |}.

(** The caller's code in the search unit: a computation over the [spec]
    constant, the only binding the module gives it. *)
Definition SearchScript : Type := value -> outcome value.

(** [SearchExecutor.evaluate()] *)
Definition evaluate_search (script : SearchScript) (spec : value) : outcome Collected :=
  try_catch
    (result ← script spec;
     Return {| result := result; err := VUndefined |})
    (fun e =>
       message ← thrown_message e;
       Return {| result := VUndefined; err := message |}).

(** [env.LOADER.get(workerId, callback)], [getEntrypoint()] and the call of
    [evaluate()], which takes no argument. *)
Definition SearchLoader : Type := string -> WorkerCode -> outcome Collected.

(** The function [createSearchExecutor(env)] returns. *)
Definition executeSearch (LOADER : SearchLoader) (specJson uuid : string) (code : string) :
    outcome value :=
  response ← LOADER ("cloudflare-search-" +:+ uuid) (searchWorkerCode specJson code);
  collect response.

End Executor.

(** ** The server: account resolution and the [execute] tool *)

Module Server.
Import Executor.

(** [fetch(`${apiBase}/accounts`, { method: "GET", headers: { Authorization } })] *)
Definition accounts_call (apiBase apiToken : string) : FetchCall :=
  {| target := apiBase +:+ "/accounts";
     searchParams := [];
     method := VString "GET";
     headers := [("Authorization", VString ("Bearer " +:+ apiToken))];
     body := VUndefined |}.

(** One entry of the list in the ambiguous-account message:
    the account's id, or [unknown], then its name, if any, in parentheses. *)
Definition candidate (account : value) : outcome string :=
  id ← member account "id";
  name ← member account "name";
  Return (to_string (nullish_or id (VString "unknown")) +:+ " (" +:+
          to_string (nullish_or name (VString EmptyString)) +:+ ")").

(** [resolveAccountId(apiBase, apiToken)] *)
Definition resolveAccountId (fetch : Fetch) (apiBase apiToken : string) : outcome value :=
  response ← fetch (accounts_call apiBase apiToken);
  let contentType := header_or_empty (content_type response) in
  if negb (includes contentType "application/json") then
    Throw (new_Error ("Cloudflare API error: " +:+ number_to_string (status response) +:+
                      " " +:+ text response))
  else
    data ← json response;
    success ← member data "success";
    if negb (truthy success) then
      errors ← error_summary data;
      Throw (new_Error ("Cloudflare API error: " +:+ errors))
    else
      match get_prop data "result" with
      | VArray accounts =>
          if Nat.eqb (length accounts) 0 then
            Throw (new_Error "No Cloudflare accounts found for this token.")
          else
            let first := default VUndefined (accounts !! 0%nat) in
            if Nat.eqb (length accounts) 1 && truthy (get_prop first "id")
            then Return (get_prop first "id")
            else
              accountSummary ← mapM candidate (take 5 accounts);
              Throw (new_Error
                       ("Multiple Cloudflare accounts found. Provide account_id to select one. "
                        +:+ "Found: " +:+ join ", " accountSummary))
      | _ =>
          (* [!Array.isArray(data.result)] *)
          Throw (new_Error "No Cloudflare accounts found for this token.")
      end.

(** [formatError(error)] *)
Definition formatError (error : thrown) : string :=
  match error with
  | ErrorObj _ message => message
  | NonError v => to_string v
  end.

(** What a tool handler returns: the text of its single content item and the
    error flag ([false] when the source leaves [isError] out). *)
Record ToolResult : Type := {
  content_text : string;
  isError : bool;
}.

(** The [try]/[catch] both [execute] handlers share. *)
Definition tool_boundary (run : outcome string) : ToolResult :=
  match run with
  | Return t => {| content_text := t; isError := false |}
  | Throw error => {| content_text := "Error: " +:+ formatError error; isError := true |}
  end.

(** The handler registered in account-token mode. *)
Definition execute_account_token (LOADER : Loader) (apiBase uuid apiToken : string)
    (accountId : string) (code : string) : ToolResult :=
  tool_boundary
    (result ← executeCode LOADER apiBase uuid code (VString accountId) apiToken;
     Truncate.truncateResponse result).

(** The handler registered in user-token mode; [account_id] is the optional
    tool argument. *)
Definition execute_user_token (fetch : Fetch) (LOADER : Loader)
    (apiBase uuid apiToken : string) (code : string) (account_id : option string) :
    ToolResult :=
  tool_boundary
    (resolvedAccountId ←
       match account_id with
       | Some a => Return (VString a)
       | None =>
           if truthy (VString apiBase) then resolveAccountId fetch apiBase apiToken
           else Return VUndefined
       end;
     if negb (truthy resolvedAccountId) then
       Throw (new_Error "Cloudflare API base is missing; provide account_id explicitly.")
     else
       result ← executeCode LOADER apiBase uuid code resolvedAccountId apiToken;
       Truncate.truncateResponse result).

(** The [execute] tool of [createServer(env, apiToken, accountId)]: which
    handler is registered depends on [if (accountId)]. *)
Definition execute (fetch : Fetch) (LOADER : Loader) (apiBase apiToken : string)
    (accountId : option string) (uuid code : string) (account_id : option string) :
    ToolResult :=
  match accountId with
  | Some (String _ _ as fixed) => execute_account_token LOADER apiBase uuid apiToken fixed code
  | _ => execute_user_token fetch LOADER apiBase uuid apiToken code account_id
  end.

(** The handler of the [search] tool. *)
Definition search (LOADER : SearchLoader) (specJson uuid : string) (code : string) :
    ToolResult :=
  tool_boundary
    (result ← executeSearch LOADER specJson uuid code;
     Truncate.truncateResponse result).

End Server.

(** ** scripts/build-spec.ts: the reference resolver *)

Module BuildSpec.

(** [ref.replace('#/', '').split('/')] *)
Definition pointer_parts (ref : string) : list string :=
  split_on "/" (replace_first "#/" EmptyString ref).

(** [for (const part of parts) resolved = resolved?.[part]] *)
Definition walk (spec : value) (parts : list string) : value :=
  foldl get_prop spec parts.

(** Whether the reads of [walk] are settled by the document: every part
    names an own property of the value reached so far, or that value is
    [null] or [undefined].  The target is [walk spec parts] then; a part that
    is no own property sends JavaScript to the built-in prototypes, out of
    the document. *)
Fixpoint settled (v : value) (parts : list string) : bool :=
  match parts with
  | [] => true
  | part :: rest => reads_own v part && settled (get_prop v part) rest
  end.

(** [{ $circular: ref }] *)
Definition circular (ref : string) : value := VObject [("$circular", VString ref)].

(** A reference node, [{ $ref: ref }]. *)
Definition pointer (ref : string) : value := VObject [("$ref", VString ref)].

(** [result[key] = value] on an object that starts as [{}], among the
    properties the other assignments make: the key ["__proto__"] is the
    accessor of [Object.prototype], assigning to it sets the prototype (or
    does nothing, for a value that is no object) and makes no own property;
    every other key becomes an own property. *)
Definition assigned (key : string) (v : value) (others : list (string * value)) :
    list (string * value) :=
  if String.eqb key "__proto__" then others else (key, v) :: others.

Section Threading.

(** A visit of one value: the resolved value and the set as the visit left
    it, or [None] when the fuel ran out. *)
Variable visit : value -> gset string -> option (value * gset string).

(** [obj.map(item => resolveRefs(item, spec, seen))]: the items in order,
    each seeing the set as its predecessors left it. *)
Fixpoint each_item (items : list value) (seen : gset string) :
    option (list value * gset string) :=
  match items with
  | [] => Some ([], seen)
  | item :: rest =>
      '(item', seen1) ← visit item seen;
      '(rest', seen2) ← each_item rest seen1;
      Some (item' :: rest', seen2)
  end.

(** [for (const [key, value] of Object.entries(record)) result[key] = ...]:
    every value is visited, in order; the properties of [result] are those
    the assignments made. *)
Fixpoint each_field (record : list (string * value)) (seen : gset string) :
    option (list (string * value) * gset string) :=
  match record with
  | [] => Some ([], seen)
  | (key, val) :: rest =>
      '(val', seen1) ← visit val seen;
      '(rest', seen2) ← each_field rest seen1;
      Some (assigned key val' rest', seen2)
  end.

End Threading.

(** [resolveRefs(obj, spec, seen)].  [seen] is the one mutable [Set] every
    recursive call receives: it is threaded through, and returned, as state.
    Following a pointer re-enters the function on a part of [spec], which is
    no part of [obj]; [fuel] counts those steps, the rest of the recursion is
    structural.  [None] means the fuel ran out. *)
Fixpoint resolveRefs (fuel : nat) (spec : value) (obj : value) (seen : gset string)
    {struct fuel} : option (value * gset string) :=
  match fuel with
  | O => None
  | S fuel' =>
      (fix visit (obj : value) (seen : gset string) {struct obj} :
           option (value * gset string) :=
         match obj with
         | VArray items =>
             '(items', seen') ← each_item visit items seen;
             Some (VArray items', seen')
         | VObject record =>
             match own_prop record "$ref" with
             | Some (VString ref) =>
                 if decide (ref ∈ seen) then Some (circular ref, seen)
                 else resolveRefs fuel' spec (walk spec (pointer_parts ref)) ({[ref]} ∪ seen)
             | _ =>
                 '(result, seen') ← each_field visit record seen;
                 Some (VObject result, seen')
             end
         | _ => Some (obj, seen)
         end) obj seen
  end.

(** The pointer a property holds when it is a ["$ref"] with a string. *)
Definition pointer_of (key : string) (x : value) : gset string :=
  match x with
  | VString s => if String.eqb key "$ref" then {[s]} else ∅
  | _ => ∅
  end.

(** Every pointer string a document holds under a ["$ref"] key. *)
Fixpoint refs_in (v : value) : gset string :=
  match v with
  | VArray items => ⋃ (map refs_in items)
  | VObject props =>
      ⋃ (map (fun kv => pointer_of (fst kv) (snd kv) ∪ refs_in (snd kv)) props)
  | _ => ∅
  end.

(** What it means for a visit to answer from a set [seen] that leaves fewer
    than [budget] pointers of [U] unseen. *)
Definition answers (U : gset string) (budget : nat)
    (visit : value -> gset string -> option (value * gset string)) (x : value) : Prop :=
  forall seen, (size (U ∖ seen) < budget)%nat ->
    exists r seen', visit x seen = Some (r, seen') /\ seen ⊆ seen'.

(** A visit that only adds pointers of [U] to the set it is given. *)
Definition grows (U : gset string)
    (visit : value -> gset string -> option (value * gset string)) (x : value) : Prop :=
  forall seen r seen', visit x seen = Some (r, seen') -> seen ⊆ seen' /\ seen' ⊆ seen ∪ U.

(** [v] under [n] objects that have the one property [key]. *)
Fixpoint nested (key : string) (n : nat) (v : value) : value :=
  match n with
  | O => v
  | S m => VObject [(key, nested key m v)]
  end.

(** A chain of references in [spec]: the target of each pointer of the list
    is an object whose one property, [key], is a reference to the next
    pointer, and to [back] for the last one. *)
Fixpoint chain (spec : value) (key back : string) (refs : list string) : Prop :=
  match refs with
  | [] => True
  | ref :: rest =>
      walk spec (pointer_parts ref) = VObject [(key, pointer (hd back rest))] /\
      chain spec key back rest
  end.

(** The copy of a document that [result[key] = ...] makes, property by
    property: the document without the properties named ["__proto__"]. *)
Fixpoint copied (v : value) : value :=
  match v with
  | VArray items => VArray (map copied items)
  | VObject props =>
      VObject ((fix fields (l : list (string * value)) : list (string * value) :=
                  match l with
                  | [] => []
                  | (k, x) :: r => assigned k (copied x) (fields r)
                  end) props)
  | _ => v
  end.

(** Whether some object inside a value has a property named ["__proto__"]. *)
Fixpoint holds_proto_key (v : value) : bool :=
  match v with
  | VArray items => existsb holds_proto_key items
  | VObject props =>
      existsb (fun kv => String.eqb (fst kv) "__proto__" || holds_proto_key (snd kv)) props
  | _ => false
  end.

(** Pointer steps that always suffice: one more than the number of distinct
    pointers in sight. *)
Definition enough_fuel (spec obj : value) : nat :=
  S (size (refs_in spec ∪ refs_in obj)).

(** A top-level call, [resolveRefs(obj, spec)]: a fresh [seen]. *)
Definition resolve (obj spec : value) : option value :=
  fst <$> resolveRefs (enough_fuel spec obj) spec obj ∅.

(** *** Products, tags and the generated index *)

Definition not_brace (c : ascii) : bool := negb (Ascii.eqb c "}"%char).
Definition not_slash (c : ascii) : bool := negb (Ascii.eqb c "/"%char).

(** The expression [opening [^}]+ \} \/ ([^/]+)] matched at the very start of
    [s], where [opening] is the literal text in front of the first class.
    Both classes are greedy; neither can give back a character that the
    token after it would accept, so the greedy reading is the only one. *)
Definition product_here (opening s : string) : option string :=
  if starts_with opening s then
    let after := span not_brace (drop_chars (String.length opening) s) in
    if is_empty (fst after) then None
    else if starts_with "}/" (snd after) then
      let product := fst (span not_slash (drop_chars 2 (snd after))) in
      if is_empty product then None else Some product
    else None
  else None.

(** [path.match(re)]: the leftmost position where the expression matches;
    the answer is its capture group. *)
Fixpoint first_product (opening s : string) : option string :=
  match product_here opening s with
  | Some product => Some product
  | None =>
      match s with
      | EmptyString => None
      | String _ rest => first_product opening rest
      end
  end.

Definition extractProduct (path : string) : option string :=
  match first_product "/accounts/{" path with
  | Some product => Some product
  | None => first_product "/zones/{" path
  end.

Definition HTTP_METHODS : list string := ["get"; "post"; "put"; "patch"; "delete"].

(** [path.split("/").filter(Boolean)[0] || "root"] *)
Definition category_of (path : string) : string :=
  match List.filter (fun part => negb (is_empty part)) (split_on "/" path) with
  | [] => "root"
  | part :: _ => if is_empty part then "root" else part
  end.

(** [op.tags ? [...op.tags] : []].  Spreading a value that is not iterable
    is a TypeError. *)
Definition spread_tags (tags : value) : outcome (list value) :=
  if truthy tags then
    match tags with
    | VArray items => Return items
    | VString s => Return (chars s)
    | _ => Throw (new_TypeError "op.tags is not iterable")
    end
  else Return [].

(** [t => t.toLowerCase() === product.toLowerCase()] *)
Definition tag_is (product : string) (t : value) : outcome bool :=
  match t with
  | VString s => Return (String.eqb (toLowerCase s) (toLowerCase product))
  | VUndefined | VNull =>
      Throw (new_TypeError ("Cannot read properties of " +:+ to_string t +:+
                            " (reading 'toLowerCase')"))
  | _ => Throw (new_TypeError "t.toLowerCase is not a function")
  end.

(** [tags.some(t => ...)]: stops at the first tag that matches. *)
Fixpoint some_tag (product : string) (tags : list value) : outcome bool :=
  match tags with
  | [] => Return false
  | t :: rest =>
      found ← tag_is product t;
      if (found : bool) then Return true else some_tag product rest
  end.

(** Two tags that read the same once in lower case. *)
Definition same_tag (product t : string) : bool :=
  String.eqb (toLowerCase t) (toLowerCase product).

(** The tags of an operation as [generateSpecFile] and [main] build them:
    the product of the path is put in front unless a tag already spells it,
    whatever the case of its letters. *)
Definition product_tags (path : string) (tags : value) : outcome (list value) :=
  let product := extractProduct path in
  tags ← spread_tags tags;
  match product with
  | Some product =>
      found ← some_tag product tags;
      Return (if (found : bool) then tags else VString product :: tags)
  | None => Return tags
  end.

(** A call [resolveRefs(obj, spec)] as a value: [resolve] always answers
    (lemma [resolve_total]), the default is never taken. *)
Definition resolved (obj spec : value) : value := default VUndefined (resolve obj spec).

(** The record [generateSpecFile] stores under [paths[path][method]]. *)
Definition operation_entry (spec : value) (path : string) (op : value) : outcome value :=
  tags ← product_tags path (get_prop op "tags");
  Return (VObject [("summary", get_prop op "summary");
                   ("description", get_prop op "description");
                   ("tags", VArray tags);
                   ("parameters", resolved (get_prop op "parameters") spec);
                   ("requestBody", resolved (get_prop op "requestBody") spec);
                   ("responses", resolved (get_prop op "responses") spec)]).

(** [for (const method of HTTP_METHODS) { const op = pathItem[method]; if (op) ... }] *)
Fixpoint operations_of (spec : value) (path : string) (pathItem : value)
    (methods : list string) : outcome (list (string * value)) :=
  match methods with
  | [] => Return []
  | method :: rest =>
      let op := get_prop pathItem method in
      if truthy op then
        entry ← operation_entry spec path op;
        others ← operations_of spec path pathItem rest;
        Return ((method, entry) :: others)
      else operations_of spec path pathItem rest
  end.

(** The loop over [Object.entries(spec.paths || {})]; [paths[path] = {}]
    and the assignments into [paths[path]] leave [paths] with the property
    [path], unless [path] is ["__proto__"]. *)
Fixpoint paths_of (spec : value) (items : list (string * value)) :
    outcome (list (string * value)) :=
  match items with
  | [] => Return []
  | (path, pathItem) :: rest =>
      if truthy pathItem then
        operations ← operations_of spec path pathItem HTTP_METHODS;
        others ← paths_of spec rest;
        Return (assigned path (VObject operations) others)
      else paths_of spec rest
  end.

(** The object [generateSpecFile] prints: [{ paths }]. *)
Definition spec_index (spec : value) : outcome value :=
  declared ← member spec "paths";
  paths ← paths_of spec (entries (if truthy declared then declared else VObject []));
  Return (VObject [("paths", VObject paths)]).

(** [generateSpecFile(spec)]: [JSON.stringify({ paths }, null, 2)]. *)
Definition generateSpecFile (spec : value) : outcome (option string) :=
  index ← spec_index spec;
  JSON_stringify_2 index.

End BuildSpec.

(** * Properties *)

Import Truncate Executor Server BuildSpec.

(** ** The JavaScript fragment *)

Section JsFacts.

(** Induction over a value and, through arrays and objects, over its parts. *)
Lemma value_nested_ind (P : value -> Prop) :
  P VUndefined -> P VNull -> (forall b, P (VBool b)) -> (forall n, P (VNum n)) ->
  (forall n, P (VBigInt n)) -> (forall s, P (VString s)) ->
  (forall items, Forall P items -> P (VArray items)) ->
  (forall props, Forall (fun kv => P (snd kv)) props -> P (VObject props)) ->
  forall v, P v.
Proof.
  intros HU HN HB HNum HBig HS HA HO.
  fix IH 1. intros [ | | b | n | n | s | items | props].
  - exact HU.
  - exact HN.
  - apply HB.
  - apply HNum.
  - apply HBig.
  - apply HS.
  - apply HA. induction items as [|x xs IHxs]; constructor; [apply IH | exact IHxs].
  - apply HO. induction props as [|[k x] xs IHxs]; constructor; [apply IH | exact IHxs].
Qed.

Lemma outcome_bind_return {A B} (a : A) (k : A -> outcome B) :
  (x ← Return a; k x) = k a.
Proof. reflexivity. Qed.

Lemma outcome_bind_throw {A B} (e : thrown) (k : A -> outcome B) :
  (x ← Throw e; k x) = Throw e.
Proof. reflexivity. Qed.

Lemma starts_with_spec (prefix s : string) :
  starts_with prefix s = true <-> exists rest, s = prefix +:+ rest.
Proof.
  revert s. induction prefix as [|a p IH]; intros s; cbn.
  - split; [by exists s|done].
  - destruct s as [|b r]; [split; [done|by intros [rest Hrest]]|].
    destruct (Ascii.eqb_spec a b) as [->|Hab].
    + rewrite IH. split; intros [rest Hrest]; exists rest.
      * by rewrite Hrest.
      * by injection Hrest.
    + split; [done|]. intros [rest Hrest]. injection Hrest as Heq _. by destruct Hab.
Qed.

(** [includes] finds the needle exactly when it occurs somewhere. *)
Lemma includes_spec (haystack needle : string) :
  includes haystack needle = true
  <-> exists before after, haystack = before +:+ needle +:+ after.
Proof.
  induction haystack as [|c rest IH]; cbn [includes].
  - rewrite orb_false_r, starts_with_spec. split.
    + intros [after Hafter]. by exists EmptyString, after.
    + intros ([|b before] & after & Heq); [by exists after|discriminate Heq].
  - rewrite orb_true_iff, starts_with_spec, IH. split.
    + intros [[after Hafter]|(before & after & ->)].
      * by exists EmptyString, after.
      * by exists (String c before), after.
    + intros ([|b before] & after & Heq).
      * left. by exists after.
      * right. injection Heq as _ Heq. by exists before, after.
Qed.

Lemma slice0_length (n : nat) (s : string) :
  String.length (slice0 n s) = Nat.min n (String.length s).
Proof.
  revert s; induction n as [|n IH]; intros [|c r]; simpl; auto.
Qed.

(** [s.slice(0, n)] is a prefix of [s]. *)
Lemma slice0_prefix (n : nat) (s : string) :
  s = slice0 n s +:+ drop_chars n s.
Proof.
  revert s; induction n as [|n IH]; intros [|c r]; try reflexivity.
  change (String c r = String c (slice0 n r +:+ drop_chars n r)).
  f_equal. apply IH.
Qed.

Lemma uint_digits_no_comma (d : Decimal.uint) :
  forallb not_comma (String.list_ascii_of_string (NilEmpty.string_of_uint d)) = true.
Proof. induction d; simpl; auto. Qed.

Lemma decimal_no_comma (n : Z) :
  forallb not_comma (String.list_ascii_of_string (decimal n)) = true.
Proof.
  unfold decimal, NilZero.string_of_int, NilZero.string_of_uint.
  destruct (Z.to_int n) as [d|d]; destruct d; simpl; auto using uint_digits_no_comma.
Qed.

Lemma list_ascii_of_append (a b : string) :
  String.list_ascii_of_string (a +:+ b)
  = String.list_ascii_of_string a ++ String.list_ascii_of_string b.
Proof.
  induction a as [|c a IH]; [reflexivity|].
  change (c :: String.list_ascii_of_string (a +:+ b)
          = c :: (String.list_ascii_of_string a ++ String.list_ascii_of_string b)).
  by f_equal.
Qed.

Lemma zeros_no_comma (p : nat) :
  forallb not_comma (String.list_ascii_of_string (zeros p)) = true.
Proof.
  unfold zeros. rewrite String.list_ascii_of_string_of_list_ascii.
  induction p as [|p IH]; [reflexivity|exact IH].
Qed.

Lemma integer_digits_no_comma (x : Z) :
  forallb not_comma (String.list_ascii_of_string (integer_digits x)) = true.
Proof.
  unfold integer_digits. destruct (x <=? 2 ^ 53); [apply decimal_no_comma|].
  destruct (shortest x _) as [s p].
  rewrite list_ascii_of_append, forallb_app, decimal_no_comma, zeros_no_comma. reflexivity.
Qed.

Lemma filter_group3_rev (l : list ascii) :
  List.filter not_comma (group3_rev l) = List.filter not_comma l.
Proof.
  remember (length l) as m eqn:Hm.
  revert l Hm. induction (lt_wf m) as [m _ IH]. intros l ->.
  destruct l as [|a [|b [|c [|d rest]]]]; try reflexivity.
  change (group3_rev (a :: b :: c :: d :: rest))
    with (a :: b :: c :: ","%char :: group3_rev (d :: rest)).
  cbn [List.filter].
  rewrite (IH (length (d :: rest))); [|simpl; lia|reflexivity].
  reflexivity.
Qed.

Lemma filter_all {A} (p : A -> bool) (l : list A) :
  forallb p l = true -> List.filter p l = l.
Proof.
  induction l as [|x l IH]; simpl; [done|].
  intros [Hx Hl]%andb_prop. by rewrite Hx, IH.
Qed.

(** Grouping adds commas and nothing else. *)
Lemma ungroup_grouped (digits : string) :
  forallb not_comma (String.list_ascii_of_string digits) = true ->
  ungroup (grouped digits) = digits.
Proof.
  intros Hfree. unfold ungroup, grouped.
  rewrite String.list_ascii_of_string_of_list_ascii.
  rewrite <- (String.string_of_list_ascii_of_string digits) at 2.
  f_equal.
  rewrite List.filter_rev, filter_group3_rev, <- List.filter_rev, rev_involutive.
  by apply filter_all.
Qed.

(** The grouped numeral spells the same digits. *)
Lemma ungroup_toLocaleString (n : Z) :
  0 <= n -> ungroup (toLocaleString n) = integer_digits n.
Proof.
  intros Hn. unfold toLocaleString.
  destruct (Z.ltb_spec n 0); [lia|].
  apply ungroup_grouped, integer_digits_no_comma.
Qed.

(** Up to [2^53] in magnitude a number is printed as its decimal numeral. *)
Lemma number_to_string_exact (n : Z) :
  Z.abs n <= 2 ^ 53 -> number_to_string n = NilZero.string_of_int (Z.to_int n).
Proof.
  intros Hn. unfold number_to_string, unsigned_to_string.
  destruct (Z.ltb_spec n 0) as [Hneg|Hpos].
  - destruct (Z.leb_spec (- n) (2 ^ 53)); [|lia].
    destruct n as [|q|q]; try lia. reflexivity.
  - destruct (Z.leb_spec n (2 ^ 53)); [reflexivity|lia].
Qed.

Lemma integer_digits_exact (x : Z) :
  x <= 2 ^ 53 -> integer_digits x = NilZero.string_of_int (Z.to_int x).
Proof.
  intros Hx. unfold integer_digits. by destruct (Z.leb_spec x (2 ^ 53)); [|lia].
Qed.

(** A number beyond [2^53] reads back as itself. *)
Lemma rounds_to_self (x : Z) : 2 ^ 53 < x -> rounds_to x x = true.
Proof.
  intros Hx. unfold rounds_to.
  assert (53 <= Z.log2 x) as Hlog.
  { rewrite <- (Z.log2_pow2 53) by lia. apply Z.log2_le_mono. lia. }
  set (e := Z.log2 x - 52). assert (1 <= e) as He by (subst e; lia).
  assert (0 < 2 ^ (e - 1)) as Habove by (apply Z.pow_pos_nonneg; lia).
  assert (0 <= 2 ^ (e - 2)) as Hbelow by (apply Z.pow_nonneg; lia).
  destruct (Z.eqb_spec (x / 2 ^ e) (2 ^ 52)) as [-> | _].
  - change (Z.even (2 ^ 52)) with true. cbv iota. apply andb_true_intro. split; lia.
  - destruct (Z.even (x / 2 ^ e)); apply andb_true_intro; split; lia.
Qed.

Lemma shortest_unfold (x : Z) (p : nat) :
  shortest x p
  = let unit := 10 ^ Z.of_nat p in
    let down := x / unit * unit in
    let up := down + unit in
    let take_down := (0 <? down) && rounds_to x down in
    let take_up := rounds_to x up in
    let nearer_down :=
      (x - down <? up - x) || ((x - down =? up - x) && Z.even (down / unit)) in
    if take_down && (negb take_up || nearer_down) then (down / unit, p)
    else if take_up then (up / unit, p)
    else match p with
         | O => (x, O)
         | S p' => shortest x p'
         end.
Proof. by destruct p. Qed.

(** The numeral a large number is printed with reads back as that number. *)
Lemma shortest_reads_back (x : Z) (p : nat) :
  2 ^ 53 < x ->
  rounds_to x (fst (shortest x p) * 10 ^ Z.of_nat (snd (shortest x p))) = true.
Proof.
  intros Hx. induction p as [|p IH]; rewrite shortest_unfold; cbv zeta.
  all: set (unit := 10 ^ Z.of_nat _).
  all: assert (0 < unit) as Hunit by (apply Z.pow_pos_nonneg; lia).
  all: assert (x / unit * unit / unit * unit = x / unit * unit) as Hdown
         by (by rewrite Z.div_mul by lia).
  all: assert ((x / unit * unit + unit) / unit * unit = x / unit * unit + unit) as Hup
         by (replace (x / unit * unit + unit) with ((x / unit + 1) * unit) by lia;
             by rewrite Z.div_mul by lia).
  all: destruct (0 <? x / unit * unit); cbn [andb];
       destruct (rounds_to x (x / unit * unit)) eqn:Hd;
       destruct (rounds_to x (x / unit * unit + unit)) eqn:Hu; cbn [andb negb orb].
  all: repeat match goal with
         | |- context [if ?b then _ else _] => destruct b
         end; cbn [fst snd]; fold unit.
  all: rewrite ?Hdown, ?Hup; try done.
  all: try (rewrite Z.mul_1_r; by apply rounds_to_self).
Qed.

(** Numbers beyond [2^53]: the numeral is the shortest one, zeros make up
    the length, and from 22 digits on the exponent is written. *)
Lemma number_to_string_examples :
  map number_to_string
      [0; -7; 2 ^ 53; 2 ^ 53 + 2; 2 ^ 64; 10 ^ 21 - 131072; 10 ^ 21; 2 ^ 70;
       - 2 ^ 70; 99999999999999991611392; (2 ^ 53 - 1) * 2 ^ 971]
  = ["0"; "-7"; "9007199254740992"; "9007199254740994"; "18446744073709552000";
     "999999999999999900000"; "1e+21"; "1.1805916207174113e+21";
     "-1.1805916207174113e+21"; "1e+23"; "1.7976931348623157e+308"].
Proof. vm_compute. reflexivity. Qed.

(** What [JSON.stringify] does with a value: a BigInt anywhere inside makes it
    throw; otherwise it answers, and answers [undefined] for [undefined]
    only. *)
Lemma serialize_property_outcome (v : value) :
  forall gap indent,
    (holds_bigint v = true ->
       serialize_property gap indent v
       = Throw (new_TypeError "Do not know how to serialize a BigInt")) /\
    (holds_bigint v = false ->
       exists o, serialize_property gap indent v = Return o /\
                 (o = None <-> v = VUndefined)).
Proof.
  induction v as [ | | b | n | n | s | items IH | props IH] using value_nested_ind;
    intros gap indent; (split; [intros Hb | intros Hb]); try discriminate Hb.
  - by eexists.
  - eexists; split; [done|]. split; discriminate.
  - destruct b; (eexists; split; [done|]); split; discriminate.
  - eexists; split; [done|]. split; discriminate.
  - reflexivity.
  - eexists; split; [done|]. split; discriminate.
  - cbn [serialize_property]. cbn [holds_bigint] in Hb.
    set (inner := indent +:+ gap).
    assert ((fix elements (l : list value) : outcome (list string) :=
               match l with
               | [] => Return []
               | x :: r =>
                   str ← serialize_property gap inner x;
                   rest ← elements r;
                   Return (default "null" str :: rest)
               end) items
            = Throw (new_TypeError "Do not know how to serialize a BigInt")) as ->; [|done].
    induction IH as [|x xs Hx _ IHxs]; [discriminate Hb|].
    cbn [existsb] in Hb.
    destruct (holds_bigint x) eqn:Ex.
    + destruct (Hx gap inner) as [-> _]; done.
    + destruct (Hx gap inner) as [_ (o & -> & _)]; [done|].
      rewrite outcome_bind_return, IHxs; done.
  - cbn [serialize_property]. cbn [holds_bigint] in Hb.
    set (inner := indent +:+ gap).
    assert (exists l, (fix elements (l : list value) : outcome (list string) :=
                   match l with
                   | [] => Return []
                   | x :: r =>
                       str ← serialize_property gap inner x;
                       rest ← elements r;
                       Return (default "null" str :: rest)
                   end) items = Return l) as [l ->].
    { induction IH as [|x xs Hx _ IHxs]; [by eexists|].
      cbn [existsb] in Hb. apply orb_false_elim in Hb as [Ex Exs].
      destruct (Hx gap inner) as [_ (o & -> & _)]; [done|].
      destruct (IHxs Exs) as [l ->]. by eexists. }
    eexists; split; [done|]. split; discriminate.
  - cbn [serialize_property]. cbn [holds_bigint] in Hb.
    set (inner := indent +:+ gap).
    assert ((fix members (l : list (string * value)) : outcome (list string) :=
               match l with
               | [] => Return []
               | (k, x) :: r =>
                   str ← serialize_property gap inner x;
                   rest ← members r;
                   Return (match str with
                           | Some t =>
                               (quote k +:+ ":" +:+
                                (if is_empty gap then EmptyString else " ") +:+ t) :: rest
                           | None => rest
                           end)
               end) props
            = Throw (new_TypeError "Do not know how to serialize a BigInt")) as ->; [|done].
    induction IH as [|[k x] xs Hx _ IHxs]; [discriminate Hb|].
    cbn [existsb snd] in Hb. cbn [snd] in Hx.
    destruct (holds_bigint x) eqn:Ex.
    + destruct (Hx gap inner) as [-> _]; done.
    + destruct (Hx gap inner) as [_ (o & -> & _)]; [done|].
      rewrite outcome_bind_return, IHxs; done.
  - cbn [serialize_property]. cbn [holds_bigint] in Hb.
    set (inner := indent +:+ gap).
    assert (exists l, (fix members (l : list (string * value)) : outcome (list string) :=
                   match l with
                   | [] => Return []
                   | (k, x) :: r =>
                       str ← serialize_property gap inner x;
                       rest ← members r;
                       Return (match str with
                               | Some t =>
                                   (quote k +:+ ":" +:+
                                    (if is_empty gap then EmptyString else " ") +:+ t) :: rest
                               | None => rest
                               end)
                   end) props = Return l) as [l ->].
    { induction IH as [|[k x] xs Hx _ IHxs]; [by eexists|].
      cbn [existsb snd] in Hb. cbn [snd] in Hx. apply orb_false_elim in Hb as [Ex Exs].
      destruct (Hx gap inner) as [_ (o & -> & _)]; [done|].
      destruct (IHxs Exs) as [l ->]. by eexists. }
    eexists; split; [done|]. split; discriminate.
Qed.

Lemma truthy_string (s : string) : s <> EmptyString -> truthy (VString s) = true.
Proof. by destruct s. Qed.

(** A string literal written by [JSON.stringify] reads back as the string. *)
Lemma unquote_quote_char (c : ascii) (rest : string) :
  unquote_body (quote_char c +:+ rest) = option_map (String c) (unquote_body rest).
Proof.
  destruct c as [[] [] [] [] [] [] [] []]; reflexivity.
Qed.

Lemma unquote_quote_body (s : string) : unquote_body (quote_body s) = Some s.
Proof.
  induction s as [|c r IH]; [reflexivity|].
  cbn [quote_body]. by rewrite unquote_quote_char, IH.
Qed.

(** The elements of an array, each printed one step further in. *)
Lemma elements_layout (gap inner : string) (items : list value) (partial : list string) :
  (fix elements (l : list value) : outcome (list string) :=
     match l with
     | [] => Return []
     | x :: r =>
         str ← serialize_property gap inner x;
         rest ← elements r;
         Return (default "null" str :: rest)
     end) items = Return partial ->
  exists parts,
    Forall2 (fun x part => serialize_property gap inner x = Return part) items parts /\
    partial = map (default "null") parts.
Proof.
  revert partial. induction items as [|x r IH]; intros partial.
  - intros [= <-]. by exists [].
  - destruct (serialize_property gap inner x) as [str|] eqn:Hx; [|discriminate].
    rewrite outcome_bind_return.
    match goal with
    | |- (_ ← ?m; _) = _ -> _ => destruct m as [rest|]; [|discriminate]
    end.
    rewrite outcome_bind_return. intros [= <-].
    destruct (IH rest eq_refl) as (parts & Hparts & ->).
    exists (str :: parts). split; [by constructor|done].
Qed.

Lemma members_layout (gap inner : string) (props : list (string * value))
    (partial : list string) :
  (fix members (l : list (string * value)) : outcome (list string) :=
     match l with
     | [] => Return []
     | (k, x) :: r =>
         str ← serialize_property gap inner x;
         rest ← members r;
         Return (match str with
                 | Some t =>
                     (quote k +:+ ":" +:+
                      (if is_empty gap then EmptyString else " ") +:+ t) :: rest
                 | None => rest
                 end)
     end) props = Return partial ->
  exists parts,
    Forall2 (fun kv part => serialize_property gap inner (snd kv) = Return part) props parts /\
    partial = member_texts (":" +:+ (if is_empty gap then EmptyString else " ")) props parts.
Proof.
  revert partial. induction props as [|[k x] r IH]; intros partial.
  - intros [= <-]. by exists [].
  - destruct (serialize_property gap inner x) as [str|] eqn:Hx; [|discriminate].
    rewrite outcome_bind_return.
    match goal with
    | |- (_ ← ?m; _) = _ -> _ => destruct m as [rest|]; [|discriminate]
    end.
    rewrite outcome_bind_return. intros [= <-].
    destruct (IH rest eq_refl) as (parts & Hparts & ->).
    exists (str :: parts). split; [by constructor|].
    destruct str as [t|]; reflexivity.
Qed.

End JsFacts.

(** ** The truncator *)

Section TruncateFacts.

Lemma MAX_CHARS_value : MAX_CHARS = 24000.
Proof. reflexivity. Qed.

Lemma toLocaleString_MAX_TOKENS : toLocaleString MAX_TOKENS = "6,000".
Proof. reflexivity. Qed.

(** [ceil_div a 4] is the least integer [e] with [a <= 4 * e]. *)
Lemma ceil_div_4_spec (a : Z) :
  4 * (ceil_div a 4 - 1) < a <= 4 * ceil_div a 4.
Proof.
  unfold ceil_div.
  pose proof (Z.div_mod (a + (4 - 1)) 4 ltac:(lia)) as Hdiv.
  pose proof (Z.mod_pos_bound (a + (4 - 1)) 4 ltac:(lia)) as Hmod.
  lia.
Qed.

Lemma marker_text (estimatedTokens : Z) :
  marker estimatedTokens
  = nl +:+ nl +:+ "--- TRUNCATED ---" +:+ nl +:+
    "Response was ~" +:+ toLocaleString estimatedTokens +:+
    " tokens (limit: 6,000). Use more specific queries to reduce response size.".
Proof. reflexivity. Qed.

Lemma truncateResponse_serialized (content : value) (text : string) :
  serialized content = Return (Some text) ->
  truncateResponse content
  = if str_length text <=? MAX_CHARS then Return text
    else Return (slice0 (Z.to_nat MAX_CHARS) text +:+
                 marker (ceil_div (str_length text) CHARS_PER_TOKEN)).
Proof. intros H. unfold truncateResponse. rewrite H. reflexivity. Qed.

(** What [JSON.stringify(v, null, 2)] writes at an indentation: the text of
    each kind of value, arrays and objects laid out one element or member a
    line, two spaces further in. *)
Lemma serialize_property_layout (indent : string) (v : value) (t : string) :
  serialize_property "  " indent v = Return (Some t) ->
  let inner := indent +:+ "  " in
  let block opening closing parts :=
    match parts with
    | [] => opening +:+ closing
    | _ :: _ =>
        opening +:+ nl +:+ inner +:+ join ("," +:+ nl +:+ inner) parts +:+
        nl +:+ indent +:+ closing
    end in
  match v with
  | VUndefined | VBigInt _ => False
  | VNull => t = "null"
  | VBool b => t = if b then "true" else "false"
  | VNum n => t = number_to_string n
  | VString s => t = dq +:+ quote_body s +:+ dq
  | VArray items =>
      exists parts,
        Forall2 (fun x part => serialize_property "  " inner x = Return part) items parts /\
        t = block "[" "]" (map (default "null") parts)
  | VObject props =>
      exists parts,
        Forall2 (fun kv part => serialize_property "  " inner (snd kv) = Return part)
                props parts /\
        t = block "{" "}" (member_texts ": " props parts)
  end.
Proof.
  intros Hser inner block.
  destruct v as [ | | [|] | n | n | s | items | props]; cbn [serialize_property] in Hser;
    try discriminate Hser; try (by injection Hser).
  - match type of Hser with
    | (_ ← ?m; _) = _ => destruct m as [partial|] eqn:Hitems; [|discriminate Hser]
    end.
    rewrite outcome_bind_return in Hser. injection Hser as <-.
    destruct (elements_layout _ _ _ _ Hitems) as (parts & Hparts & ->).
    exists parts. split; [exact Hparts|]. by destruct (map _ parts).
  - match type of Hser with
    | (_ ← ?m; _) = _ => destruct m as [partial|] eqn:Hprops; [|discriminate Hser]
    end.
    rewrite outcome_bind_return in Hser. injection Hser as <-.
    destruct (members_layout _ _ _ _ Hprops) as (parts & Hparts & ->).
    exists parts. split; [exact Hparts|]. by destruct (member_texts _ props parts).
Qed.

(** C4.  Whenever the input has a serialized text: a string is its own text;
    any other value is printed by [JSON.stringify(content, null, 2)], that is
    [null], [true], [false], a number as its numeral, a string between
    quotes, an array or an object with one element or member a line,
    indented by two spaces a level.  A text of at most 24000 characters is
    returned unchanged; a longer one yields its first 24000 characters
    followed by the marker, whose token estimate is [ceil(length / 4)] of the
    whole text, printed with the limit of 6,000 tokens. *)
Theorem truncateResponse_budget (content : value) (text : string) :
  serialized content = Return (Some text) ->
  (forall s, content = VString s -> text = s) /\
  ((forall s, content <> VString s) ->
     serialize_property "  " EmptyString content = Return (Some text)) /\
  (forall indent v t,
     serialize_property "  " indent v = Return (Some t) ->
     let inner := indent +:+ "  " in
     let block opening closing parts :=
       match parts with
       | [] => opening +:+ closing
       | _ :: _ =>
           opening +:+ nl +:+ inner +:+ join ("," +:+ nl +:+ inner) parts +:+
           nl +:+ indent +:+ closing
       end in
     match v with
     | VUndefined | VBigInt _ => False
     | VNull => t = "null"
     | VBool b => t = if b then "true" else "false"
     | VNum n =>
         t = number_to_string n /\
         (Z.abs n <= 2 ^ 53 -> t = NilZero.string_of_int (Z.to_int n))
     | VString s => t = dq +:+ quote_body s +:+ dq /\ unquote_body (quote_body s) = Some s
     | VArray items =>
         exists parts,
           Forall2 (fun x part => serialize_property "  " inner x = Return part)
                   items parts /\
           t = block "[" "]" (map (default "null") parts)
     | VObject props =>
         exists parts,
           Forall2 (fun kv part => serialize_property "  " inner (snd kv) = Return part)
                   props parts /\
           t = block "{" "}" (member_texts ": " props parts)
     end) /\
  (str_length text <= 24000 -> truncateResponse content = Return text) /\
  (24000 < str_length text ->
     let estimate := ceil_div (str_length text) 4 in
     truncateResponse content
     = Return (slice0 (Z.to_nat 24000) text +:+ nl +:+ nl +:+ "--- TRUNCATED ---" +:+ nl +:+
               "Response was ~" +:+ toLocaleString estimate +:+
               " tokens (limit: 6,000). Use more specific queries to reduce response size.")
     /\ str_length (slice0 (Z.to_nat 24000) text) = 24000
     /\ text = slice0 (Z.to_nat 24000) text +:+ drop_chars (Z.to_nat 24000) text
     /\ 4 * (estimate - 1) < str_length text <= 4 * estimate
     /\ ungroup (toLocaleString estimate) = integer_digits estimate
     /\ (estimate <= 2 ^ 53 ->
         ungroup (toLocaleString estimate) = NilZero.string_of_int (Z.to_int estimate))).
Proof.
  intros Hser. split; [|split; [|split; [|split]]].
  - intros s ->. cbn in Hser. congruence.
  - intros Hother. destruct content; try exact Hser. by destruct (Hother s).
  - intros indent v t Hv inner block.
    pose proof (serialize_property_layout indent v t Hv) as Hlayout.
    destruct v as [ | | b | n | n | s | items | props]; try exact Hlayout.
    + split; [exact Hlayout|]. intros Hn. rewrite <- number_to_string_exact; done.
    + split; [exact Hlayout|apply unquote_quote_body].
  - intros Hle. rewrite (truncateResponse_serialized _ _ Hser), MAX_CHARS_value.
    destruct (Z.leb_spec (str_length text) 24000); [done|lia].
  - intros Hgt estimate.
    pose proof (ceil_div_4_spec (str_length text)) as Hceil. fold estimate in Hceil.
    assert (ungroup (toLocaleString estimate) = integer_digits estimate) as Hdigits
      by (apply ungroup_toLocaleString; lia).
    repeat split; try apply Hceil; try exact Hdigits.
    + rewrite (truncateResponse_serialized _ _ Hser), MAX_CHARS_value.
      destruct (Z.leb_spec (str_length text) 24000); [lia|].
      rewrite marker_text. reflexivity.
    + unfold str_length in *. rewrite slice0_length. lia.
    + apply slice0_prefix.
    + intros Hsmall. rewrite Hdigits. by apply integer_digits_exact.
Qed.

(** The spec's example, a string of 100,000 characters, and a value that is
    not a string. *)
Lemma truncateResponse_budget_witness :
  truncateResponse (VString "short") = Return "short" /\
  truncateResponse (VString (repeat_char "x" (Z.to_nat 100000)))
  = Return (slice0 (Z.to_nat 24000) (repeat_char "x" (Z.to_nat 100000)) +:+
            nl +:+ nl +:+ "--- TRUNCATED ---" +:+ nl +:+
            "Response was ~25,000 tokens (limit: 6,000). Use more specific queries to reduce response size.") /\
  truncateResponse (VObject [("ok", VBool true);
                             ("ids", VArray [VNum 1; VUndefined; VString "a"]);
                             ("gone", VUndefined);
                             ("none", VObject [])])
  = Return (lines ["{";
                   "  " +:+ dq +:+ "ok" +:+ dq +:+ ": true,";
                   "  " +:+ dq +:+ "ids" +:+ dq +:+ ": [";
                   "    1,";
                   "    null,";
                   "    " +:+ dq +:+ "a" +:+ dq;
                   "  ],";
                   "  " +:+ dq +:+ "none" +:+ dq +:+ ": {}";
                   "}"]).
Proof.
  split; [|split].
  - apply (truncateResponse_budget (VString "short") "short" eq_refl). vm_compute. discriminate.
  - apply (truncateResponse_budget (VString (repeat_char "x" (Z.to_nat 100000)))
             (repeat_char "x" (Z.to_nat 100000)) eq_refl). vm_compute. reflexivity.
  - apply (truncateResponse_budget
             (VObject [("ok", VBool true);
                       ("ids", VArray [VNum 1; VUndefined; VString "a"]);
                       ("gone", VUndefined);
                       ("none", VObject [])]) _ eq_refl).
    vm_compute. discriminate.
Defined.

(** C9, as the code has it.  Among the values of the model (those built
    from [undefined], [null], booleans, numbers, BigInts, strings, arrays and
    objects), [truncateResponse] returns a string for every one other than
    [undefined] that holds no BigInt: every string and every decoded JSON
    document.  It has no guard of its own against a value that
    [JSON.stringify] refuses: on a value holding a BigInt the TypeError of
    [JSON.stringify] comes out of it.  The tool handlers call it inside their
    [try], so their [catch] answers [Error: ] and the message, with the error
    flag: the [execute] handlers of both modes and the [search] handler, when
    the unit hands such a value back as its result. *)
Theorem truncateResponse_outcomes (content : value) :
  (content <> VUndefined -> holds_bigint content = false ->
     exists text, truncateResponse content = Return text) /\
  (holds_bigint content = true ->
     truncateResponse content
     = Throw (new_TypeError "Do not know how to serialize a BigInt")) /\
  (holds_bigint content = true ->
     let refused := {| content_text := "Error: Do not know how to serialize a BigInt";
                       isError := true |} in
     (forall (LOADER : Loader) apiBase uuid apiToken accountId code,
        LOADER ("cloudflare-api-" +:+ uuid) (workerCode apiBase (VString accountId) code)
               apiToken
        = Return {| result := content; err := VUndefined |} ->
        execute_account_token LOADER apiBase uuid apiToken accountId code = refused /\
        (accountId <> EmptyString ->
         forall fetch account_id,
           account_id = Some accountId \/
           (account_id = None /\ apiBase <> EmptyString /\
            resolveAccountId fetch apiBase apiToken = Return (VString accountId)) ->
           execute_user_token fetch LOADER apiBase uuid apiToken code account_id
           = refused)) /\
     (forall (LOADER : SearchLoader) specJson uuid code,
        LOADER ("cloudflare-search-" +:+ uuid) (searchWorkerCode specJson code)
        = Return {| result := content; err := VUndefined |} ->
        search LOADER specJson uuid code = refused)).
Proof.
  assert (holds_bigint content = true ->
          truncateResponse content
          = Throw (new_TypeError "Do not know how to serialize a BigInt")) as Hrefused.
  { intros Hbig.
    destruct (serialize_property_outcome content "  " EmptyString) as [Hthrow _].
    specialize (Hthrow Hbig).
    unfold truncateResponse, serialized. destruct content; try discriminate Hbig.
    + reflexivity.
    + unfold JSON_stringify_2. by rewrite Hthrow.
    + unfold JSON_stringify_2. by rewrite Hthrow. }
  split; [|split; [exact Hrefused|]].
  - intros Hdef Hbig.
    assert (exists text, serialized content = Return (Some text)) as [text Htext].
    { destruct (serialize_property_outcome content "  " EmptyString) as [_ Hok].
      destruct (Hok Hbig) as (o & Ho & Hnone).
      destruct o as [t|]; [|destruct Hdef; by apply Hnone].
      destruct content; first [by eexists | exists t; exact Ho]. }
    rewrite (truncateResponse_serialized _ _ Htext).
    destruct (_ <=? _); by eexists.
  - intros Hbig refused. specialize (Hrefused Hbig). split.
    + intros LOADER apiBase uuid apiToken accountId code Hrun.
      assert (executeCode LOADER apiBase uuid code (VString accountId) apiToken
              = Return content) as Hcode.
      { unfold executeCode, provisioning. cbn [workerId recipe evaluate_arg].
        by rewrite Hrun. }
      split.
      * unfold execute_account_token. by rewrite Hcode, outcome_bind_return, Hrefused.
      * intros Hid fetch account_id Hchoice. unfold execute_user_token.
        assert (match account_id with
                | Some a => Return (VString a)
                | None =>
                    if truthy (VString apiBase) then resolveAccountId fetch apiBase apiToken
                    else Return VUndefined
                end = Return (VString accountId)) as ->.
        { destruct Hchoice as [-> | (-> & Hbase & Hresolved)]; [done|].
          by rewrite (truthy_string _ Hbase). }
        rewrite outcome_bind_return, (truthy_string _ Hid). cbn [negb].
        rewrite Hcode, outcome_bind_return. cbv beta. by rewrite Hrefused.
    + intros LOADER specJson uuid code Hrun. unfold search, executeSearch.
      rewrite Hrun, outcome_bind_return. unfold collect. cbn [err result truthy].
      rewrite outcome_bind_return. cbv beta. by rewrite Hrefused.
Qed.

Lemma truncateResponse_outcomes_witness :
  (exists text, truncateResponse (VObject [("n", VNum 42)]) = Return text) /\
  truncateResponse (VArray [VBigInt 10])
  = Throw (new_TypeError "Do not know how to serialize a BigInt") /\
  search (fun _ _ => Return {| result := VArray [VBigInt 10]; err := VUndefined |})
         "{}" "0000" "async () => [10n]"
  = {| content_text := "Error: Do not know how to serialize a BigInt"; isError := true |}.
Proof.
  split; [|split].
  - apply (truncateResponse_outcomes (VObject [("n", VNum 42)])); [discriminate | reflexivity].
  - apply (truncateResponse_outcomes (VArray [VBigInt 10])). reflexivity.
  - destruct (truncateResponse_outcomes (VArray [VBigInt 10])) as (_ & _ & Hhandlers).
    destruct (Hhandlers eq_refl) as [_ Hsearch]. by apply Hsearch.
Defined.

(** C9 as stated fails: a BigInt has no JSON text and [JSON.stringify]
    throws; [undefined] has none either, and reading [length] off what
    [JSON.stringify] answers throws. *)
Lemma truncateResponse_can_throw :
  truncateResponse (VBigInt 10)
  = Throw (new_TypeError "Do not know how to serialize a BigInt") /\
  truncateResponse VUndefined
  = Throw (new_TypeError "Cannot read properties of undefined (reading 'length')") /\
  ~ (forall content, exists text, truncateResponse content = Return text).
Proof.
  split; [reflexivity|]. split; [reflexivity|].
  intros Htotal. destruct (Htotal VUndefined) as [text Htext]. discriminate Htext.
Qed.

End TruncateFacts.

(** ** The execution gateway *)

Section ExecutorFacts.

Variables (fetch : Fetch) (apiBase : string).

(** [request] once the URL constructor has accepted [apiBase + path]. *)
Lemma request_parsed (apiToken : string) (options : value) :
  request fetch apiBase apiToken options
  = (opts ← destructure options;
     requestBody ← request_body (get_prop opts "body") (get_prop opts "rawBody");
     response ← fetch (fetch_call apiBase apiToken opts requestBody);
     handle_response response).
Proof. unfold request, request_with. by destruct (destructure options). Qed.

(** Once [fetch] has answered, [request] is [handle_response]. *)
Lemma request_answered (apiToken : string) (options opts requestBody : value)
    (response : Response) :
  destructure options = Return opts ->
  request_body (get_prop opts "body") (get_prop opts "rawBody") = Return requestBody ->
  fetch (fetch_call apiBase apiToken opts requestBody) = Return response ->
  request fetch apiBase apiToken options = handle_response response.
Proof.
  intros Hopts Hbody Hfetch. rewrite request_parsed.
  rewrite Hopts, outcome_bind_return, Hbody, outcome_bind_return, Hfetch.
  reflexivity.
Qed.

(** A loader that runs the injected module makes the gateway collect what
    [evaluate] hands back. *)
Lemma executeCode_runs (LOADER : Loader) (uuid code : string) (accountId : value)
    (apiToken : string) (script : Script) :
  runs LOADER fetch apiBase uuid code accountId script ->
  executeCode LOADER apiBase uuid code accountId apiToken
  = (response ← evaluate script fetch apiBase accountId apiToken; collect response).
Proof.
  intros Hruns. unfold executeCode, provisioning, runs in *.
  cbn [workerId recipe evaluate_arg]. rewrite Hruns. reflexivity.
Qed.

(** The module source for an account id that is a string, as declared. *)
Lemma worker_js_text (code accountId : string) :
  worker_js apiBase (VString accountId) code
  = Return (worker_js_head +:+ quote apiBase +:+ ";" +:+ nl +:+
            "const accountId = " +:+ quote accountId +:+
            worker_js_class +:+ code +:+ worker_js_tail).
Proof. reflexivity. Qed.

(** C1, as the code has it.  The recipe the gateway hands to the loader, and
    the identity it asks for, are the same whatever the credential is: they
    are built from the API base, the account id and the script text alone.
    The credential is the argument of [evaluate], and the gateway's only use
    of the loader is that one call. *)
Theorem recipe_independent_of_credential (uuid code : string) (accountId : value)
    (apiToken apiToken' : string) :
  recipe (provisioning apiBase uuid code accountId apiToken)
  = recipe (provisioning apiBase uuid code accountId apiToken') /\
  recipe (provisioning apiBase uuid code accountId apiToken)
  = workerCode apiBase accountId code /\
  workerId (provisioning apiBase uuid code accountId apiToken)
  = workerId (provisioning apiBase uuid code accountId apiToken') /\
  evaluate_arg (provisioning apiBase uuid code accountId apiToken) = apiToken /\
  (forall LOADER : Loader,
     executeCode LOADER apiBase uuid code accountId apiToken
     = (response ← LOADER ("cloudflare-api-" +:+ uuid) (workerCode apiBase accountId code)
                          apiToken;
        collect response)) /\
  (forall account : string,
     accountId = VString account ->
     recipe (provisioning apiBase uuid code accountId apiToken)
     = Return {| compatibilityDate := "2026-01-12";
                 compatibilityFlags := ["nodejs_compat"];
                 mainModule := "worker.js";
                 modules := [("worker.js",
                              worker_js_head +:+ quote apiBase +:+ ";" +:+ nl +:+
                              "const accountId = " +:+ quote account +:+
                              worker_js_class +:+ code +:+ worker_js_tail)] |}).
Proof.
  repeat split.
  intros account ->. cbn [recipe provisioning]. unfold workerCode.
  rewrite worker_js_text. reflexivity.
Qed.

(** C7.  A response whose content type does not mention
    [application/json]: on a success status [request] hands the script the
    body as text, in the [result] field of a success envelope; on any other
    status it throws an error whose message holds the status code and the
    body. *)
Theorem request_non_json (apiToken : string) (options opts requestBody : value)
    (response : Response) :
  destructure options = Return opts ->
  request_body (get_prop opts "body") (get_prop opts "rawBody") = Return requestBody ->
  fetch (fetch_call apiBase apiToken opts requestBody) = Return response ->
  includes (header_or_empty (content_type response)) "application/json" = false ->
  (ok response = true ->
     request fetch apiBase apiToken options
     = Return (VObject [("success", VBool true); ("result", VString (text response))])) /\
  (ok response = false ->
     request fetch apiBase apiToken options
     = Throw (new_Error ("Cloudflare API error: " +:+ number_to_string (status response) +:+
                         " " +:+ text response))).
Proof.
  intros Hopts Hbody Hfetch Hct.
  rewrite (request_answered _ _ _ _ _ Hopts Hbody Hfetch).
  unfold handle_response. rewrite Hct. cbn [negb].
  split; intros ->; reflexivity.
Qed.

End ExecutorFacts.

Lemma recipe_independent_of_credential_witness :
  recipe (provisioning "https://api" "id" "async () => 42" (VString "acc") "token-one")
  = recipe (provisioning "https://api" "id" "async () => 42" (VString "acc") "token-two") /\
  evaluate_arg (provisioning "https://api" "id" "async () => 42" (VString "acc") "token-one")
  = "token-one".
Proof.
  pose proof (recipe_independent_of_credential "https://api" "id" "async () => 42" (VString "acc")
                "token-one" "token-two") as (Hsame & _ & _ & Harg & _).
  split; [exact Hsame | exact Harg].
Defined.

(** A key/value body served as plain text, and an HTML error page. *)
Lemma request_non_json_witness :
  let kv := {| status := 200; content_type := Some "text/plain"; text := "hello";
               json := Throw (new_Error "Unexpected token") |} in
  let page := {| status := 502; content_type := None; text := "Bad Gateway";
                 json := Throw (new_Error "Unexpected token") |} in
  let options := VObject [("method", VString "GET"); ("path", VString "/kv")] in
  request (fun _ => Return kv) "https://api" "tok" options
  = Return (VObject [("success", VBool true); ("result", VString "hello")]) /\
  request (fun _ => Return page) "https://api" "tok" options
  = Throw (new_Error "Cloudflare API error: 502 Bad Gateway").
Proof.
  intros kv page options. split.
  - apply (request_non_json (fun _ => Return kv) "https://api" "tok" options options
             VUndefined kv); reflexivity.
  - apply (request_non_json (fun _ => Return page) "https://api" "tok" options options
             VUndefined page); reflexivity.
Defined.

(** C1 as stated fails: nothing keeps the credential's text out of the recipe
    when the template, or the script, already spells it. *)
Lemma recipe_can_spell_credential :
  (exists source,
     worker_js "https://api" (VString "acc") "async () => 42" = Return source /\
     includes source "apiToken" = true) /\
  (exists source,
     worker_js "https://api" (VString "acc") "async () => 's3cret'" = Return source /\
     includes source "s3cret" = true) /\
  ~ (forall apiBase code accountId apiToken source,
       worker_js apiBase accountId code = Return source ->
       includes source apiToken = false).
Proof.
  split; [|split].
  - eexists. split; [reflexivity|]. vm_compute. reflexivity.
  - eexists. split; [reflexivity|]. vm_compute. reflexivity.
  - intros Hnever.
    specialize (Hnever "https://api" "async () => 42" (VString "acc") "apiToken" _ eq_refl).
    vm_compute in Hnever. discriminate Hnever.
Qed.

Section GatewayFacts.

Variables (fetch : Fetch) (LOADER : Loader).
Variables (apiBase uuid code : string) (accountId : value) (apiToken : string).
Variable script : Script.

Hypothesis loader_runs : runs LOADER fetch apiBase uuid code accountId script.

Lemma evaluate_returned (v : value) :
  script (unit_scope fetch apiBase accountId apiToken) = Return v ->
  evaluate script fetch apiBase accountId apiToken
  = Return {| result := v; err := VUndefined |}.
Proof. intros H. unfold evaluate. rewrite H. reflexivity. Qed.

Lemma evaluate_threw_error (name message : string) :
  script (unit_scope fetch apiBase accountId apiToken) = Throw (ErrorObj name message) ->
  evaluate script fetch apiBase accountId apiToken
  = Return {| result := VUndefined; err := VString message |}.
Proof. intros H. unfold evaluate. rewrite H. reflexivity. Qed.

(** C2, as the code has it.  The collected record never has both fields
    populated.  A script that returns [v] yields [{ result: v, err: undefined }]
    and the gateway returns [v]; a script that throws an [Error] with a
    non-empty message yields [{ result: undefined, err: message }] and the
    gateway throws an [Error] with that message. *)
Theorem gateway_result_or_error :
  (forall v,
     script (unit_scope fetch apiBase accountId apiToken) = Return v ->
     evaluate script fetch apiBase accountId apiToken
     = Return {| result := v; err := VUndefined |} /\
     executeCode LOADER apiBase uuid code accountId apiToken = Return v) /\
  (forall name message,
     script (unit_scope fetch apiBase accountId apiToken) = Throw (ErrorObj name message) ->
     message <> EmptyString ->
     evaluate script fetch apiBase accountId apiToken
     = Return {| result := VUndefined; err := VString message |} /\
     executeCode LOADER apiBase uuid code accountId apiToken = Throw (new_Error message)) /\
  (forall collected,
     evaluate script fetch apiBase accountId apiToken = Return collected ->
     result collected = VUndefined \/ err collected = VUndefined).
Proof.
  split; [|split].
  - intros v Hv. split; [by apply evaluate_returned|].
    rewrite (executeCode_runs _ _ _ _ _ _ _ _ loader_runs), (evaluate_returned _ Hv).
    reflexivity.
  - intros name message He Hne. split; [by eapply evaluate_threw_error|].
    rewrite (executeCode_runs _ _ _ _ _ _ _ _ loader_runs), (evaluate_threw_error _ _ He).
    destruct message; [done|reflexivity].
  - intros collected. unfold evaluate.
    destruct (script _) as [v|e]; cbn.
    + intros [= <-]. by right.
    + destruct (thrown_message e); cbn; [|discriminate]. intros [= <-]. by left.
Qed.

End GatewayFacts.

Lemma gateway_result_or_error_witness :
  let returns42 : Script := fun _ => Return (VNum 42) in
  let throws : Script := fun _ => Throw (new_Error "boom") in
  let net : Fetch := fun _ => Throw (new_TypeError "fetch failed") in
  executeCode (fun _ _ => evaluate returns42 net "https://api" (VString "acc"))
    "https://api" "id" "async () => 42" (VString "acc") "tok" = Return (VNum 42) /\
  executeCode (fun _ _ => evaluate throws net "https://api" (VString "acc"))
    "https://api" "id" "async () => { throw new Error('boom') }" (VString "acc") "tok"
  = Throw (new_Error "boom").
Proof.
  intros returns42 throws net. split.
  - apply (gateway_result_or_error net
             (fun _ _ => evaluate returns42 net "https://api" (VString "acc"))
             "https://api" "id" "async () => 42" (VString "acc") "tok" returns42 eq_refl).
    reflexivity.
  - apply (gateway_result_or_error net
             (fun _ _ => evaluate throws net "https://api" (VString "acc"))
             "https://api" "id" "async () => { throw new Error('boom') }" (VString "acc")
             "tok" throws eq_refl) with (name := "Error"); [reflexivity|discriminate].
Defined.

(** C2 as stated fails.  A script that returns [undefined] leaves both fields
    of the record unpopulated.  (And a script that throws an [Error] whose
    message is empty is reported as a success: the gateway tests [err] for
    truthiness.) *)
Lemma collected_neither_populated :
  let net : Fetch := fun _ => Throw (new_TypeError "fetch failed") in
  evaluate (fun _ => Return VUndefined) net "https://api" (VString "acc") "tok"
  = Return {| result := VUndefined; err := VUndefined |} /\
  (evaluate (fun _ => Throw (new_Error EmptyString)) net "https://api" (VString "acc") "tok"
   = Return {| result := VUndefined; err := VString EmptyString |} /\
   executeCode (fun _ _ => evaluate (fun _ => Throw (new_Error EmptyString)) net
                             "https://api" (VString "acc"))
     "https://api" "id" "async () => { throw new Error('') }" (VString "acc") "tok"
   = Return VUndefined).
Proof. repeat split. Qed.

(** ** The server *)

Section ResolverFacts.

Variables (fetch : Fetch) (apiBase apiToken : string).
Variables (response : Response) (data success : value).

Hypothesis answered : fetch (accounts_call apiBase apiToken) = Return response.
Hypothesis is_json :
  includes (header_or_empty (content_type response)) "application/json" = true.
Hypothesis decoded : json response = Return data.
Hypothesis has_success : member data "success" = Return success.
Hypothesis succeeded : truthy success = true.

(** On a recognized success envelope the resolver looks at [data.result]
    only. *)
Lemma resolveAccountId_success_envelope :
  resolveAccountId fetch apiBase apiToken
  = match get_prop data "result" with
    | VArray accounts =>
        if Nat.eqb (length accounts) 0 then
          Throw (new_Error "No Cloudflare accounts found for this token.")
        else
          let first := default VUndefined (accounts !! 0%nat) in
          if Nat.eqb (length accounts) 1 && truthy (get_prop first "id")
          then Return (get_prop first "id")
          else
            accountSummary ← mapM candidate (take 5 accounts);
            Throw (new_Error
                     ("Multiple Cloudflare accounts found. Provide account_id to select one. "
                      +:+ "Found: " +:+ join ", " accountSummary))
    | _ => Throw (new_Error "No Cloudflare accounts found for this token.")
    end.
Proof.
  unfold resolveAccountId.
  rewrite answered, outcome_bind_return, is_json. cbn [negb].
  rewrite decoded, outcome_bind_return, has_success, outcome_bind_return, succeeded.
  reflexivity.
Qed.

(** The candidates of an account list whose entries are objects. *)
Lemma candidates_of_objects (accounts : list value) :
  Forall (fun account => exists props, account = VObject props) accounts ->
  mapM candidate accounts
  = Return (map (fun account =>
                   to_string (nullish_or (get_prop account "id") (VString "unknown")) +:+
                   " (" +:+
                   to_string (nullish_or (get_prop account "name") (VString EmptyString)) +:+
                   ")") accounts).
Proof.
  induction 1 as [|account rest [props ->] _ IH]; [reflexivity|].
  cbn [mapM map]. rewrite IH. reflexivity.
Qed.

(** C5, as the code has it.  On a recognized success envelope whose result
    is the list [accounts]: an empty list fails with the no-account error; a
    single account with a usable (truthy) id is resolved to that id; a list
    of objects that is longer, or whose single account has no usable id,
    fails with the ambiguous-account error, which lists the first five
    accounts at most, each as [id (name)] ([unknown] for a missing id,
    nothing for a missing name), joined by [", "]. *)
Theorem resolveAccountId_by_count (accounts : list value) :
  get_prop data "result" = VArray accounts ->
  (accounts = [] ->
     resolveAccountId fetch apiBase apiToken
     = Throw (new_Error "No Cloudflare accounts found for this token.")) /\
  (forall account,
     accounts = [account] -> truthy (get_prop account "id") = true ->
     resolveAccountId fetch apiBase apiToken = Return (get_prop account "id")) /\
  (Forall (fun account => exists props, account = VObject props) accounts ->
   (1 < length accounts)%nat \/
   (exists account, accounts = [account] /\ truthy (get_prop account "id") = false) ->
     let shown := take 5 accounts in
     (length shown <= 5)%nat /\
     resolveAccountId fetch apiBase apiToken
     = Throw (new_Error
                ("Multiple Cloudflare accounts found. Provide account_id to select one. Found: "
                 +:+ join ", "
                       (map (fun account =>
                               to_string (nullish_or (get_prop account "id")
                                                     (VString "unknown")) +:+
                               " (" +:+
                               to_string (nullish_or (get_prop account "name")
                                                     (VString EmptyString)) +:+
                               ")") shown)))).
Proof.
  intros Hresult. rewrite resolveAccountId_success_envelope, Hresult.
  split; [|split].
  - intros ->. reflexivity.
  - intros account -> Hid. cbn. rewrite Hid. reflexivity.
  - intros Hobjects Hmany shown. split.
    { subst shown. rewrite length_take. lia. }
    assert (Nat.eqb (length accounts) 0 = false) as ->.
    { apply Nat.eqb_neq. destruct Hmany as [?|(account & -> & _)]; cbn; lia. }
    cbv zeta.
    assert (Nat.eqb (length accounts) 1
            && truthy (get_prop (default VUndefined (accounts !! 0%nat)) "id") = false) as ->.
    { destruct Hmany as [Hlen|(account & -> & Hid)].
      - apply andb_false_intro1, Nat.eqb_neq. lia.
      - cbn. exact Hid. }
    rewrite candidates_of_objects by (by apply Forall_take).
    reflexivity.
Qed.

(** C10.  A success envelope whose [result] is missing, or is anything but
    an array, fails with the no-account error of the empty list. *)
Theorem resolveAccountId_result_not_array :
  (forall accounts, get_prop data "result" <> VArray accounts) ->
  resolveAccountId fetch apiBase apiToken
  = Throw (new_Error "No Cloudflare accounts found for this token.").
Proof.
  intros Hnot. rewrite resolveAccountId_success_envelope.
  destruct (get_prop data "result") as [ | | | | | | accounts | ]; try reflexivity.
  by destruct (Hnot accounts).
Qed.

End ResolverFacts.

Lemma resolveAccountId_by_count_witness :
  let account i n := VObject [("id", VString i); ("name", VString n)] in
  let envelope accounts := VObject [("success", VBool true); ("result", VArray accounts)] in
  let upstream accounts : Fetch := fun _ =>
    Return {| status := 200; content_type := Some "application/json";
              text := EmptyString; json := Return (envelope accounts) |} in
  let six := [account "a1" "One"; account "a2" "Two"; account "a3" "Three";
              account "a4" "Four"; account "a5" "Five"; account "a6" "Six"] in
  resolveAccountId (upstream []) "https://api" "tok"
  = Throw (new_Error "No Cloudflare accounts found for this token.") /\
  resolveAccountId (upstream [account "a1" "One"]) "https://api" "tok"
  = Return (VString "a1") /\
  resolveAccountId (upstream six) "https://api" "tok"
  = Throw (new_Error
             ("Multiple Cloudflare accounts found. Provide account_id to select one. Found: "
              +:+ "a1 (One), a2 (Two), a3 (Three), a4 (Four), a5 (Five)")).
Proof.
  intros account envelope upstream six.
  split; [|split].
  - apply (resolveAccountId_by_count (upstream []) "https://api" "tok" _ (envelope [])
             (VBool true) eq_refl eq_refl eq_refl eq_refl eq_refl [] eq_refl).
    reflexivity.
  - destruct (resolveAccountId_by_count (upstream [account "a1" "One"]) "https://api" "tok" _
                (envelope [account "a1" "One"]) (VBool true)
                eq_refl eq_refl eq_refl eq_refl eq_refl [account "a1" "One"] eq_refl)
      as (_ & Hone & _).
    exact (Hone (account "a1" "One") eq_refl eq_refl).
  - destruct (resolveAccountId_by_count (upstream six) "https://api" "tok" _ (envelope six)
                (VBool true) eq_refl eq_refl eq_refl eq_refl eq_refl six eq_refl)
      as (_ & _ & Hmany).
    apply Hmany.
    + repeat constructor; by eexists.
    + left. cbn. lia.
Defined.

(** C5 as stated fails for a single account: without a usable id it is not
    resolved, the call fails with the ambiguous-account error. *)
Lemma resolveAccountId_single_without_id :
  let envelope accounts := VObject [("success", VBool true); ("result", VArray accounts)] in
  let upstream accounts : Fetch := fun _ =>
    Return {| status := 200; content_type := Some "application/json";
              text := EmptyString; json := Return (envelope accounts) |} in
  resolveAccountId (upstream [VObject [("id", VString EmptyString); ("name", VString "Solo")]])
    "https://api" "tok"
  = Throw (new_Error
             "Multiple Cloudflare accounts found. Provide account_id to select one. Found:  (Solo)") /\
  resolveAccountId (upstream [VObject [("name", VString "Solo")]]) "https://api" "tok"
  = Throw (new_Error
             "Multiple Cloudflare accounts found. Provide account_id to select one. Found: unknown (Solo)").
Proof. split; reflexivity. Qed.

Lemma resolveAccountId_result_not_array_witness :
  let upstream data : Fetch := fun _ =>
    Return {| status := 200; content_type := Some "application/json; charset=UTF-8";
              text := EmptyString; json := Return data |} in
  resolveAccountId (upstream (VObject [("success", VBool true)])) "https://api" "tok"
  = Throw (new_Error "No Cloudflare accounts found for this token.") /\
  resolveAccountId (upstream (VObject [("success", VBool true); ("result", VNull)]))
    "https://api" "tok"
  = Throw (new_Error "No Cloudflare accounts found for this token.").
Proof.
  intros upstream. split.
  - apply (resolveAccountId_result_not_array (upstream (VObject [("success", VBool true)]))
             "https://api" "tok" _ (VObject [("success", VBool true)]) (VBool true)
             eq_refl eq_refl eq_refl eq_refl eq_refl).
    intros accounts. discriminate.
  - apply (resolveAccountId_result_not_array
             (upstream (VObject [("success", VBool true); ("result", VNull)]))
             "https://api" "tok" _ (VObject [("success", VBool true); ("result", VNull)])
             (VBool true) eq_refl eq_refl eq_refl eq_refl eq_refl).
    intros accounts. discriminate.
Defined.

(** Which handler [createServer] registers. *)
Lemma execute_mode (fetch : Fetch) (LOADER : Loader) (apiBase apiToken : string)
    (accountId : option string) (uuid code : string) (account_id : option string) :
  execute fetch LOADER apiBase apiToken accountId uuid code account_id
  = match accountId with
    | Some fixed =>
        if truthy (VString fixed)
        then execute_account_token LOADER apiBase uuid apiToken fixed code
        else execute_user_token fetch LOADER apiBase uuid apiToken code account_id
    | None => execute_user_token fetch LOADER apiBase uuid apiToken code account_id
    end.
Proof. destruct accountId as [[|c fixed]|]; reflexivity. Qed.

Section ExecuteFacts.

Variables (fetch : Fetch) (LOADER : Loader).
Variables (apiBase uuid code apiToken accountId : string).
Variables (script : Script) (continue : Scope -> value -> outcome value).
Variables (options opts requestBody : value) (response : Response).

(** The script calls [cloudflare.request(options)] and lets a failure of that
    call escape. *)
Hypothesis script_calls :
  forall scope, script scope = (answer ← cloudflare_request scope options; continue scope answer).

Hypothesis loader_runs : runs LOADER fetch apiBase uuid code (VString accountId) script.

Hypothesis options_ok : destructure options = Return opts.
Hypothesis body_ok :
  request_body (get_prop opts "body") (get_prop opts "rawBody") = Return requestBody.
Hypothesis answered : fetch (fetch_call apiBase apiToken opts requestBody) = Return response.
Hypothesis is_json :
  includes (header_or_empty (content_type response)) "application/json" = true.
Hypothesis decoded :
  json response
  = Return (VObject [("success", VBool false);
                     ("errors", VArray [VObject [("code", VNum 10000);
                                                 ("message", VString "Authentication error")]])]).

Lemma request_authentication_error :
  request fetch apiBase apiToken options
  = Throw (new_Error "Cloudflare API error: 10000: Authentication error").
Proof.
  rewrite (request_answered _ _ _ _ _ _ _ options_ok body_ok answered).
  unfold handle_response. rewrite is_json, decoded. reflexivity.
Qed.

Lemma executeCode_authentication_error :
  executeCode LOADER apiBase uuid code (VString accountId) apiToken
  = Throw (new_Error "Cloudflare API error: 10000: Authentication error").
Proof.
  rewrite (executeCode_runs _ _ _ _ _ _ _ _ loader_runs).
  unfold evaluate. rewrite script_calls. cbn [cloudflare_request unit_scope].
  rewrite request_authentication_error. reflexivity.
Qed.

(** C8.  The [execute] tool, in either mode, answers such a script with the
    text [Error: Cloudflare API error: 10000: Authentication error] and the
    error flag set. *)
Theorem execute_authentication_error :
  execute_account_token LOADER apiBase uuid apiToken accountId code
  = {| content_text := "Error: Cloudflare API error: 10000: Authentication error";
       isError := true |} /\
  (accountId <> EmptyString ->
   forall (resolver_fetch : Fetch) (configured : option string),
     execute_user_token resolver_fetch LOADER apiBase uuid apiToken code (Some accountId)
     = {| content_text := "Error: Cloudflare API error: 10000: Authentication error";
          isError := true |} /\
     (configured = Some accountId \/ configured = None \/ configured = Some EmptyString ->
      execute resolver_fetch LOADER apiBase apiToken configured uuid code (Some accountId)
      = {| content_text := "Error: Cloudflare API error: 10000: Authentication error";
           isError := true |}) /\
     (apiBase <> EmptyString ->
      resolveAccountId resolver_fetch apiBase apiToken = Return (VString accountId) ->
      execute_user_token resolver_fetch LOADER apiBase uuid apiToken code None
      = {| content_text := "Error: Cloudflare API error: 10000: Authentication error";
           isError := true |})).
Proof.
  assert (execute_account_token LOADER apiBase uuid apiToken accountId code
          = {| content_text := "Error: Cloudflare API error: 10000: Authentication error";
               isError := true |}) as Hfixed.
  { unfold execute_account_token. rewrite executeCode_authentication_error. reflexivity. }
  split; [exact Hfixed|].
  intros Hne resolver_fetch configured.
  assert (execute_user_token resolver_fetch LOADER apiBase uuid apiToken code (Some accountId)
          = {| content_text := "Error: Cloudflare API error: 10000: Authentication error";
               isError := true |}) as Huser.
  { unfold execute_user_token.
    rewrite outcome_bind_return, (truthy_string _ Hne). cbn [negb].
    rewrite executeCode_authentication_error. reflexivity. }
  split; [exact Huser|]. split.
  - intros [-> | [-> | ->]]; rewrite execute_mode; try exact Huser.
    by rewrite (truthy_string _ Hne).
  - intros Hbase Hresolved. unfold execute_user_token.
    rewrite (truthy_string _ Hbase), Hresolved, outcome_bind_return, (truthy_string _ Hne).
    cbn [negb]. rewrite executeCode_authentication_error. reflexivity.
Qed.

End ExecuteFacts.

Lemma execute_authentication_error_witness :
  let failure := VObject [("success", VBool false);
                          ("errors", VArray [VObject [("code", VNum 10000);
                                                      ("message", VString "Authentication error")]])] in
  let upstream : Fetch := fun _ =>
    Return {| status := 403; content_type := Some "application/json";
              text := EmptyString; json := Return failure |} in
  let options := VObject [("method", VString "GET"); ("path", VString "/user/tokens/verify")] in
  let script : Script := fun scope => cloudflare_request scope options in
  let loader : Loader := fun _ _ => evaluate script upstream "https://api" (VString "acc") in
  execute_account_token loader "https://api" "id" "tok" "acc"
    "async () => cloudflare.request({ method: 'GET', path: '/user/tokens/verify' })"
  = {| content_text := "Error: Cloudflare API error: 10000: Authentication error";
       isError := true |}.
Proof.
  intros failure upstream options script loader.
  apply (execute_authentication_error upstream loader "https://api" "id"
           "async () => cloudflare.request({ method: 'GET', path: '/user/tokens/verify' })"
           "tok" "acc" script (fun _ answer => Return answer) options options VUndefined
           {| status := 403; content_type := Some "application/json";
              text := EmptyString; json := Return failure |}).
  - intros scope. unfold script. by destruct (cloudflare_request scope options).
  - reflexivity.
  - reflexivity.
  - reflexivity.
  - reflexivity.
  - reflexivity.
  - reflexivity.
Defined.

(** ** The reference resolver *)

Section BuildSpecFacts.

Lemma resolveRefs_unfold (fuel : nat) (spec obj : value) (seen : gset string) :
  resolveRefs (S fuel) spec obj seen
  = match obj with
    | VArray items =>
        '(items', seen') ← each_item (resolveRefs (S fuel) spec) items seen;
        Some (VArray items', seen')
    | VObject record =>
        match own_prop record "$ref" with
        | Some (VString ref) =>
            if decide (ref ∈ seen) then Some (circular ref, seen)
            else resolveRefs fuel spec (walk spec (pointer_parts ref)) ({[ref]} ∪ seen)
        | _ =>
            '(result, seen') ← each_field (resolveRefs (S fuel) spec) record seen;
            Some (VObject result, seen')
        end
    | _ => Some (obj, seen)
    end.
Proof. destruct obj; reflexivity. Qed.

Lemma refs_in_item (items : list value) (x : value) :
  x ∈ items -> refs_in x ⊆ refs_in (VArray items).
Proof.
  intros Hx s Hs. cbn [refs_in]. apply elem_of_union_list.
  exists (refs_in x). split; [|done]. apply list_elem_of_In, in_map, list_elem_of_In, Hx.
Qed.

Lemma refs_in_field (props : list (string * value)) (k : string) (x : value) :
  (k, x) ∈ props -> pointer_of k x ∪ refs_in x ⊆ refs_in (VObject props).
Proof.
  intros Hx s Hs. cbn [refs_in]. apply elem_of_union_list.
  exists (pointer_of k x ∪ refs_in x). split; [|done].
  apply list_elem_of_In.
  apply (in_map (fun kv => pointer_of (fst kv) (snd kv) ∪ refs_in (snd kv)) props (k, x)).
  by apply list_elem_of_In.
Qed.

Lemma own_prop_elem (props : list (string * value)) (key : string) (x : value) :
  own_prop props key = Some x -> (key, x) ∈ props.
Proof.
  induction props as [|[k v] rest IH]; [discriminate|].
  cbn. destruct (String.eqb_spec k key) as [->|].
  - intros [= ->]. left.
  - intros H. right. auto.
Qed.

Lemma refs_in_get_prop (v : value) (key : string) :
  refs_in (get_prop v key) ⊆ refs_in v.
Proof.
  destruct v as [ | | | | | s | items | props]; cbn [get_prop]; try set_solver.
  - destruct (parse_index key); [unfold char_at; destruct (String.get _ _)|destruct (String.eqb _ _)]; set_solver.
  - destruct (parse_index key) as [i|].
    + destruct (items !! i) as [x|] eqn:Hi; cbn; [|set_solver].
      apply refs_in_item. by eapply list_elem_of_lookup_2.
    + destruct (String.eqb _ _); set_solver.
  - destruct (own_prop props key) as [x|] eqn:Hx; cbn; [|set_solver].
    etrans; [|eapply refs_in_field, own_prop_elem, Hx]. set_solver.
Qed.

Lemma refs_in_walk (parts : list string) (spec : value) :
  refs_in (walk spec parts) ⊆ refs_in spec.
Proof.
  unfold walk. revert spec. induction parts as [|part rest IH]; intros spec; cbn; [done|].
  etrans; [apply IH|apply refs_in_get_prop].
Qed.

Lemma refs_in_own_ref (record : list (string * value)) (ref : string) :
  own_prop record "$ref" = Some (VString ref) -> ref ∈ refs_in (VObject record).
Proof.
  intros H%own_prop_elem. apply (refs_in_field _ _ _ H). cbn. set_solver.
Qed.

Lemma unseen_shrinks (U seen seen' : gset string) :
  seen ⊆ seen' -> (size (U ∖ seen') <= size (U ∖ seen))%nat.
Proof. intros Hsub. apply subseteq_size. set_solver. Qed.

Lemma unseen_drops (U seen : gset string) (ref : string) :
  ref ∈ U -> ref ∉ seen -> (size (U ∖ ({[ref]} ∪ seen)) < size (U ∖ seen))%nat.
Proof. intros Hin Hout. apply subset_size. set_solver. Qed.

Lemma each_item_answers (U : gset string) (budget : nat)
    (visit : value -> gset string -> option (value * gset string)) (items : list value) :
  Forall (answers U budget visit) items ->
  forall seen, (size (U ∖ seen) < budget)%nat ->
    exists rs seen', each_item visit items seen = Some (rs, seen') /\ seen ⊆ seen'.
Proof.
  induction 1 as [|x xs Hx Hxs IH]; intros seen Hsize; cbn [each_item].
  - by exists [], seen.
  - destruct (Hx seen Hsize) as (r & seen1 & Hv & Hsub1). rewrite Hv. cbn.
    destruct (IH seen1) as (rs & seen2 & Hrest & Hsub2).
    { pose proof (unseen_shrinks U _ _ Hsub1). lia. }
    rewrite Hrest. cbn.
    exists (r :: rs), seen2. split; [done|]. set_solver.
Qed.

Lemma each_field_answers (U : gset string) (budget : nat)
    (visit : value -> gset string -> option (value * gset string))
    (record : list (string * value)) :
  Forall (fun kv => answers U budget visit (snd kv)) record ->
  forall seen, (size (U ∖ seen) < budget)%nat ->
    exists rs seen', each_field visit record seen = Some (rs, seen') /\ seen ⊆ seen'.
Proof.
  induction 1 as [|[k x] xs Hx Hxs IH]; intros seen Hsize; cbn [each_field].
  - by exists [], seen.
  - destruct (Hx seen Hsize) as (r & seen1 & Hv & Hsub1). cbn [snd] in Hv. rewrite Hv. cbn.
    destruct (IH seen1) as (rs & seen2 & Hrest & Hsub2).
    { pose proof (unseen_shrinks U _ _ Hsub1). lia. }
    rewrite Hrest. cbn.
    exists (assigned k r rs), seen2. split; [done|]. set_solver.
Qed.

(** Termination: with as much fuel as [U] has unseen pointers, and one more,
    [resolveRefs] answers. *)
Lemma resolveRefs_answers (U : gset string) (spec : value) :
  refs_in spec ⊆ U ->
  forall fuel obj, refs_in obj ⊆ U -> answers U fuel (resolveRefs fuel spec) obj.
Proof.
  intros Hspec. induction fuel as [|fuel IHfuel]; [intros obj _ seen Hsize; lia|].
  induction obj as [ | | b | n | n | s | items IH | record IH] using value_nested_ind;
    intros Hobj seen Hsize; rewrite resolveRefs_unfold; try (by eexists _, _).
  - destruct (each_item_answers U (S fuel) (resolveRefs (S fuel) spec) items) with (seen := seen)
      as (rs & seen' & -> & Hsub); [|done|by eexists _, _].
    apply Forall_forall. intros x Hx. rewrite Forall_forall in IH.
    apply IH; [done|]. etrans; [by apply refs_in_item|done].
  - assert (exists rs seen', each_field (resolveRefs (S fuel) spec) record seen = Some (rs, seen')
                             /\ seen ⊆ seen') as (rs & seen' & Hfields & Hsub).
    { apply (each_field_answers U (S fuel)); [|done].
      apply Forall_forall. intros [k x] Hx. rewrite Forall_forall in IH.
      apply (IH (k, x) Hx). etrans; [|exact Hobj].
      etrans; [|by apply (refs_in_field record k x)]. set_solver. }
    destruct (own_prop record "$ref") as [[ | | | | | ref | | ]|] eqn:Href;
      try (rewrite Hfields; by eexists _, _).
    destruct (decide (ref ∈ seen)) as [Hin|Hout]; [by eexists _, _|].
    assert (ref ∈ U) as HrefU by (apply Hobj; by apply refs_in_own_ref).
    destruct (IHfuel (walk spec (pointer_parts ref))) with (seen := {[ref]} ∪ seen)
      as (r & seen1 & -> & Hsub1).
    + etrans; [apply refs_in_walk|done].
    + pose proof (unseen_drops U seen ref HrefU Hout). lia.
    + exists r, seen1. split; [done|]. set_solver.
Qed.

(** More fuel does not change an answer. *)
Lemma each_item_mono (visit visit' : value -> gset string -> option (value * gset string))
    (items : list value) :
  Forall (fun x => forall seen out, visit x seen = Some out -> visit' x seen = Some out) items ->
  forall seen out, each_item visit items seen = Some out -> each_item visit' items seen = Some out.
Proof.
  induction 1 as [|x xs Hx Hxs IH]; intros seen out; cbn [each_item]; [done|].
  destruct (visit x seen) as [[r seen1]|] eqn:Hv; [|discriminate].
  rewrite (Hx _ _ Hv). cbn.
  destruct (each_item visit xs seen1) as [[rs seen2]|] eqn:Hrest; [|discriminate].
  by rewrite (IH _ _ Hrest).
Qed.

Lemma each_field_mono (visit visit' : value -> gset string -> option (value * gset string))
    (record : list (string * value)) :
  Forall (fun kv => forall seen out, visit (snd kv) seen = Some out ->
                                     visit' (snd kv) seen = Some out) record ->
  forall seen out, each_field visit record seen = Some out ->
                   each_field visit' record seen = Some out.
Proof.
  induction 1 as [|[k x] xs Hx Hxs IH]; intros seen out; cbn [each_field]; [done|].
  cbn [snd] in Hx.
  destruct (visit x seen) as [[r seen1]|] eqn:Hv; [|discriminate].
  rewrite (Hx _ _ Hv). cbn.
  destruct (each_field visit xs seen1) as [[rs seen2]|] eqn:Hrest; [|discriminate].
  by rewrite (IH _ _ Hrest).
Qed.

Lemma resolveRefs_fuel_mono (spec : value) (fuel : nat) :
  forall fuel' obj seen out,
    (fuel <= fuel')%nat ->
    resolveRefs fuel spec obj seen = Some out -> resolveRefs fuel' spec obj seen = Some out.
Proof.
  induction fuel as [|fuel IHfuel]; [discriminate|].
  intros [|fuel'] obj; [lia|].
  induction obj as [ | | b | n | n | s | items IH | record IH] using value_nested_ind;
    intros seen out Hle; rewrite !resolveRefs_unfold; try done.
  - destruct (each_item _ items seen) as [[rs seen']|] eqn:Hitems; [|discriminate].
    erewrite each_item_mono; [done| |exact Hitems].
    eapply Forall_impl; [exact IH|]. intros x Hx seen0 out0. by apply Hx.
  - destruct (own_prop record "$ref") as [[ | | | | | ref | | ]|] eqn:Href.
    all: try (destruct (each_field _ record seen) as [[rs seen']|] eqn:Hfields; [|discriminate];
              erewrite each_field_mono; [done| |exact Hfields];
              eapply Forall_impl; [exact IH|]; intros x Hx seen0 out0; by apply Hx).
    destruct (decide (ref ∈ seen)); [done|]. apply IHfuel. lia.
Qed.

(** The short circuit of [if (seen.has(ref)) return { $circular: ref }]. *)
Lemma resolveRefs_seen_pointer (fuel : nat) (spec : value) (record : list (string * value))
    (ref : string) (seen : gset string) :
  own_prop record "$ref" = Some (VString ref) -> ref ∈ seen ->
  resolveRefs (S fuel) spec (VObject record) seen = Some (circular ref, seen).
Proof.
  intros Href Hseen. rewrite resolveRefs_unfold, Href. by destruct (decide (ref ∈ seen)).
Qed.

Lemma resolveRefs_enough_fuel (spec obj : value) (seen : gset string) :
  exists resolved seen',
    seen ⊆ seen' /\
    forall fuel, (enough_fuel spec obj <= fuel)%nat ->
                 resolveRefs fuel spec obj seen = Some (resolved, seen').
Proof.
  destruct (resolveRefs_answers (refs_in spec ∪ refs_in obj) spec) with
    (fuel := enough_fuel spec obj) (obj := obj) (seen := seen)
    as (resolved & seen' & Hrun & Hsub); [set_solver|set_solver| |].
  { unfold enough_fuel. apply Nat.lt_succ_r, subseteq_size. set_solver. }
  exists resolved, seen'. split; [done|].
  intros fuel Hfuel. by apply (resolveRefs_fuel_mono spec (enough_fuel spec obj)).
Qed.

Lemma each_item_step (visit : value -> gset string -> option (value * gset string))
    (x x' : value) (xs xs' : list value) (seen seen1 seen2 : gset string) :
  visit x seen = Some (x', seen1) -> each_item visit xs seen1 = Some (xs', seen2) ->
  each_item visit (x :: xs) seen = Some (x' :: xs', seen2).
Proof. intros Hx Hxs. cbn [each_item]. rewrite Hx. cbn. rewrite Hxs. reflexivity. Qed.

Lemma each_field_single (visit : value -> gset string -> option (value * gset string))
    (key : string) (x x' : value) (seen seen1 : gset string) :
  key <> "__proto__" -> visit x seen = Some (x', seen1) ->
  each_field visit [(key, x)] seen = Some ([(key, x')], seen1).
Proof.
  intros Hkey Hx. cbn [each_field]. rewrite Hx. cbn. unfold assigned.
  by destruct (String.eqb_spec key "__proto__").
Qed.

(** References whose pointers are all in [seen], as the items of an array:
    each is answered by its sentinel. *)
Lemma resolveRefs_seen_items (fuel : nat) (spec : value) (refs : list string)
    (seen : gset string) :
  Forall (fun ref => ref ∈ seen) refs ->
  each_item (resolveRefs (S fuel) spec) (map pointer refs) seen
  = Some (map circular refs, seen).
Proof.
  induction 1 as [|ref rest Hin _ IH]; [reflexivity|].
  cbn [map]. apply each_item_step with (seen1 := seen); [|exact IH].
  by apply resolveRefs_seen_pointer.
Qed.

(** An object with the one property [key], whose value is a reference. *)
Lemma resolveRefs_single_field (fuel : nat) (spec : value) (key ref : string)
    (seen seen' : gset string) (answer : value) :
  key <> "__proto__" ->
  resolveRefs (S fuel) spec (pointer ref) seen = Some (answer, seen') ->
  resolveRefs (S fuel) spec (VObject [(key, pointer ref)]) seen
  = Some (VObject [(key, answer)], seen').
Proof.
  intros Hkey Hanswer. rewrite resolveRefs_unfold.
  rewrite (each_field_single _ key (pointer ref) answer seen seen' Hkey Hanswer).
  cbn [own_prop].
  by destruct (String.eqb key "$ref").
Qed.

(** Along a chain of references that leads back to a pointer in [seen], every
    link is expanded once and the reference back is answered by the
    sentinel. *)
Lemma resolveRefs_chain (spec : value) (key back : string) :
  key <> "__proto__" ->
  forall refs seen fuel,
    back ∈ seen -> NoDup refs -> (forall ref, ref ∈ refs -> ref ∉ seen) ->
    chain spec key back refs -> (length refs < fuel)%nat ->
    resolveRefs fuel spec (pointer (hd back refs)) seen
    = Some (nested key (length refs) (circular back), list_to_set refs ∪ seen).
Proof.
  intros Hkey. induction refs as [|ref rest IH]; intros seen fuel Hback Hdup Hnew Hchain Hfuel.
  - destruct fuel as [|fuel]; [cbn in Hfuel; lia|].
    assert (resolveRefs (S fuel) spec (pointer back) seen = Some (circular back, seen)) as Hhead
      by (by apply resolveRefs_seen_pointer).
    cbn [hd length nested list_to_set]. rewrite Hhead.
    f_equal. f_equal. set_solver.
  - destruct fuel as [|[|fuel]]; [cbn in Hfuel; lia|cbn in Hfuel; lia|].
    destruct Hchain as [Htarget Hchain]. apply NoDup_cons in Hdup as [Hfresh Hdup].
    cbn [hd]. rewrite resolveRefs_unfold. cbn [pointer own_prop String.eqb Ascii.eqb Bool.eqb].
    destruct (decide (ref ∈ seen)) as [Hseen|_]; [by destruct (Hnew ref); [left|]|].
    rewrite Htarget.
    rewrite (resolveRefs_single_field fuel spec key (hd back rest) ({[ref]} ∪ seen)
               (list_to_set rest ∪ ({[ref]} ∪ seen))
               (nested key (length rest) (circular back)) Hkey).
    + cbn [length nested list_to_set]. f_equal. f_equal. set_solver.
    + apply IH; [set_solver|done| |done|cbn in Hfuel; lia].
      intros r Hr. specialize (Hnew r (list_elem_of_further _ _ _ Hr)). set_solver.
Qed.

(** C3.  [resolveRefs] terminates on every document, cyclic or not: from
    any [seen], [enough_fuel] pointer steps (or more) yield one and the same
    answer.  A reference node whose pointer is already in [seen] is answered
    by the sentinel, the object [{ $circular: ref }] that carries the pointer
    string, and is not expanded, wherever the node sits: on its own, among
    the items of an array, under a property.  So a cycle of references of
    any length is expanded once around, and the reference that closes it is
    replaced by the sentinel with the pointer the cycle was entered by. *)
Theorem resolveRefs_terminates (spec obj : value) (seen : gset string) :
  (exists resolved seen',
     seen ⊆ seen' /\
     forall fuel, (enough_fuel spec obj <= fuel)%nat ->
                  resolveRefs fuel spec obj seen = Some (resolved, seen')) /\
  (forall fuel record ref,
     own_prop record "$ref" = Some (VString ref) -> ref ∈ seen ->
     resolveRefs (S fuel) spec (VObject record) seen
     = Some (VObject [("$circular", VString ref)], seen)) /\
  (forall fuel refs,
     Forall (fun ref => ref ∈ seen) refs ->
     resolveRefs (S fuel) spec
       (VArray (map (fun ref => VObject [("$ref", VString ref)]) refs)) seen
     = Some (VArray (map (fun ref => VObject [("$circular", VString ref)]) refs), seen)) /\
  (forall fuel key ref,
     key <> "__proto__" -> ref ∈ seen ->
     resolveRefs (S fuel) spec (VObject [(key, VObject [("$ref", VString ref)])]) seen
     = Some (VObject [(key, VObject [("$circular", VString ref)])], seen)) /\
  (forall key first rest,
     key <> "__proto__" -> NoDup (first :: rest) ->
     (forall ref, ref ∈ first :: rest -> ref ∉ seen) ->
     chain spec key first (first :: rest) ->
     forall fuel, (S (length rest) < fuel)%nat ->
       resolveRefs fuel spec (VObject [("$ref", VString first)]) seen
       = Some (nested key (S (length rest)) (VObject [("$circular", VString first)]),
               list_to_set (first :: rest) ∪ seen)) /\
  (forall fuel ref,
     ref ∉ seen ->
     walk spec (pointer_parts ref) = VArray [VObject [("$ref", VString ref)]] ->
     resolveRefs (S (S fuel)) spec (VObject [("$ref", VString ref)]) seen
     = Some (VArray [VObject [("$circular", VString ref)]], {[ref]} ∪ seen)).
Proof.
  split; [apply resolveRefs_enough_fuel|]. split; [|split; [|split; [|split]]].
  - intros fuel record ref. apply resolveRefs_seen_pointer.
  - intros fuel refs Hrefs. rewrite resolveRefs_unfold.
    change (map (fun ref => VObject [("$ref", VString ref)]) refs) with (map pointer refs).
    by rewrite (resolveRefs_seen_items fuel spec refs seen Hrefs).
  - intros fuel key ref Hkey Hin. apply resolveRefs_single_field; [done|].
    by apply resolveRefs_seen_pointer.
  - intros key first rest Hkey Hdup Hnew [Htarget Hchain] fuel Hfuel.
    destruct fuel as [|[|fuel]]; [lia|lia|].
    apply NoDup_cons in Hdup as [Hfresh Hdup].
    rewrite resolveRefs_unfold. cbn [own_prop String.eqb Ascii.eqb Bool.eqb].
    destruct (decide (first ∈ seen)) as [Hseen|_]; [by destruct (Hnew first); [left|]|].
    rewrite Htarget.
    rewrite (resolveRefs_single_field fuel spec key (hd first rest) ({[first]} ∪ seen)
               (list_to_set rest ∪ ({[first]} ∪ seen))
               (nested key (length rest) (circular first)) Hkey).
    + cbn [nested list_to_set]. f_equal. f_equal. set_solver.
    + apply resolveRefs_chain; [done|set_solver|done| |done|lia].
      intros r Hr. specialize (Hnew r (list_elem_of_further _ _ _ Hr)). set_solver.
  - intros fuel ref Hnew Htarget.
    rewrite resolveRefs_unfold. cbn [own_prop String.eqb Ascii.eqb Bool.eqb].
    destruct (decide (ref ∈ seen)) as [Hseen|_]; [done|].
    rewrite Htarget, resolveRefs_unfold.
    change [VObject [("$ref", VString ref)]] with (map pointer [ref]).
    rewrite (resolveRefs_seen_items fuel spec [ref] ({[ref]} ∪ seen)); [done|].
    constructor; [set_solver|constructor].
Qed.

(** A self-reference, and a cycle of length two. *)
Lemma resolveRefs_terminates_witness :
  let ptr ref := VObject [("$ref", VString ref)] in
  let spec := VObject [("a", ptr "#/a");
                       ("b", VObject [("next", ptr "#/c")]);
                       ("c", VObject [("next", ptr "#/b")])] in
  resolve (ptr "#/a") spec = Some (VObject [("$circular", VString "#/a")]) /\
  resolveRefs 1 spec (ptr "#/a") {["#/a"]}
  = Some (VObject [("$circular", VString "#/a")], {["#/a"]}) /\
  resolveRefs 3 spec (ptr "#/b") ∅
  = Some (VObject [("next", VObject [("next", VObject [("$circular", VString "#/b")])])],
          list_to_set ["#/b"; "#/c"] ∪ ∅).
Proof.
  intros ptr spec. split; [|split].
  - vm_compute. reflexivity.
  - apply (resolveRefs_terminates spec (ptr "#/a") {["#/a"]}); [reflexivity|set_solver].
  - destruct (resolveRefs_terminates spec (ptr "#/b") ∅) as (_ & _ & _ & _ & Hcycle & _).
    apply (Hcycle "next" "#/b" ["#/c"]).
    + discriminate.
    + apply NoDup_cons. split; [set_solver|]. apply NoDup_cons. split; [set_solver|constructor].
    + set_solver.
    + repeat split.
    + cbn. lia.
Defined.

Lemma each_item_pair (visit : value -> gset string -> option (value * gset string))
    (a b a' b' : value) (seen seen1 seen2 : gset string) :
  visit a seen = Some (a', seen1) -> visit b seen1 = Some (b', seen2) ->
  each_item visit [a; b] seen = Some ([a'; b'], seen2).
Proof. intros Ha Hb. cbn [each_item]. rewrite Ha. cbn. rewrite Hb. reflexivity. Qed.

(** [seen] only grows, and keeps every pointer that was followed: a pointer
    met a second time, anywhere later in the same traversal, is answered by
    the sentinel. *)
Lemma resolve_repeated_pointer (spec : value) (ref : string) :
  let ptr := VObject [("$ref", VString ref)] in
  exists first, resolve (VArray [ptr; ptr]) spec = Some (VArray [first; circular ref]).
Proof.
  intros ptr. unfold resolve.
  set (U := refs_in spec ∪ refs_in (VArray [ptr; ptr])).
  assert (ref ∈ U) as HrefU.
  { subst U ptr. cbn. set_solver. }
  destruct (resolveRefs_answers U spec) with
    (fuel := size U) (obj := walk spec (pointer_parts ref)) (seen := ({[ref]} ∪ ∅ : gset string))
    as (first & seen1 & Hfirst & Hsub).
  { subst U. set_solver. }
  { etrans; [apply refs_in_walk|]. subst U. set_solver. }
  { apply subset_size. set_solver. }
  exists first. change (enough_fuel spec (VArray [ptr; ptr])) with (S (size U)).
  rewrite resolveRefs_unfold.
  rewrite (each_item_pair _ ptr ptr first (circular ref) ∅ seen1 seen1); [done| |].
  - rewrite resolveRefs_unfold. subst ptr. cbn [own_prop String.eqb Ascii.eqb Bool.eqb].
    destruct (decide (ref ∈ (∅ : gset string))) as [Hin|_]; [set_solver|]. exact Hfirst.
  - apply resolveRefs_seen_pointer; [done|set_solver].
Qed.

(** C6 fails on the code.  Two sibling responses point at one schema: the
    first is resolved, the second, no ancestor of which is that pointer, is
    answered by the sentinel. *)
Theorem resolve_sibling_pointer_marked_circular :
  let ptr ref := VObject [("$ref", VString ref)] in
  let spec := VObject [("components",
                VObject [("schemas",
                  VObject [("Message", VObject [("type", VString "string")])])])] in
  resolve (VObject [("200", ptr "#/components/schemas/Message");
                    ("404", ptr "#/components/schemas/Message")]) spec
  = Some (VObject [("200", VObject [("type", VString "string")]);
                   ("404", circular "#/components/schemas/Message")]).
Proof. vm_compute. reflexivity. Qed.

End BuildSpecFacts.

(** * Further properties *)

(** ** The request capability *)

Section RequestFacts.

Variables (fetch : Fetch) (apiBase apiToken : string).
Variables (options opts requestBody : value) (response : Response).

Hypothesis options_ok : destructure options = Return opts.
Hypothesis body_ok :
  request_body (get_prop opts "body") (get_prop opts "rawBody") = Return requestBody.
Hypothesis answered : fetch (fetch_call apiBase apiToken opts requestBody) = Return response.
Hypothesis is_json :
  includes (header_or_empty (content_type response)) "application/json" = true.

(** X1.  A JSON response whose [success] is truthy: [request] hands the
    script the whole decoded envelope, untouched, whatever the status. *)
Theorem request_json_success (data success : value) :
  json response = Return data ->
  member data "success" = Return success -> truthy success = true ->
  request fetch apiBase apiToken options = Return data.
Proof.
  intros Hdata Hsuccess Htruthy.
  rewrite (request_answered _ _ _ _ _ _ _ options_ok body_ok answered).
  unfold handle_response. rewrite is_json. cbn [negb].
  rewrite Hdata, outcome_bind_return, Hsuccess, outcome_bind_return, Htruthy.
  reflexivity.
Qed.

(** The lines of an error list whose entries are objects. *)
Lemma error_lines_of_objects (errors : list value) :
  Forall (fun e => exists props, e = VObject props) errors ->
  mapM error_line errors
  = Return (map (fun e => to_string (get_prop e "code") +:+ ": " +:+
                          to_string (get_prop e "message")) errors).
Proof.
  induction 1 as [|e rest [props ->] Hrest IH]; [reflexivity|].
  cbn [mapM map]. rewrite IH. reflexivity.
Qed.

(** X2.  A JSON response whose [success] is falsy: [request] throws an
    [Error] that lists every entry of [errors] as [code: message], joined by
    [", "] (for an empty list nothing follows the prefix).  When the envelope
    has no [errors] the failure is the TypeError of [data.errors.map]. *)
Theorem request_json_failure (data success : value) :
  json response = Return data ->
  member data "success" = Return success -> truthy success = false ->
  (forall errors,
     get_prop data "errors" = VArray errors ->
     Forall (fun e => exists props, e = VObject props) errors ->
     request fetch apiBase apiToken options
     = Throw (new_Error
                ("Cloudflare API error: " +:+
                 join ", " (map (fun e => to_string (get_prop e "code") +:+ ": " +:+
                                          to_string (get_prop e "message")) errors)))) /\
  (get_prop data "errors" = VUndefined ->
     request fetch apiBase apiToken options
     = Throw (new_TypeError "Cannot read properties of undefined (reading 'map')")).
Proof.
  intros Hdata Hsuccess Hfalsy.
  rewrite (request_answered _ _ _ _ _ _ _ options_ok body_ok answered).
  unfold handle_response. rewrite is_json. cbn [negb].
  rewrite Hdata, outcome_bind_return, Hsuccess, outcome_bind_return, Hfalsy. cbn [negb].
  assert (member data "errors" = Return (get_prop data "errors")) as Hmember.
  { destruct data; try reflexivity; discriminate Hsuccess. }
  unfold error_summary. rewrite Hmember, outcome_bind_return.
  split.
  - intros errors -> Hobjects. cbn [array_map].
    rewrite (error_lines_of_objects _ Hobjects). reflexivity.
  - intros ->. reflexivity.
Qed.

End RequestFacts.

Lemma request_json_success_witness :
  let data := VObject [("success", VBool true); ("result", VArray [VNum 1]);
                       ("result_info", VObject [("page", VNum 1)])] in
  let upstream : Fetch := fun _ =>
    Return {| status := 200; content_type := Some "application/json";
              text := EmptyString; json := Return data |} in
  let options := VObject [("method", VString "GET"); ("path", VString "/zones")] in
  request upstream "https://api" "tok" options = Return data.
Proof.
  intros data upstream options.
  apply (request_json_success upstream "https://api" "tok" options options VUndefined
           {| status := 200; content_type := Some "application/json";
              text := EmptyString; json := Return data |}
           eq_refl eq_refl eq_refl eq_refl data (VBool true)); reflexivity.
Defined.

Lemma request_json_failure_witness :
  let data := VObject [("success", VBool false);
                       ("errors", VArray [VObject [("code", VNum 7003);
                                                   ("message", VString "No route")];
                                          VObject [("code", VNum 7000)]])] in
  let upstream : Fetch := fun _ =>
    Return {| status := 400; content_type := Some "application/json";
              text := EmptyString; json := Return data |} in
  let options := VObject [("method", VString "GET"); ("path", VString "/zones")] in
  request upstream "https://api" "tok" options
  = Throw (new_Error "Cloudflare API error: 7003: No route, 7000: undefined").
Proof.
  intros data upstream options.
  destruct (request_json_failure upstream "https://api" "tok" options options VUndefined
              {| status := 400; content_type := Some "application/json";
                 text := EmptyString; json := Return data |}
              eq_refl eq_refl eq_refl eq_refl data (VBool false) eq_refl eq_refl eq_refl)
    as [Hlisted _].
  apply (Hlisted _ eq_refl). repeat constructor; by eexists.
Defined.

(** X3.  The credential reaches the network in one place only: the call
    [request] makes carries it as the [Authorization] header, [Bearer] and
    the token, in front of at most one more header; the target, the search
    parameters, the method and the body are the same whatever the token. *)
Theorem fetch_call_credential (apiBase : string) (opts requestBody : value) :
  exists others,
    (length others <= 1)%nat /\
    forall apiToken,
      fetch_call apiBase apiToken opts requestBody
      = {| target := apiBase +:+ to_string (get_prop opts "path");
           searchParams := query_params (get_prop opts "query");
           method := get_prop opts "method";
           headers := ("Authorization", VString ("Bearer " +:+ apiToken)) :: others;
           body := requestBody |}.
Proof.
  unfold fetch_call, request_headers.
  destruct (truthy (get_prop opts "contentType")).
  - exists [("Content-Type", get_prop opts "contentType")]. split; [cbn; lia|done].
  - destruct (truthy (get_prop opts "body") && negb (truthy (get_prop opts "rawBody"))).
    + exists [("Content-Type", VString "application/json")]. split; [cbn; lia|done].
    + exists []. split; [cbn; lia|done].
Qed.

(** X4.  [request] fails before it calls [fetch] in three cases, in the
    order of its lines: it has no options object (a TypeError); the URL
    constructor refuses [apiBase + path], and what it throws comes out as it
    is, before the body is looked at; the URL is accepted and a body that is
    to be serialized holds a BigInt (the TypeError of [JSON.stringify]).  In
    each case the outcome is the same whatever the network would answer. *)
Theorem request_fails_before_fetch (apiBase apiToken : string) :
  (forall options, options = VUndefined \/ options = VNull ->
     exists message, forall new_URL fetch,
       request_with new_URL fetch apiBase apiToken options = Throw (new_TypeError message)) /\
  (forall new_URL options opts failure,
     destructure options = Return opts ->
     new_URL (apiBase +:+ to_string (get_prop opts "path")) = Throw failure ->
     forall fetch, request_with new_URL fetch apiBase apiToken options = Throw failure) /\
  (forall new_URL options opts,
     destructure options = Return opts ->
     new_URL (apiBase +:+ to_string (get_prop opts "path")) = Return () ->
     truthy (get_prop opts "rawBody") = false ->
     truthy (get_prop opts "body") = true ->
     holds_bigint (get_prop opts "body") = true ->
     forall fetch,
       request_with new_URL fetch apiBase apiToken options
       = Throw (new_TypeError "Do not know how to serialize a BigInt")).
Proof.
  split; [|split].
  - intros options [-> | ->]; by eexists.
  - intros new_URL options opts failure Hopts Hurl fetch. unfold request_with.
    by rewrite Hopts, outcome_bind_return, Hurl.
  - intros new_URL options opts Hopts Hurl Hraw Hbody Hbig fetch.
    unfold request_with, request_body.
    rewrite Hopts, outcome_bind_return, Hurl, outcome_bind_return, Hraw, Hbody.
    unfold JSON_stringify.
    destruct (serialize_property_outcome (get_prop opts "body") EmptyString EmptyString)
      as [Hthrow _].
    rewrite (Hthrow Hbig). reflexivity.
Qed.

Lemma request_fails_before_fetch_witness :
  let options := VObject [("method", VString "POST"); ("path", VString "/x");
                          ("body", VObject [("n", VBigInt 1)])] in
  let new_URL : URL_constructor :=
    fun text => if starts_with "https://" text then Return ()
                else Throw (new_TypeError "Invalid URL") in
  let unreachable : Fetch := fun _ => Return {| status := 200; content_type := None;
                                                text := "never asked"; json := Return VNull |} in
  request_with new_URL unreachable "api.example" "tok" options
  = Throw (new_TypeError "Invalid URL") /\
  request_with new_URL unreachable "https://api.example" "tok" options
  = Throw (new_TypeError "Do not know how to serialize a BigInt") /\
  request unreachable "https://api.example" "tok" options
  = Throw (new_TypeError "Do not know how to serialize a BigInt").
Proof.
  intros options new_URL unreachable. split; [|split].
  - destruct (request_fails_before_fetch "api.example" "tok") as (_ & Hurl & _).
    apply (Hurl new_URL options options); reflexivity.
  - destruct (request_fails_before_fetch "https://api.example" "tok") as (_ & _ & Hbody).
    apply (Hbody new_URL options options); reflexivity.
  - destruct (request_fails_before_fetch "https://api.example" "tok") as (_ & _ & Hbody).
    apply (Hbody (fun _ => Return ()) options options); reflexivity.
Defined.

(** ** Search parameters *)

Section QueryFacts.

Lemma params_set_In (params : list (string * string)) (key val k v : string) :
  In (k, v) (params_set params key val)
  <-> (k = key /\ v = val) \/ (k <> key /\ In (k, v) params).
Proof.
  induction params as [|[k0 v0] rest IH]; cbn [params_set].
  - cbn. naive_solver.
  - destruct (String.eqb_spec k0 key) as [->|Hne].
    + cbn [In]. rewrite List.filter_In. cbn [fst].
      rewrite negb_true_iff, String.eqb_neq. naive_solver.
    + cbn [In]. rewrite IH. naive_solver.
Qed.

Lemma params_set_keys (params : list (string * string)) (key val k : string) :
  In k (map fst (params_set params key val)) <-> k = key \/ In k (map fst params).
Proof.
  rewrite !in_map_iff. split.
  - intros ([k' v'] & <- & Hin). apply params_set_In in Hin as [[-> ->]|[Hk Hin]]; [by left|].
    right. by exists (k', v').
  - intros [->|([k' v'] & <- & Hin)].
    + exists (key, val). split; [done|]. apply params_set_In. by left.
    + cbn [fst]. destruct (String.eqb_spec k' key) as [->|Hne].
      * exists (key, val). split; [done|]. apply params_set_In. by left.
      * exists (k', v'). split; [done|]. apply params_set_In. by right.
Qed.

Lemma filter_other_keys_NoDup (rest : list (string * string)) (key : string) :
  List.NoDup (map fst rest) ->
  List.NoDup (map fst (List.filter (fun kv => negb (String.eqb (fst kv) key)) rest)).
Proof.
  induction rest as [|[k v] rest IH]; cbn [List.filter map fst]; [constructor|].
  intros [Hk Hrest]%List.NoDup_cons_iff.
  destruct (negb (k =? key)%string); cbn [map fst]; [|auto].
  constructor; [|auto].
  rewrite in_map_iff. intros ([k' v'] & Hk' & [Hin _]%List.filter_In). cbn in Hk'. subst k'.
  apply Hk, in_map_iff. by exists (k, v').
Qed.

Lemma params_set_NoDup (params : list (string * string)) (key val : string) :
  List.NoDup (map fst params) -> List.NoDup (map fst (params_set params key val)).
Proof.
  induction params as [|[k0 v0] rest IH]; cbn [params_set map fst]; intros Hnodup.
  - repeat constructor. intros [].
  - apply List.NoDup_cons_iff in Hnodup as [Hfresh Hrest].
    destruct (String.eqb_spec k0 key) as [->|Hne]; cbn [map fst].
    + constructor; [|by apply filter_other_keys_NoDup].
      rewrite in_map_iff. intros ([k v] & Hk & [_ Hin]%List.filter_In).
      cbn in Hk, Hin. subst k. by rewrite String.eqb_refl in Hin.
    + constructor; [|auto].
      rewrite params_set_keys. intros [->|Hin]; done.
Qed.

Lemma query_loop_sound (l : list (string * value)) :
  forall acc,
    List.NoDup (map fst acc) ->
    let out := foldl (fun params kv =>
                        match snd kv with
                        | VUndefined => params
                        | v => params_set params (fst kv) (to_string v)
                        end) acc l in
    List.NoDup (map fst out) /\
    forall k v, In (k, v) out ->
      In (k, v) acc \/ exists x, In (k, x) l /\ x <> VUndefined /\ v = to_string x.
Proof.
  induction l as [|[k0 x0] rest IH]; intros acc Hacc; cbn [foldl]; [by split; [|left]|].
  cbv zeta in IH. cbn [fst snd].
  assert (forall acc', List.NoDup (map fst acc') ->
            (forall k v, In (k, v) acc' ->
               In (k, v) acc \/ (k = k0 /\ x0 <> VUndefined /\ v = to_string x0)) ->
            List.NoDup (map fst (foldl (fun params kv =>
                        match snd kv with
                        | VUndefined => params
                        | v => params_set params (fst kv) (to_string v)
                        end) acc' rest)) /\
            forall k v, In (k, v) (foldl (fun params kv =>
                        match snd kv with
                        | VUndefined => params
                        | v => params_set params (fst kv) (to_string v)
                        end) acc' rest) ->
              In (k, v) acc \/
              exists x, In (k, x) ((k0, x0) :: rest) /\ x <> VUndefined /\ v = to_string x)
    as Hstep.
  { intros acc' Hnodup Hfrom. destruct (IH acc' Hnodup) as [Hout Hin]. split; [done|].
    intros k v Hkv. destruct (Hin k v Hkv) as [Hacc'|(x & Hx & Hdef & ->)].
    - destruct (Hfrom k v Hacc') as [?|(-> & Hdef & ->)]; [by left|].
      right. exists x0. split; [by left|done].
    - right. exists x. split; [by right|done]. }
  assert (forall v0, x0 <> VUndefined -> v0 = to_string x0 ->
            forall k v, In (k, v) (params_set acc k0 v0) ->
              In (k, v) acc \/ (k = k0 /\ x0 <> VUndefined /\ v = to_string x0)) as Hset.
  { intros v0 Hdef -> k v [[-> ->]|[_ Hin]]%params_set_In; [by right|by left]. }
  destruct x0; first [ apply Hstep; [done|by left]
                     | apply Hstep; [by apply params_set_NoDup|by apply Hset] ].
Qed.

Lemma query_loop_keeps (l : list (string * value)) :
  forall acc k v,
    In (k, v) acc -> ~ In k (map fst l) ->
    In (k, v) (foldl (fun params kv =>
                        match snd kv with
                        | VUndefined => params
                        | v => params_set params (fst kv) (to_string v)
                        end) acc l).
Proof.
  induction l as [|[k0 x0] rest IH]; intros acc k v Hin Hfresh; cbn [foldl]; [done|].
  cbn [map fst In] in Hfresh. cbn [fst snd].
  assert (forall v0, In (k, v) (params_set acc k0 v0)) as Hset.
  { intros v0. apply params_set_In. right. split; [|done]. intros ->. apply Hfresh. by left. }
  destruct x0; apply IH; auto.
Qed.

Lemma query_loop_complete (l : list (string * value)) :
  List.NoDup (map fst l) ->
  forall acc k x,
    In (k, x) l -> x <> VUndefined ->
    In (k, to_string x) (foldl (fun params kv =>
                                  match snd kv with
                                  | VUndefined => params
                                  | v => params_set params (fst kv) (to_string v)
                                  end) acc l).
Proof.
  induction l as [|[k0 x0] rest IH]; intros Hnodup acc k x Hin Hdef; [destruct Hin|].
  cbn [map fst] in Hnodup. apply List.NoDup_cons_iff in Hnodup as [Hfresh Hrest].
  cbn [foldl fst snd]. destruct Hin as [[= -> ->]|Hin].
  - assert (In (k, to_string x) (params_set acc k (to_string x))) as Hset.
    { apply params_set_In. by left. }
    destruct x; first [done | by apply query_loop_keeps].
  - destruct x0; by apply IH.
Qed.

(** X5.  The search parameters [request] sets from [query]: no key occurs
    twice; every parameter stems from an entry of [query] whose value is not
    [undefined], and holds [String(value)]; and when the keys of [query] are
    distinct, as the keys of an object are, every such entry is there.  A
    falsy [query] sets nothing. *)
Theorem query_params_entries (query : value) :
  List.NoDup (map fst (query_params query)) /\
  (forall k v, In (k, v) (query_params query) ->
     exists x, In (k, x) (entries query) /\ x <> VUndefined /\ v = to_string x) /\
  (truthy query = true -> List.NoDup (map fst (entries query)) ->
   forall k x, In (k, x) (entries query) -> x <> VUndefined ->
     In (k, to_string x) (query_params query)) /\
  (truthy query = false -> query_params query = []).
Proof.
  unfold query_params. destruct (truthy query).
  - destruct (query_loop_sound (entries query) [] (List.NoDup_nil _)) as [Hnodup Hfrom].
    repeat split; [done| | |done].
    + intros k v Hin. by destruct (Hfrom k v Hin) as [[]|?].
    + intros _ Hkeys k x Hin Hdef. by apply query_loop_complete.
  - repeat split; [apply List.NoDup_nil|by intros k v []|done].
Qed.

Lemma query_params_entries_witness :
  let query := VObject [("page", VNum 2); ("name", VUndefined); ("per_page", VNum 50);
                        ("match", VString "all")] in
  In ("per_page", "50") (query_params query) /\
  ~ In "name" (map fst (query_params query)).
Proof.
  intros query.
  destruct (query_params_entries query) as (_ & Hsound & Hcomplete & _). split.
  - apply (Hcomplete eq_refl) with (x := VNum 50).
    + cbn. repeat constructor; cbn; intuition discriminate.
    + cbn. auto.
    + discriminate.
  - intros ([k v] & Hk & Hin)%in_map_iff. cbn in Hk. subst k.
    destruct (Hsound _ _ Hin) as (x & Hx & Hdef & _).
    cbn in Hx. intuition congruence.
Defined.

End QueryFacts.

(** ** The unit, the gateway and the tools *)

(** X6.  [evaluate] answers with a record for whatever the script does, with
    one exception: when the script throws [null] or [undefined], reading
    [err.message] in the [catch] clause throws, and the call itself fails
    with that TypeError. *)
Theorem evaluate_answers (script : Script) (fetch : Fetch) (apiBase : string)
    (accountId : value) (apiToken : string) :
  let outcome := script (unit_scope fetch apiBase accountId apiToken) in
  ((outcome <> Throw (NonError VNull) /\ outcome <> Throw (NonError VUndefined)) ->
     exists collected, evaluate script fetch apiBase accountId apiToken = Return collected) /\
  (outcome = Throw (NonError VNull) ->
     evaluate script fetch apiBase accountId apiToken
     = Throw (new_TypeError "Cannot read properties of null (reading 'message')")) /\
  (outcome = Throw (NonError VUndefined) ->
     evaluate script fetch apiBase accountId apiToken
     = Throw (new_TypeError "Cannot read properties of undefined (reading 'message')")).
Proof.
  intros outcome. subst outcome. unfold evaluate.
  destruct (script _) as [v|[name message|thrown_value]]; cbn.
  - split; [by eexists|]. split; discriminate.
  - split; [by eexists|]. split; discriminate.
  - split; [|split].
    + intros [Hnull Hundef].
      destruct thrown_value; cbn;
        first [by destruct Hundef | by destruct Hnull | by eexists].
    + intros [= ->]. reflexivity.
    + intros [= ->]. reflexivity.
Qed.

Lemma evaluate_answers_witness :
  let net : Fetch := fun _ => Throw (new_TypeError "fetch failed") in
  (exists collected,
     evaluate (fun _ => Throw (NonError (VString "boom"))) net "https://api" (VString "acc") "tok"
     = Return collected) /\
  evaluate (fun _ => Throw (NonError VNull)) net "https://api" (VString "acc") "tok"
  = Throw (new_TypeError "Cannot read properties of null (reading 'message')").
Proof.
  intros net. split.
  - apply (evaluate_answers (fun _ => Throw (NonError (VString "boom"))) net "https://api"
             (VString "acc") "tok"). split; discriminate.
  - apply (evaluate_answers (fun _ => Throw (NonError VNull)) net "https://api"
             (VString "acc") "tok"). reflexivity.
Defined.

Section ToolFacts.

Variables (fetch : Fetch) (LOADER : Loader).
Variables (apiBase uuid code apiToken accountId : string).
Variable script : Script.

Hypothesis loader_runs : runs LOADER fetch apiBase uuid code (VString accountId) script.

(** X7.  A script whose result has a text: the [execute] tool answers with
    [truncateResponse] of the result and no error flag. *)
Theorem execute_returns_text (v : value) (text : string) :
  script (unit_scope fetch apiBase (VString accountId) apiToken) = Return v ->
  truncateResponse v = Return text ->
  execute_account_token LOADER apiBase uuid apiToken accountId code
  = {| content_text := text; isError := false |}.
Proof.
  intros Hv Htext. unfold execute_account_token.
  rewrite (executeCode_runs _ _ _ _ _ _ _ _ loader_runs).
  unfold evaluate. rewrite Hv. cbn. rewrite Htext. reflexivity.
Qed.

(** X8.  A script that returns [undefined] (nothing), or throws an [Error]
    with an empty message, or throws a string: the gateway reports
    [undefined] as the result, [truncateResponse] cannot read its length, and
    the tool answers with that TypeError's message, flagged as an error. *)
Theorem execute_nothing_to_show :
  let outcome := script (unit_scope fetch apiBase (VString accountId) apiToken) in
  outcome = Return VUndefined \/
  (exists name, outcome = Throw (ErrorObj name EmptyString)) \/
  (exists s, outcome = Throw (NonError (VString s))) ->
  executeCode LOADER apiBase uuid code (VString accountId) apiToken = Return VUndefined /\
  execute_account_token LOADER apiBase uuid apiToken accountId code
  = {| content_text := "Error: Cannot read properties of undefined (reading 'length')";
       isError := true |}.
Proof.
  intros outcome Hcases. subst outcome.
  assert (executeCode LOADER apiBase uuid code (VString accountId) apiToken = Return VUndefined)
    as Hgateway.
  { rewrite (executeCode_runs _ _ _ _ _ _ _ _ loader_runs). unfold evaluate.
    destruct Hcases as [-> | [[name ->] | [s ->]]]; reflexivity. }
  split; [exact Hgateway|].
  unfold execute_account_token. rewrite Hgateway. reflexivity.
Qed.

End ToolFacts.

Lemma execute_returns_text_witness :
  let net : Fetch := fun _ => Throw (new_TypeError "fetch failed") in
  let script : Script := fun scope => Return (VArray [scope_accountId scope; VNum 1]) in
  execute_account_token (fun _ _ => evaluate script net "https://api" (VString "acc"))
    "https://api" "id" "tok" "acc" "async () => [accountId, 1]"
  = {| content_text := lines ["["; "  " +:+ dq +:+ "acc" +:+ dq +:+ ","; "  1"; "]"];
       isError := false |}.
Proof.
  intros net script.
  apply (execute_returns_text net (fun _ _ => evaluate script net "https://api" (VString "acc"))
           "https://api" "id" "async () => [accountId, 1]" "tok" "acc" script eq_refl
           (VArray [VString "acc"; VNum 1])); reflexivity.
Defined.

Lemma execute_nothing_to_show_witness :
  let net : Fetch := fun _ => Throw (new_TypeError "fetch failed") in
  let script : Script := fun _ => Return VUndefined in
  execute_account_token (fun _ _ => evaluate script net "https://api" (VString "acc"))
    "https://api" "id" "tok" "acc" "async () => {}"
  = {| content_text := "Error: Cannot read properties of undefined (reading 'length')";
       isError := true |}.
Proof.
  intros net script.
  apply (execute_nothing_to_show net (fun _ _ => evaluate script net "https://api" (VString "acc"))
           "https://api" "id" "async () => {}" "tok" "acc" script eq_refl).
  by left.
Defined.

(** X9.  Whatever the loader fails with, provisioning or the call of
    [evaluate], the [execute] tool answers with [Error: ] and the failure's
    message ([String] of a thrown value that is no [Error]), flagged as an
    error; this holds in both modes, and in user-token mode without any call
    to the account resolver when [account_id] is given. *)
Theorem execute_loader_failure (LOADER : Loader) (apiBase uuid code apiToken accountId : string)
    (failure : thrown) :
  LOADER ("cloudflare-api-" +:+ uuid) (workerCode apiBase (VString accountId) code) apiToken
  = Throw failure ->
  execute_account_token LOADER apiBase uuid apiToken accountId code
  = {| content_text := "Error: " +:+ formatError failure; isError := true |} /\
  (accountId <> EmptyString ->
   forall resolver_fetch : Fetch,
     execute_user_token resolver_fetch LOADER apiBase uuid apiToken code (Some accountId)
     = {| content_text := "Error: " +:+ formatError failure; isError := true |}).
Proof.
  intros Hfail.
  assert (executeCode LOADER apiBase uuid code (VString accountId) apiToken = Throw failure)
    as Hgateway.
  { unfold executeCode, provisioning. cbn [workerId recipe evaluate_arg].
    rewrite Hfail. reflexivity. }
  split.
  - unfold execute_account_token. rewrite Hgateway. reflexivity.
  - intros Hne resolver_fetch. unfold execute_user_token.
    rewrite outcome_bind_return, (truthy_string _ Hne). cbn [negb].
    rewrite Hgateway. reflexivity.
Qed.

Lemma execute_loader_failure_witness :
  execute_account_token (fun _ _ _ => Throw (NonError (VString "loader down")))
    "https://api" "id" "tok" "acc" "async () => 1"
  = {| content_text := "Error: loader down"; isError := true |}.
Proof.
  apply (execute_loader_failure (fun _ _ _ => Throw (NonError (VString "loader down")))
           "https://api" "id" "async () => 1" "tok" "acc" (NonError (VString "loader down"))
           eq_refl).
Defined.

Section SearchFacts.

Variables (LOADER : SearchLoader) (specJson uuid code : string).
Variables (script : SearchScript) (spec : value).

(** The loader runs the search module: the unit built for [code] behaves as
    [evaluate_search] on what [code] denotes. *)
Hypothesis loader_runs :
  LOADER ("cloudflare-search-" +:+ uuid) (searchWorkerCode specJson code)
  = evaluate_search script spec.

(** X10.  The [search] tool: a script whose result has a text is answered
    with [truncateResponse] of it; a script that throws an [Error] with a
    non-empty message is answered with [Error: ] and that message, flagged;
    a script that returns [undefined] is answered with the TypeError of
    reading [length], flagged. *)
Theorem search_outcomes :
  (forall v text,
     script spec = Return v -> truncateResponse v = Return text ->
     search LOADER specJson uuid code = {| content_text := text; isError := false |}) /\
  (forall name message,
     script spec = Throw (ErrorObj name message) -> message <> EmptyString ->
     search LOADER specJson uuid code
     = {| content_text := "Error: " +:+ message; isError := true |}) /\
  (script spec = Return VUndefined ->
     search LOADER specJson uuid code
     = {| content_text := "Error: Cannot read properties of undefined (reading 'length')";
          isError := true |}).
Proof.
  unfold search, executeSearch. rewrite loader_runs. unfold evaluate_search.
  split; [|split].
  - intros v text -> Htext. cbn. rewrite Htext. reflexivity.
  - intros name message -> Hne. destruct message; [done|reflexivity].
  - intros ->. reflexivity.
Qed.

End SearchFacts.

Lemma search_outcomes_witness :
  let spec := VObject [("paths", VObject [("/zones", VObject [])])] in
  let keys : SearchScript := fun spec => Return (VArray (map (fun kv => VString (fst kv))
                                                            (entries (get_prop spec "paths")))) in
  let fails : SearchScript := fun _ => Throw (new_Error "spec.nope is not a function") in
  search (fun _ _ => evaluate_search keys spec) "{}" "id" "async () => Object.keys(spec.paths)"
  = {| content_text := lines ["["; "  " +:+ dq +:+ "/zones" +:+ dq; "]"]; isError := false |} /\
  search (fun _ _ => evaluate_search fails spec) "{}" "id" "async () => spec.nope()"
  = {| content_text := "Error: spec.nope is not a function"; isError := true |}.
Proof.
  intros spec keys fails. split.
  - destruct (search_outcomes (fun _ _ => evaluate_search keys spec) "{}" "id"
                "async () => Object.keys(spec.paths)" keys spec eq_refl) as (Hret & _ & _).
    apply (Hret (VArray [VString "/zones"])); reflexivity.
  - destruct (search_outcomes (fun _ _ => evaluate_search fails spec) "{}" "id"
                "async () => spec.nope()" fails spec eq_refl) as (_ & Hthrow & _).
    apply (Hthrow "Error"); [reflexivity|discriminate].
Defined.

(** ** The account resolver and the choice of the account *)

Section UpstreamFacts.

Variables (fetch : Fetch) (apiBase apiToken : string) (response : Response).

Hypothesis answered : fetch (accounts_call apiBase apiToken) = Return response.

(** X11.  An answer whose content type does not mention [application/json]
    makes the resolver fail with the status and the body text, whatever the
    status is, a 200 included; the body is never decoded. *)
Theorem resolveAccountId_not_json :
  includes (header_or_empty (content_type response)) "application/json" = false ->
  resolveAccountId fetch apiBase apiToken
  = Throw (new_Error ("Cloudflare API error: " +:+ number_to_string (status response) +:+
                      " " +:+ text response)).
Proof.
  intros Hct. unfold resolveAccountId. rewrite answered, outcome_bind_return, Hct.
  reflexivity.
Qed.

(** X12.  A JSON answer whose [success] is falsy makes the resolver fail with
    every entry of [errors] as [code: message], joined by [", "]; [result] is
    not looked at. *)
Theorem resolveAccountId_upstream_failure (data success : value) (errors : list value) :
  includes (header_or_empty (content_type response)) "application/json" = true ->
  json response = Return data ->
  member data "success" = Return success -> truthy success = false ->
  get_prop data "errors" = VArray errors ->
  Forall (fun e => exists props, e = VObject props) errors ->
  resolveAccountId fetch apiBase apiToken
  = Throw (new_Error
             ("Cloudflare API error: " +:+
              join ", " (map (fun e => to_string (get_prop e "code") +:+ ": " +:+
                                       to_string (get_prop e "message")) errors))).
Proof.
  intros Hct Hdata Hsuccess Hfalsy Herrors Hobjects. unfold resolveAccountId.
  rewrite answered, outcome_bind_return, Hct. cbn [negb].
  rewrite Hdata, outcome_bind_return, Hsuccess, outcome_bind_return, Hfalsy. cbn [negb].
  assert (member data "errors" = Return (VArray errors)) as Hmember.
  { rewrite <- Herrors. destruct data; try reflexivity; discriminate Hsuccess. }
  unfold error_summary. rewrite Hmember, outcome_bind_return. cbn [array_map].
  rewrite (error_lines_of_objects _ Hobjects). reflexivity.
Qed.

End UpstreamFacts.

Lemma resolveAccountId_not_json_witness :
  resolveAccountId (fun _ => Return {| status := 200; content_type := Some "text/html";
                                       text := "<html>login</html>";
                                       json := Throw (new_Error "Unexpected token <") |})
    "https://api" "tok"
  = Throw (new_Error "Cloudflare API error: 200 <html>login</html>").
Proof.
  apply (resolveAccountId_not_json _ "https://api" "tok"
           {| status := 200; content_type := Some "text/html"; text := "<html>login</html>";
              json := Throw (new_Error "Unexpected token <") |} eq_refl eq_refl).
Defined.

Lemma resolveAccountId_upstream_failure_witness :
  let data := VObject [("success", VBool false);
                       ("errors", VArray [VObject [("code", VNum 9109);
                                                   ("message", VString "Invalid access token")]]);
                       ("result", VArray [VObject [("id", VString "a1")]])] in
  resolveAccountId (fun _ => Return {| status := 403; content_type := Some "application/json";
                                       text := EmptyString; json := Return data |})
    "https://api" "tok"
  = Throw (new_Error "Cloudflare API error: 9109: Invalid access token").
Proof.
  intros data.
  apply (resolveAccountId_upstream_failure _ "https://api" "tok"
           {| status := 403; content_type := Some "application/json";
              text := EmptyString; json := Return data |} eq_refl data (VBool false)
           [VObject [("code", VNum 9109); ("message", VString "Invalid access token")]]);
    try reflexivity.
  repeat constructor; by eexists.
Defined.

(** X13.  Whatever the network answers, an id the resolver returns is
    truthy: never [undefined], [null] or the empty string. *)
Theorem resolveAccountId_returns_usable_id (fetch : Fetch) (apiBase apiToken : string)
    (id : value) :
  resolveAccountId fetch apiBase apiToken = Return id -> truthy id = true.
Proof.
  unfold resolveAccountId.
  destruct (fetch _) as [response|]; [|discriminate]. rewrite outcome_bind_return.
  destruct (negb _); [discriminate|].
  destruct (json response) as [data|]; [|discriminate]. rewrite outcome_bind_return.
  destruct (member data "success") as [success|]; [|discriminate].
  rewrite outcome_bind_return.
  destruct (negb (truthy success)).
  { destruct (error_summary data); discriminate. }
  destruct (get_prop data "result") as [ | | | | | | accounts | ]; try discriminate.
  destruct (Nat.eqb (length accounts) 0); [discriminate|].
  cbv zeta.
  destruct (Nat.eqb (length accounts) 1); cbn [andb].
  - destruct (truthy (get_prop (default VUndefined (accounts !! 0%nat)) "id")) eqn:Hid.
    + by intros [= <-].
    + destruct (mapM candidate (take 5 accounts)); discriminate.
  - destruct (mapM candidate (take 5 accounts)); discriminate.
Qed.

Lemma resolveAccountId_returns_usable_id_witness :
  let upstream : Fetch := fun _ =>
    Return {| status := 200; content_type := Some "application/json"; text := EmptyString;
              json := Return (VObject [("success", VBool true);
                                       ("result", VArray [VObject [("id", VString "a1")]])]) |} in
  resolveAccountId upstream "https://api" "tok" = Return (VString "a1") /\
  truthy (VString "a1") = true.
Proof.
  intros upstream. split; [reflexivity|].
  apply (resolveAccountId_returns_usable_id upstream "https://api" "tok" (VString "a1")).
  reflexivity.
Defined.

(** X14.  How the user-token handler picks the account.  A non-empty
    [account_id] is used as it is: the answer is that of the account-token
    handler for it, and the resolver's network is never asked.  An empty
    [account_id], or none with no API base configured, is answered with the
    missing-base error; neither the resolver nor the loader is reached.
    With none given and a base configured, a failure of the resolver is the
    answer, and the loader is not reached. *)
Theorem execute_user_token_account (fetch : Fetch) (LOADER : Loader)
    (apiBase uuid apiToken code : string) :
  (forall account_id, account_id <> EmptyString ->
     execute_user_token fetch LOADER apiBase uuid apiToken code (Some account_id)
     = execute_account_token LOADER apiBase uuid apiToken account_id code) /\
  execute_user_token fetch LOADER apiBase uuid apiToken code (Some EmptyString)
  = {| content_text := "Error: Cloudflare API base is missing; provide account_id explicitly.";
       isError := true |} /\
  (apiBase = EmptyString ->
   execute_user_token fetch LOADER apiBase uuid apiToken code None
   = {| content_text := "Error: Cloudflare API base is missing; provide account_id explicitly.";
        isError := true |}) /\
  (forall failure,
     apiBase <> EmptyString ->
     resolveAccountId fetch apiBase apiToken = Throw failure ->
     execute_user_token fetch LOADER apiBase uuid apiToken code None
     = {| content_text := "Error: " +:+ formatError failure; isError := true |}).
Proof.
  split; [|split; [|split]].
  - intros account_id Hne. unfold execute_user_token, execute_account_token.
    rewrite outcome_bind_return, (truthy_string _ Hne). reflexivity.
  - reflexivity.
  - intros ->. reflexivity.
  - intros failure Hne Hfail. unfold execute_user_token.
    rewrite (truthy_string _ Hne), Hfail. reflexivity.
Qed.

Lemma execute_user_token_account_witness :
  let down : Fetch := fun _ => Throw (new_TypeError "fetch failed") in
  let loader : Loader := fun _ _ _ => Return {| result := VString "ran"; err := VUndefined |} in
  execute_user_token down loader "https://api" "id" "tok" "async () => 1" (Some "acc")
  = {| content_text := "ran"; isError := false |} /\
  execute_user_token down loader "https://api" "id" "tok" "async () => 1" None
  = {| content_text := "Error: fetch failed"; isError := true |}.
Proof.
  intros down loader.
  destruct (execute_user_token_account down loader "https://api" "id" "tok" "async () => 1")
    as (Hgiven & _ & _ & Hfailed).
  split.
  - rewrite (Hgiven "acc"); [reflexivity|discriminate].
  - apply (Hfailed (new_TypeError "fetch failed")); [discriminate|reflexivity].
Defined.

(** ** Pointers *)

Section StringFacts.

Lemma append_assoc (a b c : string) : (a +:+ b) +:+ c = a +:+ b +:+ c.
Proof.
  induction a as [|x a IH]; [reflexivity|].
  change (String x ((a +:+ b) +:+ c) = String x (a +:+ b +:+ c)). by f_equal.
Qed.

Lemma append_empty_r (a : string) : a +:+ EmptyString = a.
Proof.
  induction a as [|x a IH]; [reflexivity|].
  change (String x (a +:+ EmptyString) = String x a). by f_equal.
Qed.

(** A string free of a character: [includes] does not find it. *)
Lemma includes_char_cons (c sep : ascii) (r : string) :
  includes (String c r) (String sep EmptyString) = false
  <-> Ascii.eqb c sep = false /\ includes r (String sep EmptyString) = false.
Proof.
  cbn [includes starts_with]. rewrite Ascii.eqb_sym.
  destruct (Ascii.eqb c sep); cbn [orb]; naive_solver.
Qed.

Lemma split_on_segment (seg tail : string) :
  includes seg "/" = false ->
  split_on "/" (seg +:+ "/" +:+ tail) = seg :: split_on "/" tail.
Proof.
  induction seg as [|c r IH]; [reflexivity|].
  intros [Hc Hr]%includes_char_cons.
  change (String c r +:+ "/" +:+ tail) with (String c (r +:+ "/" +:+ tail)).
  cbn [split_on]. rewrite Hc, (IH Hr). reflexivity.
Qed.

Lemma split_on_last (seg : string) :
  includes seg "/" = false -> split_on "/" seg = [seg].
Proof.
  induction seg as [|c r IH]; [reflexivity|].
  intros [Hc Hr]%includes_char_cons.
  cbn [split_on]. rewrite Hc, (IH Hr). reflexivity.
Qed.

(** Splitting undoes joining, for segments free of the separator. *)
Lemma split_on_join (segs : list string) :
  segs <> [] -> Forall (fun seg => includes seg "/" = false) segs ->
  split_on "/" (join "/" segs) = segs.
Proof.
  intros Hne Hfree. induction Hfree as [|seg rest Hseg Hrest IH]; [done|].
  destruct rest as [|next rest].
  - cbn [join]. by apply split_on_last.
  - change (join "/" (seg :: next :: rest)) with (seg +:+ "/" +:+ join "/" (next :: rest)).
    rewrite (split_on_segment _ _ Hseg), IH; done.
Qed.

End StringFacts.

Lemma walk_nullish (v : value) (parts : list string) :
  v = VNull \/ v = VUndefined -> parts <> [] -> foldl get_prop v parts = VUndefined.
Proof.
  intros Hv Hparts. destruct parts as [|part rest]; [done|].
  assert (get_prop v part = VUndefined) as Hfirst by (by destruct Hv as [-> | ->]).
  cbn [foldl]. rewrite Hfirst. clear. by induction rest.
Qed.

Lemma walk_app (v : value) (before after : list string) :
  walk v (before ++ after) = walk (walk v before) after.
Proof. unfold walk. apply foldl_app. Qed.

(** X15.  A pointer [#/seg1/seg2/...] is walked segment by segment: its
    parts are the segments (none of which holds a slash) as they are written,
    with no unescaping.  Where the document settles every read (each segment
    is an own property of what the segments before it reached, or that is
    [null] or [undefined]), the target is found by looking the segments up
    one after the other; once [null] or [undefined] is reached, the target
    of any longer pointer is [undefined], and nothing is raised. *)
Theorem pointer_parts_segments (spec : value) (segs : list string) :
  segs <> [] -> Forall (fun seg => includes seg "/" = false) segs ->
  pointer_parts ("#/" +:+ join "/" segs) = segs /\
  (settled spec segs = true ->
     walk spec (pointer_parts ("#/" +:+ join "/" segs)) = foldl get_prop spec segs /\
     forall before after,
       segs = before ++ after -> after <> [] ->
       walk spec before = VNull \/ walk spec before = VUndefined ->
       walk spec (pointer_parts ("#/" +:+ join "/" segs)) = VUndefined).
Proof.
  intros Hne Hfree.
  assert (pointer_parts ("#/" +:+ join "/" segs) = segs) as Hparts.
  { unfold pointer_parts.
    change (replace_first "#/" EmptyString ("#/" +:+ join "/" segs)) with (join "/" segs).
    by apply split_on_join. }
  split; [exact Hparts|]. intros _. rewrite Hparts. split; [reflexivity|].
  intros before after -> Hafter Hnullish. rewrite walk_app. by apply walk_nullish.
Qed.

Lemma pointer_parts_segments_witness :
  let spec := VObject [("components",
                VObject [("schemas", VObject [("a~1b", VNum 1); ("gone", VNull)])])] in
  pointer_parts "#/components/schemas/a~1b" = ["components"; "schemas"; "a~1b"] /\
  walk spec (pointer_parts "#/components/schemas/a~1b") = VNum 1 /\
  walk spec (pointer_parts "#/components/schemas/gone/deeper") = VUndefined.
Proof.
  intros spec. split; [|split].
  - destruct (pointer_parts_segments spec ["components"; "schemas"; "a~1b"])
      as (Hparts & _); [done|by repeat constructor|exact Hparts].
  - destruct (pointer_parts_segments spec ["components"; "schemas"; "a~1b"])
      as (_ & Hwalk); [done|by repeat constructor|].
    destruct (Hwalk eq_refl) as [Htarget _]. etrans; [exact Htarget|reflexivity].
  - destruct (pointer_parts_segments spec ["components"; "schemas"; "gone"; "deeper"])
      as (_ & Hwalk); [done|by repeat constructor|].
    destruct (Hwalk eq_refl) as [_ Hnull].
    apply (Hnull ["components"; "schemas"; "gone"] ["deeper"]); [reflexivity|done|by left].
Defined.

(** ** The resolver on documents without references *)

Section ResolverMore.

Variable spec : value.

Lemma each_item_copied (visit : value -> gset string -> option (value * gset string))
    (items : list value) (seen : gset string) :
  Forall (fun x => forall seen, visit x seen = Some (copied x, seen)) items ->
  each_item visit items seen = Some (map copied items, seen).
Proof.
  induction 1 as [|x xs Hx Hxs IH]; cbn [each_item]; [done|].
  rewrite Hx. cbn. rewrite IH. reflexivity.
Qed.

Lemma each_field_copied (visit : value -> gset string -> option (value * gset string))
    (record : list (string * value)) (seen : gset string) :
  Forall (fun kv => forall seen, visit (snd kv) seen = Some (copied (snd kv), seen)) record ->
  exists fields,
    each_field visit record seen = Some (fields, seen) /\
    copied (VObject record) = VObject fields.
Proof.
  induction 1 as [|[k x] xs Hx Hxs (fields & Hfields & Hcopy)]; cbn [each_field].
  - by exists [].
  - cbn [snd] in Hx. rewrite Hx. cbn. rewrite Hfields. cbn.
    exists (assigned k (copied x) fields). split; [reflexivity|].
    cbn [copied] in *. injection Hcopy as ->. reflexivity.
Qed.

Lemma resolveRefs_ref_free (fuel : nat) (obj : value) :
  refs_in obj = ∅ ->
  forall seen, resolveRefs (S fuel) spec obj seen = Some (copied obj, seen).
Proof.
  induction obj as [ | | b | n | n | s | items IH | record IH] using value_nested_ind;
    intros Hfree seen; rewrite resolveRefs_unfold; try reflexivity.
  - rewrite each_item_copied; [done|].
    apply Forall_forall. intros x Hx. rewrite Forall_forall in IH. apply IH; [done|].
    pose proof (refs_in_item items x Hx) as Hsub. rewrite Hfree in Hsub. set_solver.
  - destruct (each_field_copied (resolveRefs (S fuel) spec) record seen)
      as (fields & Hfields & Hcopy).
    { apply Forall_forall. intros [k x] Hx. rewrite Forall_forall in IH.
      apply (IH (k, x) Hx).
      pose proof (refs_in_field record k x Hx) as Hsub. rewrite Hfree in Hsub. set_solver. }
    rewrite Hfields, Hcopy.
    destruct (own_prop record "$ref") as [target|] eqn:Href; [|reflexivity].
    destruct target; try reflexivity.
    pose proof (refs_in_own_ref _ _ Href) as Hin. rewrite Hfree in Hin. set_solver.
Qed.

Lemma copied_without_proto (obj : value) : holds_proto_key obj = false -> copied obj = obj.
Proof.
  induction obj as [ | | b | n | n | s | items IH | record IH] using value_nested_ind;
    try reflexivity; cbn [holds_proto_key copied]; intros Hfree; f_equal.
  - induction IH as [|x xs Hx _ IHxs]; [done|].
    cbn [existsb] in Hfree. apply orb_false_elim in Hfree as [Hhead Htail].
    cbn [map]. by rewrite Hx, IHxs.
  - induction IH as [|[k x] xs Hx _ IHxs]; [done|].
    cbn [existsb fst snd] in Hfree. cbn [snd] in Hx.
    apply orb_false_elim in Hfree as [Hhead Htail].
    apply orb_false_elim in Hhead as [Hkey Hvalue].
    rewrite IHxs, Hx; [|done|done]. unfold assigned. by rewrite Hkey.
Qed.

(** X16.  A document that holds no [$ref] with a string is copied property
    by property: the answer is the document without the properties named
    [__proto__] (the assignment [result[key] = ...] makes none under that
    name), whatever [spec] and [seen] are, and [seen] is left as it was.  A
    document that has no such property is answered as it is. *)
Theorem resolve_ref_free (obj : value) :
  refs_in obj = ∅ ->
  resolve obj spec = Some (copied obj) /\
  (forall fuel seen, resolveRefs (S fuel) spec obj seen = Some (copied obj, seen)) /\
  (holds_proto_key obj = false -> resolve obj spec = Some obj).
Proof.
  intros Hfree.
  assert (resolve obj spec = Some (copied obj)) as Hcopy.
  { unfold resolve, enough_fuel. by rewrite resolveRefs_ref_free. }
  split; [exact Hcopy|]. split; [intros fuel seen; by apply resolveRefs_ref_free|].
  intros Hproto. by rewrite Hcopy, copied_without_proto.
Qed.

(** X17.  A reference whose pointer the document settles, and whose target
    is not an object or an array, is replaced by the target itself; when the
    pointer runs into [null] or [undefined] on its way the target is
    [undefined], and nothing is raised. *)
Theorem resolve_pointer_to_leaf (record : list (string * value)) (ref : string) :
  own_prop record "$ref" = Some (VString ref) ->
  settled spec (pointer_parts ref) = true ->
  let target := walk spec (pointer_parts ref) in
  (forall items, target <> VArray items) -> (forall props, target <> VObject props) ->
  resolve (VObject record) spec = Some target.
Proof.
  intros Href _ target Harr Hobj. unfold resolve, enough_fuel.
  assert (ref ∈ refs_in spec ∪ refs_in (VObject record)) as Hin.
  { apply elem_of_union_r. by apply refs_in_own_ref. }
  destruct (size (refs_in spec ∪ refs_in (VObject record))) as [|fuel] eqn:Hsize.
  { apply size_empty_inv in Hsize. set_solver. }
  rewrite resolveRefs_unfold, Href.
  destruct (decide (ref ∈ (∅ : gset string))) as [Hseen|_]; [set_solver|].
  rewrite resolveRefs_unfold. fold target.
  destruct target; first [reflexivity | by edestruct Harr | by edestruct Hobj].
Qed.

End ResolverMore.

Lemma resolve_ref_free_witness :
  let schema := VObject [("type", VString "array");
                         ("items", VArray [VObject [("$ref", VNum 1)]; VNull])] in
  let spec := VObject [("x", VObject [("$ref", VString "#/x")])] in
  resolve schema spec = Some schema /\
  resolve (VObject [("__proto__", schema); ("kept", schema)]) spec
  = Some (VObject [("kept", schema)]).
Proof.
  intros schema spec. split.
  - destruct (resolve_ref_free spec schema) as (_ & _ & Hsame); [vm_compute; reflexivity|].
    by apply Hsame.
  - destruct (resolve_ref_free spec (VObject [("__proto__", schema); ("kept", schema)]))
      as (Hcopy & _); [vm_compute; reflexivity|exact Hcopy].
Defined.

Lemma resolve_pointer_to_leaf_witness :
  let spec := VObject [("components", VObject [("limit", VNum 50); ("gone", VNull)])] in
  resolve (VObject [("$ref", VString "#/components/limit")]) spec = Some (VNum 50) /\
  resolve (VObject [("$ref", VString "#/components/gone/deeper")]) spec = Some VUndefined.
Proof.
  intros spec. split.
  - apply (resolve_pointer_to_leaf spec [("$ref", VString "#/components/limit")]
             "#/components/limit" eq_refl eq_refl); discriminate.
  - apply (resolve_pointer_to_leaf spec [("$ref", VString "#/components/gone/deeper")]
             "#/components/gone/deeper" eq_refl eq_refl); discriminate.
Defined.

(** ** Products and tags *)

Section ProductFacts.

Lemma span_append (p : ascii -> bool) (s : string) :
  s = fst (span p s) +:+ snd (span p s).
Proof.
  induction s as [|c r IH]; [reflexivity|].
  cbn [span]. destruct (p c); cbn [fst snd]; [|reflexivity].
  change (String c r = String c (fst (span p r) +:+ snd (span p r))). by f_equal.
Qed.

Lemma span_fst_all (p : ascii -> bool) (s : string) :
  forallb p (String.list_ascii_of_string (fst (span p s))) = true.
Proof.
  induction s as [|c r IH]; [reflexivity|].
  cbn [span]. destruct (p c) eqn:Hc; cbn [fst]; [|reflexivity].
  cbn. by rewrite Hc, IH.
Qed.

(** Where a greedy class stops: at the end, or in front of a character it
    refuses. *)
Lemma span_snd_stops (p : ascii -> bool) (s : string) :
  snd (span p s) = EmptyString \/
  exists c r, snd (span p s) = String c r /\ p c = false.
Proof.
  induction s as [|c r IH]; [by left|].
  cbn [span]. destruct (p c) eqn:Hc; cbn [snd]; [exact IH|].
  right. by exists c, r.
Qed.

(** The greedy class takes exactly [a] in front of [b] when [a] is made of
    accepted characters and [b] does not start with one. *)
Lemma span_exact (p : ascii -> bool) (a b : string) :
  forallb p (String.list_ascii_of_string a) = true ->
  (b = EmptyString \/ exists c r, b = String c r /\ p c = false) ->
  span p (a +:+ b) = (a, b).
Proof.
  intros Ha Hb. induction a as [|c a IH].
  - destruct Hb as [->|(c & r & -> & Hc)]; [reflexivity|].
    cbn [String.append span]. change (EmptyString +:+ String c r) with (String c r).
    cbn [span]. by rewrite Hc.
  - cbn in Ha. apply andb_prop in Ha as [Hc Ha].
    change (String c a +:+ b) with (String c (a +:+ b)).
    cbn [span]. rewrite Hc, (IH Ha). reflexivity.
Qed.

Lemma free_of_char (sep : ascii) (s : string) :
  forallb (fun c => negb (Ascii.eqb c sep)) (String.list_ascii_of_string s) = true
  <-> includes s (String sep EmptyString) = false.
Proof.
  induction s as [|c r IH]; [done|].
  rewrite includes_char_cons. cbn [String.list_ascii_of_string forallb].
  rewrite andb_true_iff, negb_true_iff, IH. done.
Qed.

Lemma starts_with_drop (prefix s : string) :
  starts_with prefix s = true -> s = prefix +:+ drop_chars (String.length prefix) s.
Proof.
  revert s. induction prefix as [|a p IH]; intros s; [done|].
  destruct s as [|b r]; [discriminate|]. cbn [starts_with].
  destruct (Ascii.eqb_spec a b) as [->|]; [|discriminate].
  intros H. cbn [String.length drop_chars].
  change (String b r = String b (p +:+ drop_chars (String.length p) r)).
  f_equal. by apply IH.
Qed.

Lemma starts_with_append (prefix rest : string) :
  starts_with prefix (prefix +:+ rest) = true.
Proof. apply starts_with_spec. by exists rest. Qed.

Lemma drop_chars_append (prefix rest : string) :
  drop_chars (String.length prefix) (prefix +:+ rest) = rest.
Proof. induction prefix as [|a p IH]; [by destruct rest|exact IH]. Qed.

Lemma is_empty_false (s : string) : is_empty s = false <-> s <> EmptyString.
Proof. destruct s; cbn; naive_solver. Qed.

(** What a match of the expression at the start of [s] looks like. *)
Lemma product_here_shape (opening s product : string) :
  product_here opening s = Some product ->
  exists variable rest,
    s = opening +:+ variable +:+ "}/" +:+ product +:+ rest /\
    variable <> EmptyString /\ includes variable "}" = false /\
    product <> EmptyString /\ includes product "/" = false /\
    (rest = EmptyString \/ starts_with "/" rest = true).
Proof.
  unfold product_here.
  destruct (starts_with opening s) eqn:Hopen; [|discriminate].
  set (tail := drop_chars (String.length opening) s).
  destruct (is_empty (fst (span not_brace tail))) eqn:Hvar; [discriminate|].
  destruct (starts_with "}/" (snd (span not_brace tail))) eqn:Hclose; [|discriminate].
  set (after := drop_chars 2 (snd (span not_brace tail))).
  destruct (is_empty (fst (span not_slash after))) eqn:Hprod; [discriminate|].
  intros [= <-].
  exists (fst (span not_brace tail)), (snd (span not_slash after)).
  split; [|split; [|split; [|split; [|split]]]].
  - rewrite (starts_with_drop _ _ Hopen) at 1. fold tail. f_equal.
    rewrite (span_append not_brace tail) at 1. f_equal.
    rewrite (starts_with_drop _ _ Hclose) at 1.
    change (drop_chars (String.length "}/") (snd (span not_brace tail))) with after.
    f_equal. apply span_append.
  - by apply is_empty_false.
  - apply (free_of_char "}"), span_fst_all.
  - by apply is_empty_false.
  - apply (free_of_char "/"), span_fst_all.
  - destruct (span_snd_stops not_slash after) as [->|(c & r & -> & Hc)]; [by left|].
    right. unfold not_slash in Hc. apply negb_false_iff, Ascii.eqb_eq in Hc as ->.
    reflexivity.
Qed.

Lemma first_product_shape (opening s product : string) :
  first_product opening s = Some product ->
  exists before suffix, s = before +:+ suffix /\ product_here opening suffix = Some product.
Proof.
  induction s as [|c r IH]; cbn [first_product].
  - destruct (product_here opening EmptyString) eqn:Hhere; [|discriminate].
    intros [= <-]. by exists EmptyString, EmptyString.
  - destruct (product_here opening (String c r)) eqn:Hhere.
    + intros [= <-]. by exists EmptyString, (String c r).
    + intros (before & suffix & -> & Hsuffix)%IH. by exists (String c before), suffix.
Qed.

(** X18.  Soundness of [extractProduct]: an answer is the path segment that
    follows the first [/accounts/{...}/], or failing that the first
    [/zones/{...}/]: it is not empty, holds no slash, and the path reads
    [... /accounts/{variable}/product rest] with a non-empty variable free
    of [}] and a rest that is empty or starts with a slash. *)
Theorem extractProduct_segment (path product : string) :
  extractProduct path = Some product ->
  product <> EmptyString /\ includes product "/" = false /\
  exists before opening variable rest,
    (opening = "/accounts/{" \/ opening = "/zones/{") /\
    path = before +:+ opening +:+ variable +:+ "}/" +:+ product +:+ rest /\
    variable <> EmptyString /\ includes variable "}" = false /\
    (rest = EmptyString \/ starts_with "/" rest = true).
Proof.
  unfold extractProduct. intros Hfound.
  assert (exists opening, (opening = "/accounts/{" \/ opening = "/zones/{") /\
                          first_product opening path = Some product) as (opening & Hopen & Hfirst).
  { destruct (first_product "/accounts/{" path) eqn:Haccounts.
    - exists "/accounts/{". split; [by left|congruence].
    - exists "/zones/{". by split; [right|]. }
  destruct (first_product_shape _ _ _ Hfirst) as (before & suffix & -> & Hhere).
  destruct (product_here_shape _ _ _ Hhere)
    as (variable & rest & -> & Hvar & Hbrace & Hprod & Hslash & Hrest).
  split; [done|]. split; [done|].
  by exists before, opening, variable, rest.
Qed.

Lemma extractProduct_segment_witness :
  extractProduct "x/zones/{zone_id}/dns_records/export" = Some "dns_records" /\
  includes "dns_records" "/" = false.
Proof.
  split; [reflexivity|].
  by destruct (extractProduct_segment "x/zones/{zone_id}/dns_records/export" "dns_records"
                 eq_refl) as (_ & Hslash & _).
Defined.

Lemma product_here_match (opening variable product rest : string) :
  variable <> EmptyString -> includes variable "}" = false ->
  product <> EmptyString -> includes product "/" = false ->
  (rest = EmptyString \/ starts_with "/" rest = true) ->
  product_here opening (opening +:+ variable +:+ "}/" +:+ product +:+ rest) = Some product.
Proof.
  intros Hvar Hbrace Hprod Hslash Hrest. unfold product_here.
  rewrite starts_with_append, drop_chars_append.
  rewrite (span_exact not_brace variable ("}/" +:+ product +:+ rest)).
  - cbn [fst snd]. apply is_empty_false in Hvar as ->.
    change (starts_with "}/" ("}/" +:+ product +:+ rest)) with true. cbv iota.
    change (drop_chars 2 ("}/" +:+ product +:+ rest)) with (product +:+ rest).
    rewrite (span_exact not_slash product rest).
    + cbn [fst]. by apply is_empty_false in Hprod as ->.
    + by apply (free_of_char "/").
    + destruct Hrest as [->|Hrest]; [by left|]. right.
      destruct rest as [|c r]; [discriminate|]. exists c, r. split; [done|].
      cbn [starts_with] in Hrest. unfold not_slash. rewrite Ascii.eqb_sym.
      by destruct (Ascii.eqb "/" c).
  - by apply (free_of_char "}").
  - right. by exists "}"%char, ("/" +:+ product +:+ rest).
Qed.

Lemma first_product_none (opening s : string) :
  includes s opening = false -> first_product opening s = None.
Proof.
  induction s as [|c r IH]; cbn [includes first_product]; intros [Hstart Hlater]%orb_false_elim.
  - unfold product_here. by rewrite Hstart.
  - unfold product_here at 1. rewrite Hstart. by apply IH.
Qed.

(** X19.  On the paths the API description uses, [extractProduct] answers
    the segment behind the account or zone variable: a path that starts with
    [/accounts/{variable}/product], and a path that starts with
    [/zones/{variable}/product] and nowhere reads [/accounts/{].  A path that
    reads neither [/accounts/{] nor [/zones/{] has no product. *)
Theorem extractProduct_paths (variable product rest : string) :
  variable <> EmptyString -> includes variable "}" = false ->
  product <> EmptyString -> includes product "/" = false ->
  (rest = EmptyString \/ starts_with "/" rest = true) ->
  extractProduct ("/accounts/{" +:+ variable +:+ "}/" +:+ product +:+ rest) = Some product /\
  (includes ("/zones/{" +:+ variable +:+ "}/" +:+ product +:+ rest) "/accounts/{" = false ->
   extractProduct ("/zones/{" +:+ variable +:+ "}/" +:+ product +:+ rest) = Some product) /\
  (forall path, includes path "/accounts/{" = false -> includes path "/zones/{" = false ->
     extractProduct path = None).
Proof.
  intros Hvar Hbrace Hprod Hslash Hrest. unfold extractProduct. split; [|split].
  - assert (first_product "/accounts/{"
              ("/accounts/{" +:+ variable +:+ "}/" +:+ product +:+ rest) = Some product) as ->;
      [|done].
    change ("/accounts/{" +:+ variable +:+ "}/" +:+ product +:+ rest)
      with (String "/" ("accounts/{" +:+ variable +:+ "}/" +:+ product +:+ rest)).
    cbn [first_product].
    change (String "/" ("accounts/{" +:+ variable +:+ "}/" +:+ product +:+ rest))
      with ("/accounts/{" +:+ variable +:+ "}/" +:+ product +:+ rest).
    by rewrite product_here_match.
  - intros Hno. rewrite (first_product_none _ _ Hno).
    change ("/zones/{" +:+ variable +:+ "}/" +:+ product +:+ rest)
      with (String "/" ("zones/{" +:+ variable +:+ "}/" +:+ product +:+ rest)).
    cbn [first_product].
    change (String "/" ("zones/{" +:+ variable +:+ "}/" +:+ product +:+ rest))
      with ("/zones/{" +:+ variable +:+ "}/" +:+ product +:+ rest).
    by rewrite product_here_match.
  - intros path Haccounts Hzones.
    by rewrite (first_product_none _ _ Haccounts), (first_product_none _ _ Hzones).
Qed.

Lemma extractProduct_paths_witness :
  extractProduct "/accounts/{account_id}/workers/scripts" = Some "workers" /\
  extractProduct "/zones/{zone_id}/dns_records" = Some "dns_records" /\
  extractProduct "/user/tokens/verify" = None.
Proof.
  split; [|split].
  - apply (extractProduct_paths "account_id" "workers" "/scripts"); try done. by right.
  - apply (extractProduct_paths "zone_id" "dns_records" EmptyString); try done. by left.
  - apply (extractProduct_paths "v" "p" EmptyString); try done. by left.
Defined.

End ProductFacts.

Section TagFacts.

Lemma some_tag_strings (product : string) (ts : list string) :
  some_tag product (map VString ts) = Return (existsb (same_tag product) ts).
Proof.
  induction ts as [|t ts IH]; [reflexivity|].
  cbn [map some_tag tag_is existsb]. rewrite outcome_bind_return.
  fold (same_tag product t). destruct (same_tag product t); [reflexivity|exact IH].
Qed.

Lemma product_tags_strings (path : string) (ts : list string) :
  product_tags path (VArray (map VString ts))
  = Return (map VString
              match extractProduct path with
              | Some product => if existsb (same_tag product) ts then ts else product :: ts
              | None => ts
              end).
Proof.
  unfold product_tags. cbn [spread_tags truthy]. rewrite outcome_bind_return.
  destruct (extractProduct path) as [product|]; [|reflexivity].
  rewrite some_tag_strings, outcome_bind_return.
  by destruct (existsb (same_tag product) ts).
Qed.

(** X20.  The tags of an operation whose [tags] are strings: the given tags
    stay, in their order; when the path has a product, the product is put in
    front unless some tag already equals it up to the case of letters, so a
    tag spelling the product is always there; and building the tags again
    from the result changes nothing.  A path without a product leaves the
    tags as they are. *)
Theorem product_tags_of_strings (path : string) (ts : list string) :
  exists out,
    product_tags path (VArray (map VString ts)) = Return (map VString out) /\
    (extractProduct path = None -> out = ts) /\
    (forall product, extractProduct path = Some product ->
       (out = ts \/ out = product :: ts) /\
       (exists t, In t out /\ toLowerCase t = toLowerCase product) /\
       (out = product :: ts <-> forall t, In t ts -> toLowerCase t <> toLowerCase product)) /\
    product_tags path (VArray (map VString out)) = Return (map VString out).
Proof.
  eexists. split; [apply product_tags_strings|].
  destruct (extractProduct path) as [product|] eqn:Hproduct.
  - destruct (existsb (same_tag product) ts) eqn:Hfound.
    + split; [discriminate|]. split.
      * intros p [= <-]. split; [by left|]. split.
        -- apply existsb_exists in Hfound as (t & Hin & Hsame).
           exists t. split; [done|]. by apply String.eqb_eq.
        -- split.
           ++ intros Hcons. apply (f_equal (@length string)) in Hcons. cbn in Hcons. lia.
           ++ intros Hnone. apply existsb_exists in Hfound as (t & Hin & Hsame).
              destruct (Hnone t Hin). by apply String.eqb_eq.
      * rewrite product_tags_strings, Hproduct, Hfound. reflexivity.
    + split; [discriminate|]. split.
      * intros p [= <-]. split; [by right|]. split.
        -- exists product. split; [by left|done].
        -- split; [|done]. intros _ t Hin Hsame.
           assert (existsb (same_tag product) ts = true) as Hyes; [|congruence].
           apply existsb_exists. exists t. split; [done|]. by apply String.eqb_eq.
      * rewrite product_tags_strings, Hproduct. cbn [existsb].
        unfold same_tag at 1. rewrite String.eqb_refl. reflexivity.
  - split; [done|]. split; [discriminate|].
    rewrite product_tags_strings, Hproduct. reflexivity.
Qed.

(** X21.  Tags that cannot be read as strings.  A missing (falsy) [tags]
    counts as no tags.  When the path has a product, a tag that is a number,
    met before any tag spelling the product, makes the build throw a
    TypeError; behind such a tag, or on a path without a product, it is
    never looked at. *)
Theorem product_tags_other_values (path : string) :
  (forall tags, truthy tags = false ->
     product_tags path tags
     = Return match extractProduct path with Some product => [VString product] | None => [] end) /\
  (forall items, extractProduct path = None ->
     product_tags path (VArray items) = Return items) /\
  (forall product ts n rest,
     extractProduct path = Some product ->
     (existsb (same_tag product) ts = true ->
        product_tags path (VArray (map VString ts ++ VNum n :: rest))
        = Return (map VString ts ++ VNum n :: rest)) /\
     (existsb (same_tag product) ts = false ->
        product_tags path (VArray (map VString ts ++ VNum n :: rest))
        = Throw (new_TypeError "t.toLowerCase is not a function"))).
Proof.
  split; [|split].
  - intros tags Hfalsy. unfold product_tags, spread_tags. rewrite Hfalsy, outcome_bind_return.
    by destruct (extractProduct path).
  - intros items Hnone. unfold product_tags. cbn [spread_tags truthy].
    by rewrite outcome_bind_return, Hnone.
  - intros product ts n rest Hproduct.
    unfold product_tags. cbn [spread_tags truthy]. rewrite outcome_bind_return, Hproduct.
    assert (forall found, existsb (same_tag product) ts = found ->
              some_tag product (map VString ts ++ VNum n :: rest)
              = if found then Return true
                else Throw (new_TypeError "t.toLowerCase is not a function")) as Hsome.
    { intros found <-. induction ts as [|t ts IH]; [reflexivity|].
      cbn [map app some_tag tag_is existsb]. rewrite outcome_bind_return.
      fold (same_tag product t). destruct (same_tag product t); [reflexivity|exact IH]. }
    split; intros Hfound; rewrite (Hsome _ Hfound); reflexivity.
Qed.

End TagFacts.

Lemma product_tags_of_strings_witness :
  product_tags "/accounts/{account_id}/workers/scripts" (VArray [VString "Workers"; VString "KV"])
  = Return [VString "Workers"; VString "KV"] /\
  product_tags "/accounts/{account_id}/workers/scripts" (VArray [VString "KV"])
  = Return [VString "workers"; VString "KV"].
Proof.
  split.
  - destruct (product_tags_of_strings "/accounts/{account_id}/workers/scripts" ["Workers"; "KV"])
      as (out & Hout & _ & Hproduct & _).
    destruct (Hproduct "workers" eq_refl) as ([-> | ->] & _ & Hfront); [exact Hout|].
    destruct (proj1 Hfront eq_refl "Workers"); [by left|reflexivity].
  - destruct (product_tags_of_strings "/accounts/{account_id}/workers/scripts" ["KV"])
      as (out & Hout & _ & Hproduct & _).
    destruct (Hproduct "workers" eq_refl) as ([-> | ->] & (t & Hin & Hsame) & _); [|exact Hout].
    destruct Hin as [<-|[]]. discriminate Hsame.
Defined.

Lemma product_tags_other_values_witness :
  product_tags "/accounts/{account_id}/workers/scripts" VUndefined = Return [VString "workers"] /\
  product_tags "/accounts/{account_id}/workers/scripts" (VArray [VString "KV"; VNum 7])
  = Throw (new_TypeError "t.toLowerCase is not a function").
Proof.
  destruct (product_tags_other_values "/accounts/{account_id}/workers/scripts")
    as (Hfalsy & _ & Hmixed).
  split.
  - apply (Hfalsy VUndefined eq_refl).
  - apply (Hmixed "workers" ["KV"] 7 [] eq_refl). reflexivity.
Defined.

(** ** The generated index *)

Section IndexFacts.

Variable spec : value.

Lemma operations_of_listed (path : string) (pathItem : value) (methods : list string) :
  forall ops,
    operations_of spec path pathItem methods = Return ops ->
    map fst ops = List.filter (fun method => truthy (get_prop pathItem method)) methods /\
    Forall (fun kv => operation_entry spec path (get_prop pathItem (fst kv)) = Return (snd kv))
           ops.
Proof.
  induction methods as [|method rest IH]; intros ops; cbn [operations_of List.filter].
  - intros [= <-]. by split.
  - destruct (truthy (get_prop pathItem method)); [|exact (IH ops)].
    destruct (operation_entry spec path (get_prop pathItem method)) as [entry|] eqn:Hentry;
      [|discriminate].
    rewrite outcome_bind_return.
    destruct (operations_of spec path pathItem rest) as [others|]; [|discriminate].
    rewrite outcome_bind_return. intros [= <-].
    destruct (IH others eq_refl) as [Hkeys Hentries].
    split; [cbn; by f_equal|]. by constructor.
Qed.

(** X22.  What the index keeps of a path item: the operations under [get],
    [post], [put], [patch] and [delete] that are there (truthy), in that
    order, and nothing else; an operation under any other key ([head],
    [options], ...) and the path item's own fields are dropped.  Each kept
    operation is its summary, description, tags, and its parameters, request
    body and responses, each resolved by a call of its own. *)
Theorem index_operations (path : string) (pathItem : value) (ops : list (string * value)) :
  operations_of spec path pathItem HTTP_METHODS = Return ops ->
  map fst ops
  = List.filter (fun method => truthy (get_prop pathItem method))
                ["get"; "post"; "put"; "patch"; "delete"] /\
  (forall method entry, In (method, entry) ops ->
     In method ["get"; "post"; "put"; "patch"; "delete"] /\
     let op := get_prop pathItem method in
     exists tags,
       product_tags path (get_prop op "tags") = Return tags /\
       entry = VObject [("summary", get_prop op "summary");
                        ("description", get_prop op "description");
                        ("tags", VArray tags);
                        ("parameters", resolved (get_prop op "parameters") spec);
                        ("requestBody", resolved (get_prop op "requestBody") spec);
                        ("responses", resolved (get_prop op "responses") spec)]).
Proof.
  intros Hops. destruct (operations_of_listed _ _ _ _ Hops) as [Hkeys Hentries].
  split; [exact Hkeys|].
  intros method entry Hin. split.
  - assert (In method (map fst ops)) as Hkey by (apply in_map_iff; by exists (method, entry)).
    rewrite Hkeys in Hkey. by apply List.filter_In in Hkey as [Hkey _].
  - rewrite Forall_forall in Hentries.
    specialize (Hentries (method, entry) (proj2 (list_elem_of_In _ _) Hin)).
    cbn [fst snd] in Hentries. unfold operation_entry in Hentries. cbv zeta.
    destruct (product_tags path (get_prop (get_prop pathItem method) "tags")) as [tags|];
      [|discriminate].
    exists tags. split; [done|]. by injection Hentries.
Qed.

Lemma paths_of_listed (items : list (string * value)) :
  forall paths,
    paths_of spec items = Return paths ->
    map fst paths
    = map fst (List.filter (fun kv => truthy (snd kv) && negb (String.eqb (fst kv) "__proto__"))
                           items) /\
    Forall (fun kv => exists pathItem ops,
                        In (fst kv, pathItem) items /\
                        operations_of spec (fst kv) pathItem HTTP_METHODS = Return ops /\
                        snd kv = VObject ops) paths.
Proof.
  induction items as [|[path pathItem] rest IH]; intros paths;
    cbn [paths_of List.filter fst snd].
  - intros [= <-]. by split.
  - destruct (truthy pathItem); cbn [andb].
    + destruct (operations_of spec path pathItem HTTP_METHODS) as [ops|] eqn:Hops;
        [|discriminate].
      rewrite outcome_bind_return.
      destruct (paths_of spec rest) as [others|]; [|discriminate].
      rewrite outcome_bind_return. intros [= <-].
      destruct (IH others eq_refl) as [Hkeys Hentries].
      assert (Forall (fun kv => exists pathItem0 ops0,
                        In (fst kv, pathItem0) ((path, pathItem) :: rest) /\
                        operations_of spec (fst kv) pathItem0 HTTP_METHODS = Return ops0 /\
                        snd kv = VObject ops0) others) as Hothers.
      { eapply Forall_impl; [exact Hentries|].
        intros kv (item & ops' & Hin & Hops' & Hsnd). exists item, ops'.
        split; [by right|done]. }
      unfold assigned. destruct (String.eqb path "__proto__"); cbn [negb].
      * by split.
      * split; [cbn; by f_equal|]. constructor; [|exact Hothers].
        exists pathItem, ops. cbn. auto.
    + intros Hrest. destruct (IH paths Hrest) as [Hkeys Hentries]. split; [done|].
      eapply Forall_impl; [exact Hentries|].
      intros kv (item & ops' & Hin & Hops' & Hsnd). exists item, ops'.
      split; [by right|done].
Qed.

(** X23.  The index [generateSpecFile] prints is [{ paths }], with one
    entry for every path of [spec.paths] whose item is truthy, in the order
    of [spec.paths], and none for the others; a path named [__proto__] gets
    no entry either, [paths[path] = {}] making no property under that name.
    Each entry is an object of operations keyed by methods out of [get],
    [post], [put], [patch], [delete]. *)
Theorem spec_index_paths (declared index : value) :
  member spec "paths" = Return declared -> truthy declared = true ->
  spec_index spec = Return index ->
  exists paths,
    index = VObject [("paths", VObject paths)] /\
    map fst paths
    = map fst (List.filter (fun kv => truthy (snd kv) && negb (String.eqb (fst kv) "__proto__"))
                           (entries declared)) /\
    forall path operations, In (path, operations) paths ->
      exists ops, operations = VObject ops /\
                  forall method, In method (map fst ops) ->
                                 In method ["get"; "post"; "put"; "patch"; "delete"].
Proof.
  intros Hdeclared Htruthy. unfold spec_index.
  rewrite Hdeclared, outcome_bind_return, Htruthy.
  destruct (paths_of spec (entries declared)) as [paths|] eqn:Hpaths; [|discriminate].
  rewrite outcome_bind_return. intros [= <-].
  destruct (paths_of_listed _ _ Hpaths) as [Hkeys Hentries].
  exists paths. split; [done|]. split; [done|].
  intros path operations Hin. rewrite Forall_forall in Hentries.
  destruct (Hentries (path, operations) (proj2 (list_elem_of_In _ _) Hin))
    as (pathItem & ops & _ & Hops & Hsnd).
  exists ops. split; [exact Hsnd|].
  intros method Hmethod. destruct (operations_of_listed _ _ _ _ Hops) as [Hmethods _].
  rewrite Hmethods in Hmethod. by apply List.filter_In in Hmethod as [Hmethod _].
Qed.

(** X24.  What [generateSpecFile] returns is always a text, never
    [undefined]; for a description without [paths] (missing, [null], or
    otherwise falsy) it is the index with no path. *)
Theorem generateSpecFile_text :
  (forall printed, generateSpecFile spec = Return printed -> exists text, printed = Some text) /\
  (forall declared,
     member spec "paths" = Return declared -> truthy declared = false ->
     generateSpecFile spec
     = Return (Some (lines ["{"; "  " +:+ dq +:+ "paths" +:+ dq +:+ ": {}"; "}"]))).
Proof.
  split.
  - intros printed. unfold generateSpecFile, spec_index.
    destruct (member spec "paths") as [declared|]; [|discriminate].
    rewrite outcome_bind_return.
    destruct (paths_of spec _) as [paths|]; [|discriminate].
    rewrite !outcome_bind_return. unfold JSON_stringify_2. cbn [serialize_property].
    match goal with |- (_ ← ?m; _) = _ -> _ => destruct m; [|discriminate] end.
    cbn. intros [= <-]. by eexists.
  - intros declared Hdeclared Hfalsy. unfold generateSpecFile, spec_index.
    rewrite Hdeclared, outcome_bind_return, Hfalsy. reflexivity.
Qed.

End IndexFacts.

Lemma index_operations_witness :
  let pathItem := VObject [("parameters", VArray []);
                           ("head", VObject [("summary", VString "Probe")]);
                           ("post", VObject [("summary", VString "Create")]);
                           ("get", VObject [("summary", VString "List")])] in
  exists entries,
    operations_of VNull "/zones" pathItem HTTP_METHODS = Return entries /\
    map fst entries = ["get"; "post"].
Proof.
  intros pathItem. eexists. split; [reflexivity|].
  refine (proj1 (index_operations VNull "/zones" pathItem _ eq_refl)).
Defined.

Lemma spec_index_paths_witness :
  let declared := VObject [("/zones", VObject [("get", VObject [("summary", VString "List")])]);
                           ("__proto__", VObject [("get", VObject [])]);
                           ("/gone", VNull)] in
  let spec := VObject [("paths", declared)] in
  exists index paths,
    spec_index spec = Return index /\
    index = VObject [("paths", VObject paths)] /\ map fst paths = ["/zones"].
Proof.
  intros declared spec.
  destruct (spec_index_paths spec declared _ eq_refl eq_refl eq_refl)
    as (paths & Hindex & Hkeys & _).
  eexists _, paths. split; [reflexivity|]. split; [exact Hindex|exact Hkeys].
Defined.

Lemma generateSpecFile_text_witness :
  generateSpecFile (VObject [("openapi", VString "3.0.3")])
  = Return (Some (lines ["{"; "  " +:+ dq +:+ "paths" +:+ dq +:+ ": {}"; "}"])).
Proof.
  apply (generateSpecFile_text (VObject [("openapi", VString "3.0.3")])) with (declared := VUndefined);
    reflexivity.
Defined.

(** ** Categories *)

Lemma split_on_parts_free (s part : string) :
  In part (split_on "/" s) -> includes part "/" = false.
Proof.
  revert part. induction s as [|c r IH]; intros part; cbn [split_on].
  - intros [<-|[]]. reflexivity.
  - destruct (Ascii.eqb c "/") eqn:Hc.
    + intros [<-|Hin]; [reflexivity|by apply IH].
    + destruct (split_on "/" r) as [|p ps] eqn:Hsplit.
      * intros [<-|[]]. apply includes_char_cons. by split.
      * intros [<-|Hin].
        -- apply includes_char_cons. split; [done|]. apply IH. by left.
        -- apply IH. by right.
Qed.

(** X25.  The category of a path is its first non-empty segment, and
    [root] when it has none: it is never empty and holds no slash; for a
    path [/segment/...] it is [segment]. *)
Theorem category_of_segment (path : string) :
  category_of path <> EmptyString /\
  includes (category_of path) "/" = false /\
  (forall segment rest,
     segment <> EmptyString -> includes segment "/" = false ->
     path = "/" +:+ segment +:+ "/" +:+ rest \/ path = "/" +:+ segment ->
     category_of path = segment) /\
  (path = EmptyString \/ path = "/" -> category_of path = "root").
Proof.
  unfold category_of. split; [|split; [|split]].
  - destruct (List.filter _ _) as [|part parts] eqn:Hparts; [done|].
    assert (In part (List.filter (fun part => negb (is_empty part)) (split_on "/" path)))
      as [_ Hpart]%List.filter_In by (rewrite Hparts; by left).
    apply negb_true_iff in Hpart. rewrite Hpart. by apply is_empty_false.
  - destruct (List.filter _ _) as [|part parts] eqn:Hparts; [reflexivity|].
    assert (In part (List.filter (fun part => negb (is_empty part)) (split_on "/" path)))
      as [Hin Hpart]%List.filter_In by (rewrite Hparts; by left).
    apply negb_true_iff in Hpart. rewrite Hpart. by apply (split_on_parts_free path).
  - intros segment rest Hne Hfree Hpath.
    apply is_empty_false in Hne.
    destruct Hpath as [-> | ->].
    + change ("/" +:+ segment +:+ "/" +:+ rest)
        with (EmptyString +:+ "/" +:+ segment +:+ "/" +:+ rest).
      rewrite (split_on_segment EmptyString), (split_on_segment segment) by done.
      cbn [List.filter is_empty negb]. rewrite Hne. cbn [negb]. by rewrite Hne.
    + change ("/" +:+ segment) with (EmptyString +:+ "/" +:+ segment).
      rewrite (split_on_segment EmptyString), (split_on_last segment) by done.
      cbn [List.filter is_empty negb]. rewrite Hne. cbn [negb]. by rewrite Hne.
  - intros [-> | ->]; reflexivity.
Qed.

Lemma category_of_segment_witness :
  category_of "/accounts/{account_id}/workers/scripts" = "accounts".
Proof.
  destruct (category_of_segment "/accounts/{account_id}/workers/scripts") as (_ & _ & Hseg & _).
  apply (Hseg "accounts" "{account_id}/workers/scripts"); [discriminate|reflexivity|by left].
Defined.

(** ** What the module source holds *)

(** X26.  The two constants of the injected module are written as string
    literals that read back as the API base and the account id: whatever
    characters they hold (quotes, backslashes, line breaks), they stay inside
    their literal and add nothing to the module's code.  The caller's code is
    the one part of the module taken as it is. *)
Theorem worker_js_literals (apiBase accountId code : string) :
  exists base_literal account_literal,
    worker_js apiBase (VString accountId) code
    = Return (worker_js_head +:+ (dq +:+ base_literal +:+ dq) +:+ ";" +:+ nl +:+
              "const accountId = " +:+ (dq +:+ account_literal +:+ dq) +:+
              worker_js_class +:+ code +:+ worker_js_tail) /\
    unquote_body base_literal = Some apiBase /\
    unquote_body account_literal = Some accountId.
Proof.
  exists (quote_body apiBase), (quote_body accountId).
  split; [reflexivity|]. split; apply unquote_quote_body.
Qed.

Lemma length_append (a b : string) :
  String.length (a +:+ b) = (String.length a + String.length b)%nat.
Proof.
  induction a as [|c a IH]; [reflexivity|].
  change (S (String.length (a +:+ b)) = S (String.length a + String.length b)). by f_equal.
Qed.

(** X27.  The marker is added exactly when the estimate passes the limit:
    a text within the budget has an estimate of at most 6000 tokens; a
    truncated answer reports an estimate above 6000, and is 24000 characters
    and the marker long, whatever the length of the text was. *)
Theorem truncation_reports_over_limit (content : value) (text : string) :
  serialized content = Return (Some text) ->
  let estimate := Truncate.ceil_div (Truncate.str_length text) 4 in
  (Truncate.str_length text <= 24000 <-> estimate <= 6000) /\
  (24000 < Truncate.str_length text ->
     exists out,
       truncateResponse content = Return out /\
       6000 < estimate /\
       Truncate.str_length out
       = 24000 + 103 + Truncate.str_length (toLocaleString estimate) + 5).
Proof.
  intros Hser estimate.
  pose proof (ceil_div_4_spec (Truncate.str_length text)) as Hceil. fold estimate in Hceil.
  split; [lia|].
  intros Hlong. eexists. split; [|split; [lia|]].
  - rewrite (truncateResponse_serialized _ _ Hser), MAX_CHARS_value.
    destruct (Z.leb_spec (Truncate.str_length text) 24000); [lia|]. reflexivity.
  - unfold Truncate.marker, Truncate.str_length in *.
    rewrite !length_append, slice0_length.
    change (Truncate.ceil_div (Z.of_nat (String.length text)) Truncate.CHARS_PER_TOKEN)
      with estimate.
    change (String.length (toLocaleString Truncate.MAX_TOKENS)) with 5%nat.
    change (String.length nl) with 1%nat.
    change (String.length "--- TRUNCATED ---") with 17%nat.
    change (String.length "Response was ~") with 14%nat.
    change (String.length " tokens (limit: ") with 16%nat.
    change (String.length "). Use more specific queries to reduce response size.")
      with 53%nat.
    lia.
Qed.

Lemma truncation_reports_over_limit_witness :
  exists out,
    truncateResponse (VString (repeat_char "x" (Z.to_nat 100000))) = Return out /\
    Truncate.str_length out = 24000 + 103 + 6 + 5.
Proof.
  destruct (truncation_reports_over_limit (VString (repeat_char "x" (Z.to_nat 100000)))
              (repeat_char "x" (Z.to_nat 100000)) eq_refl) as [_ Hlong].
  destruct Hlong as (out & Hout & _ & Hlen); [vm_compute; reflexivity|].
  exists out. split; [exact Hout|]. rewrite Hlen. vm_compute. reflexivity.
Defined.

(** ** The set of pointers seen *)

Section SeenFacts.

Variables (spec : value) (U : gset string).

Hypothesis spec_within : refs_in spec ⊆ U.

Lemma each_item_grows (visit : value -> gset string -> option (value * gset string))
    (items : list value) :
  Forall (grows U visit) items ->
  forall seen rs seen',
    each_item visit items seen = Some (rs, seen') -> seen ⊆ seen' /\ seen' ⊆ seen ∪ U.
Proof.
  induction 1 as [|x xs Hx Hxs IH]; intros seen rs seen'; cbn [each_item].
  - intros [= <- <-]. set_solver.
  - destruct (visit x seen) as [[r seen1]|] eqn:Hv; [|discriminate]. cbn.
    destruct (each_item visit xs seen1) as [[rs' seen2]|] eqn:Hrest; [|discriminate]. cbn.
    intros [= <- <-].
    destruct (Hx _ _ _ Hv) as [Hsub1 Hin1]. destruct (IH _ _ _ Hrest) as [Hsub2 Hin2].
    set_solver.
Qed.

Lemma each_field_grows (visit : value -> gset string -> option (value * gset string))
    (record : list (string * value)) :
  Forall (fun kv => grows U visit (snd kv)) record ->
  forall seen rs seen',
    each_field visit record seen = Some (rs, seen') -> seen ⊆ seen' /\ seen' ⊆ seen ∪ U.
Proof.
  induction 1 as [|[k x] xs Hx Hxs IH]; intros seen rs seen'; cbn [each_field].
  - intros [= <- <-]. set_solver.
  - cbn [snd] in Hx.
    destruct (visit x seen) as [[r seen1]|] eqn:Hv; [|discriminate]. cbn.
    destruct (each_field visit xs seen1) as [[rs' seen2]|] eqn:Hrest; [|discriminate]. cbn.
    intros [= <- <-].
    destruct (Hx _ _ _ Hv) as [Hsub1 Hin1]. destruct (IH _ _ _ Hrest) as [Hsub2 Hin2].
    set_solver.
Qed.

Lemma resolveRefs_grows (fuel : nat) :
  forall obj, refs_in obj ⊆ U -> grows U (resolveRefs fuel spec) obj.
Proof.
  induction fuel as [|fuel IHfuel]; [intros obj _ seen r seen'; discriminate|].
  induction obj as [ | | b | n | n | s | items IH | record IH] using value_nested_ind;
    intros Hobj seen r seen'; rewrite resolveRefs_unfold;
    try (intros [= <- <-]; set_solver).
  - destruct (each_item _ items seen) as [[rs seen1]|] eqn:Hitems; [|discriminate]. cbn.
    intros [= <- <-]. eapply each_item_grows; [|exact Hitems].
    apply Forall_forall. intros x Hx. rewrite Forall_forall in IH. apply IH; [done|].
    etrans; [by apply refs_in_item|done].
  - assert (forall rs seen1,
              each_field (resolveRefs (S fuel) spec) record seen = Some (rs, seen1) ->
              seen ⊆ seen1 /\ seen1 ⊆ seen ∪ U) as Hfields.
    { intros rs seen1. apply each_field_grows.
      apply Forall_forall. intros [k x] Hx. rewrite Forall_forall in IH.
      apply (IH (k, x) Hx). etrans; [|exact Hobj].
      etrans; [|by apply (refs_in_field record k x)]. set_solver. }
    destruct (own_prop record "$ref") as [[ | | | | | ref | | ]|] eqn:Href.
    all: try (destruct (each_field _ record seen) as [[rs seen1]|] eqn:Heach; [|discriminate];
              cbn; intros [= <- <-]; by eapply Hfields).
    destruct (decide (ref ∈ seen)); [intros [= <- <-]; set_solver|].
    intros Hrun. assert (ref ∈ U) as HrefU by (apply Hobj; by apply refs_in_own_ref).
    assert (refs_in (walk spec (pointer_parts ref)) ⊆ U) as Htarget
      by (etrans; [apply refs_in_walk|done]).
    destruct (IHfuel _ Htarget _ _ _ Hrun) as [Hsub Hin].
    set_solver.
Qed.

End SeenFacts.

(** X28.  [seen] only grows during a traversal, and only by pointers that
    the description or the document hold; the pointer of a reference node is
    in it once the node is answered, whether the node was expanded or cut. *)
Theorem seen_only_grows (fuel : nat) (spec obj resolved_obj : value) (seen seen' : gset string) :
  resolveRefs fuel spec obj seen = Some (resolved_obj, seen') ->
  seen ⊆ seen' /\
  seen' ⊆ seen ∪ (refs_in spec ∪ refs_in obj) /\
  (forall record ref,
     obj = VObject record -> own_prop record "$ref" = Some (VString ref) -> ref ∈ seen').
Proof.
  intros Hrun.
  assert (refs_in spec ⊆ refs_in spec ∪ refs_in obj) as Hspec by set_solver.
  assert (refs_in obj ⊆ refs_in spec ∪ refs_in obj) as Hobj by set_solver.
  destruct (resolveRefs_grows spec _ Hspec fuel obj Hobj _ _ _ Hrun) as [Hsub Hin].
  split; [done|]. split; [done|].
  intros record ref -> Href. destruct fuel as [|fuel]; [discriminate|].
  rewrite resolveRefs_unfold, Href in Hrun.
  destruct (decide (ref ∈ seen)) as [Hseen|Hnew].
  - injection Hrun as _ <-. done.
  - assert (refs_in (walk spec (pointer_parts ref)) ⊆ refs_in spec ∪ refs_in (VObject record))
      as Htarget by (etrans; [apply refs_in_walk|set_solver]).
    destruct (resolveRefs_grows spec _ Hspec fuel _ Htarget _ _ _ Hrun) as [Hsub' _].
    set_solver.
Qed.

Lemma seen_only_grows_witness :
  "#/a" ∈ ({["#/a"]} ∪ ∅ : gset string).
Proof.
  assert (resolveRefs 3 (VObject [("a", VObject [("type", VString "string")])])
            (VObject [("$ref", VString "#/a")]) ∅
          = Some (VObject [("type", VString "string")], {["#/a"]} ∪ ∅)) as Hrun
    by (vm_compute; reflexivity).
  destruct (seen_only_grows _ _ _ _ _ _ Hrun) as (_ & _ & Hkept).
  by apply (Hkept [("$ref", VString "#/a")]).
Defined.

Lemma resolve_total (obj spec : value) : exists answer, resolve obj spec = Some answer.
Proof.
  destruct (resolveRefs_enough_fuel spec obj ∅) as (answer & seen' & _ & Hrun).
  exists answer. unfold resolve. by rewrite (Hrun (enough_fuel spec obj)).
Qed.
